(** * go-vagues: the signal fusion engine and the position lifecycle

    A shallow embedding of
      - [src/strategy/pattern_volume_delta.go] (pattern / volume / delta /
        trend filters and [Analyze]),
      - [src/trading/order_manager.go] (the local order book-keeping),
      - [src/indicators/calculator.go] (the indicator calculator and the
        trend tests) and [src/strategy/ema_macd.go] (the EMA + MACD
        strategy), and
      - of the trading system: [calculateDelta], the statistics of
        [GetPerformance] and the interval and symbol helpers,
    together with the properties the specification states about them and
    further properties read off the code.

    Numbers.  Go's [float64] is IEEE-754 binary64; it is embedded as Rocq's
    primitive [float], whose operations are the same binary64 operations
    with round-to-nearest-even.  Every arithmetic operation of the source is
    one rounded operation of the model (no fused multiply-add).  Go's [int]
    is embedded as [Z]; the few integer expressions of the source are kept
    inside the 64-bit range by [int64].

    Left out of the embedding: wall-clock time stamps ([StartTime],
    [EndTime], [EntryTime], [ExitTime]), the text written by [log.Printf],
    the exchange client and the notifier; no property below depends on
    them.  The three functions of the indicator library [go-talib] are
    parameters of [CalculateIndicators]. *)

From Stdlib Require Import ZArith Floats Lia List Bool.
From stdpp Require Import gmap strings list fin_maps.

Set Warnings "-inexact-float".

(* ===================================================================== *)
(** * Part I.  binary64 comparisons                                       *)
(* ===================================================================== *)

Module F64.

(** Go's comparison operators on [float64]. *)
Definition gt (a b : float) : bool := PrimFloat.ltb b a.
Definition ge (a b : float) : bool := PrimFloat.leb b a.
Definition lt (a b : float) : bool := PrimFloat.ltb a b.
Definition le (a b : float) : bool := PrimFloat.leb a b.
Definition eq (a b : float) : bool := PrimFloat.eqb a b.

(** [x != x], Go's [math.IsNaN]. *)
Definition IsNaN (x : float) : bool := negb (PrimFloat.eqb x x).

(** Position of a non-NaN value in the order of the extended reals:
    a class (-2 = -oo, -1 = negative, 0 = zero, 1 = positive, 2 = +oo),
    then exponent and mantissa, mirrored for negative numbers. *)
Definition key (f : spec_float) : option (Z * Z * Z) :=
  match f with
  | S754_nan => None
  | S754_zero _ => Some (0, 0, 0)%Z
  | S754_infinity s => Some (if s then (-2) else 2, 0, 0)%Z
  | S754_finite s m e =>
      Some (if s then (-1, - e, Z.neg m) else (1, e, Z.pos m))%Z
  end.

Definition lex3 (a b : Z * Z * Z) : comparison :=
  let '(a1, a2, a3) := a in
  let '(b1, b2, b3) := b in
  match (a1 ?= b1)%Z with
  | Eq => match (a2 ?= b2)%Z with
          | Eq => (a3 ?= b3)%Z
          | c => c
          end
  | c => c
  end.

Definition fkey (x : float) : option (Z * Z * Z) := key (Prim2SF x).

End F64.

Notation "a >. b" := (F64.gt a b) (at level 70, no associativity).
Notation "a >=. b" := (F64.ge a b) (at level 70, no associativity).
Notation "a <. b" := (F64.lt a b) (at level 70, no associativity).
Notation "a <=. b" := (F64.le a b) (at level 70, no associativity).
Notation "a ==. b" := (F64.eq a b) (at level 70, no associativity).

(** Go's [math.Abs], [math.Max] and [math.Min], with the special cases the
    standard library documents for them. *)
Module math.

Definition Abs (x : float) : float := PrimFloat.abs x.

Definition Signbit (x : float) : bool := PrimFloat.get_sign x.

Definition Max (x y : float) : float :=
  if (x ==. infinity) || (y ==. infinity) then infinity
  else if F64.IsNaN x || F64.IsNaN y then nan
  else if (x ==. 0%float) && (x ==. y) then (if Signbit x then y else x)
  else if x >. y then x else y.

Definition Min (x y : float) : float :=
  if (x ==. neg_infinity) || (y ==. neg_infinity) then neg_infinity
  else if F64.IsNaN x || F64.IsNaN y then nan
  else if (x ==. 0%float) && (x ==. y) then (if Signbit x then x else y)
  else if x <. y then x else y.

End math.

(** Go's 64-bit [int]: the value of an integer expression, wrapped. *)
Definition int64 (z : Z) : Z := ((z + 2 ^ 63) mod 2 ^ 64 - 2 ^ 63)%Z.

(** [float64(n)] for an [int] n. *)
Definition float64_of_int (z : Z) : float :=
  if (z =? - 2 ^ 63)%Z then (-0x1p63)%float
  else if (z <? 0)%Z
  then PrimFloat.opp (PrimFloat.of_uint63 (Uint63.of_Z (- z)))
  else PrimFloat.of_uint63 (Uint63.of_Z z).

(* ===================================================================== *)
(** * Part II.  The data model ([package models])                         *)
(* ===================================================================== *)

Module models.

(** [KLine]: one candlestick. *)
Record KLine := mkKLine {
  Open : float;
  High : float;
  Low : float;
  Close : float;
  Volume : float;
  QuoteVolume : float
}.

Record Indicators := mkIndicators {
  EMA8 : float;
  EMA30 : float;
  EMA55 : float;
  EMA144 : float;
  EMA169 : float;
  MACD : float;
  MACDSignal : float;
  MACDHistogram : float;
  RSI : float
}.

(** [MarketData]: the fields [KLine] and [Indicators] of the source. *)
Record MarketData := mkMarketData {
  mdKLine : KLine;
  mdIndicators : Indicators
}.

(** [SignalType], an [iota] enumeration. *)
Inductive SignalType :=
| SignalNone
| SignalLongEntry
| SignalShortEntry
| SignalLongExit
| SignalShortExit.

Definition SignalType_eqb (a b : SignalType) : bool :=
  match a, b with
  | SignalNone, SignalNone
  | SignalLongEntry, SignalLongEntry
  | SignalShortEntry, SignalShortEntry
  | SignalLongExit, SignalLongExit
  | SignalShortExit, SignalShortExit => true
  | _, _ => false
  end.

Record Pattern := mkPattern {
  Direction : SignalType;
  Confidence : float;
  Name : string
}.

Record Delta := mkDelta {
  Value : float;
  BuyVolume : float;
  SellVolume : float
}.

(** [TrendDirection], an [iota] enumeration. *)
Inductive TrendDirection :=
| TrendNeutral
| TrendBullish
| TrendBearish.

End models.

(* ===================================================================== *)
(** * Part III.  The strategy ([package strategy])                        *)
(* ===================================================================== *)

Module strategy.
Import models.
Local Open Scope float_scope.

(** The message kept in [lastFilterFailure]: which filter rejected the bar,
    with the values the message is formatted from.  [NoFailure] is the
    empty string. *)
Inductive FilterFailure :=
| NoFailure
| PatternFailure
| VolumeFailure (volume : float)
| DeltaFailure (value : float) (direction : SignalType)
| TrendFailure (close ema30 : float) (direction : SignalType).

Record PatternVolumeDeltaStrategy := mkStrategy {
  hRatio : float;
  bLookback : Z;
  mRatio : float;
  vLookback : Z;
  vMult : float;
  deltaLookbackTicks : Z;
  deltaThreshMode : string;
  deltaThreshAbs : float;
  deltaDynMult : float;
  useTrendFilter : bool;
  emaLong : Z;
  history : list MarketData;
  deltaHistory : list float;
  verboseLogging : bool;
  lastFilterFailure : FilterFailure
}.

Definition NewPatternVolumeDeltaStrategy : PatternVolumeDeltaStrategy :=
  {| hRatio := 2.0;
     bLookback := 5;
     mRatio := 0.7;
     vLookback := 20;
     vMult := 1.25;
     deltaLookbackTicks := 40;
     deltaThreshMode := "dynamic";
     deltaThreshAbs := 100.0;
     deltaDynMult := 0.8;
     useTrendFilter := true;
     emaLong := 30;
     history := [];
     deltaHistory := [];
     verboseLogging := false;
     lastFilterFailure := NoFailure |}.

Definition set_history (s : PatternVolumeDeltaStrategy) (h : list MarketData)
  : PatternVolumeDeltaStrategy :=
  mkStrategy (hRatio s) (bLookback s) (mRatio s) (vLookback s) (vMult s)
    (deltaLookbackTicks s) (deltaThreshMode s) (deltaThreshAbs s)
    (deltaDynMult s) (useTrendFilter s) (emaLong s) h (deltaHistory s)
    (verboseLogging s) (lastFilterFailure s).

Definition set_deltaHistory (s : PatternVolumeDeltaStrategy) (d : list float)
  : PatternVolumeDeltaStrategy :=
  mkStrategy (hRatio s) (bLookback s) (mRatio s) (vLookback s) (vMult s)
    (deltaLookbackTicks s) (deltaThreshMode s) (deltaThreshAbs s)
    (deltaDynMult s) (useTrendFilter s) (emaLong s) (history s) d
    (verboseLogging s) (lastFilterFailure s).

Definition set_lastFilterFailure (s : PatternVolumeDeltaStrategy)
  (f : FilterFailure) : PatternVolumeDeltaStrategy :=
  mkStrategy (hRatio s) (bLookback s) (mRatio s) (vLookback s) (vMult s)
    (deltaLookbackTicks s) (deltaThreshMode s) (deltaThreshAbs s)
    (deltaDynMult s) (useTrendFilter s) (emaLong s) (history s)
    (deltaHistory s) (verboseLogging s) f.

(** [len(x)] as an [int]. *)
Definition len {A : Type} (l : list A) : Z := Z.of_nat (length l).

Definition zeroKLine : KLine := mkKLine 0 0 0 0 0 0.
Definition zeroMarketData : MarketData :=
  mkMarketData zeroKLine (mkIndicators 0 0 0 0 0 0 0 0 0).

(** [h[i]]; every use below is guarded by the bounds of its loop. *)
Definition index (h : list MarketData) (i : Z) : MarketData :=
  nth (Z.to_nat i) h zeroMarketData.

Definition patternNone : Pattern := mkPattern SignalNone 0.0 "None".

Definition detectEngulfing (s : PatternVolumeDeltaStrategy)
  (current previous : MarketData) : Pattern :=
  let c := mdKLine current in
  let p := mdKLine previous in
  let currentBody := math.Abs (Close c - Open c) in
  let previousBody := math.Abs (Close p - Open p) in
  if (Close c >. Open c) && (Close p <. Open p)
     && ((Open c <. Close p) && (Close c >. Open p)
         && (currentBody >. previousBody))
  then mkPattern SignalLongEntry 0.8 "Bullish Engulfing"
  else if (Close c <. Open c) && (Close p >. Open p)
          && ((Open c >. Close p) && (Close c <. Open p)
              && (currentBody >. previousBody))
  then mkPattern SignalShortEntry 0.8 "Bearish Engulfing"
  else patternNone.

Definition detectHammer (s : PatternVolumeDeltaStrategy)
  (candle : MarketData) : Pattern :=
  let k := mdKLine candle in
  let body := math.Abs (Close k - Open k) in
  let upperShadow := High k - math.Max (Open k) (Close k) in
  let lowerShadow := math.Min (Open k) (Close k) - Low k in
  let totalRange := High k - Low k in
  if totalRange ==. 0 then patternNone
  else if (body <. totalRange * 0.3) && (lowerShadow >=. body * hRatio s)
          && (Close k >. (High k + Low k) / 2)
  then mkPattern SignalLongEntry 0.7 "Hammer"
  else if (body <. totalRange * 0.3) && (upperShadow >=. body * hRatio s)
          && (Close k >. (High k + Low k) / 2)
  then mkPattern SignalLongEntry 0.7 "Inverted Hammer"
  else patternNone.

Definition detectInsideBar (s : PatternVolumeDeltaStrategy)
  (current previous : MarketData) : Pattern :=
  let c := mdKLine current in
  let p := mdKLine previous in
  if (High c <. High p) && (Low c >. Low p)
  then mkPattern SignalNone 0.0 "Inside Bar"
  else patternNone.

(** The loop of [detectBreakout]:
    [for i := len-2; i >= len-bLookback-1 && i >= 0; i--].
    [lo] is the lower bound [len-bLookback-1]; the loop runs fewer than
    [len] times, which is the fuel [detectBreakout] gives it. *)
Fixpoint breakoutLoop (h : list MarketData) (lo : Z) (fuel : nat) (i : Z)
  (hl : float * float) : float * float :=
  match fuel with
  | O => hl
  | S fuel' =>
      if ((i >=? lo) && (i >=? 0))%Z then
        let bar := mdKLine (index h i) in
        let high := if High bar >. fst hl then High bar else fst hl in
        let low := if Low bar <. snd hl then Low bar else snd hl in
        breakoutLoop h lo fuel' (i - 1) (high, low)
      else hl
  end.

Definition detectBreakout (s : PatternVolumeDeltaStrategy)
  (current : MarketData) : Pattern :=
  let c := mdKLine current in
  let n := len (history s) in
  if (n <? int64 (bLookback s + 1))%Z then patternNone
  else
    let '(high, low) :=
      breakoutLoop (history s) (int64 (int64 (n - bLookback s) - 1))
        (length (history s)) (n - 2) (High c, Low c) in
    if (Close c >. high) && (Volume c >. 0)
    then mkPattern SignalLongEntry 0.75 "Breakout"
    else if (Close c <. low) && (Volume c >. 0)
    then mkPattern SignalShortEntry 0.75 "Breakout"
    else patternNone.

Definition detectMomentumCandle (s : PatternVolumeDeltaStrategy)
  (candle : MarketData) : Pattern :=
  let k := mdKLine candle in
  let body := math.Abs (Close k - Open k) in
  let totalRange := High k - Low k in
  if totalRange ==. 0 then patternNone
  else if (body >=. totalRange * mRatio s) && (Volume k >. 0)
  then (if Close k >. Open k
        then mkPattern SignalLongEntry 0.7 "Momentum Candle"
        else mkPattern SignalShortEntry 0.7 "Momentum Candle")
  else patternNone.

Definition isNone (p : Pattern) : bool :=
  SignalType_eqb (Direction p) SignalNone.

Definition detectPatterns (s : PatternVolumeDeltaStrategy)
  (current previous : MarketData) : Pattern :=
  let p1 := detectEngulfing s current previous in
  if negb (isNone p1) then p1 else
  let p2 := detectHammer s current in
  if negb (isNone p2) then p2 else
  let p3 := detectInsideBar s current previous in
  if negb (isNone p3) then p3 else
  let p4 := detectBreakout s current in
  if negb (isNone p4) then p4 else
  let p5 := detectMomentumCandle s current in
  if negb (isNone p5) then p5 else
  patternNone.

(** The loop of [checkVolume]:
    [for i := startIdx; i < len-1; i++ { sumVolume += h[i].Volume }]. *)
Fixpoint volumeLoop (h : list MarketData) (fuel : nat) (i : Z)
  (sumVolume : float) : float :=
  match fuel with
  | O => sumVolume
  | S fuel' =>
      if (i <? len h - 1)%Z
      then volumeLoop h fuel' (i + 1)
             (sumVolume + Volume (mdKLine (index h i)))
      else sumVolume
  end.

(** The threshold [checkVolume] compares the volume with, once at least
    one earlier bar is there. *)
Definition volumeThreshold (s : PatternVolumeDeltaStrategy) : float :=
  let availableData := (len (history s) - 1)%Z in
  let lookback :=
    if (availableData <? vLookback s)%Z then availableData
    else vLookback s in
  let startIdx0 := int64 (int64 (len (history s) - lookback) - 1) in
  let startIdx := if (startIdx0 <? 0)%Z then 0%Z else startIdx0 in
  let sumVolume :=
    volumeLoop (history s) (length (history s)) startIdx 0 in
  let avgVolume := sumVolume / float64_of_int lookback in
  avgVolume * vMult s.

Definition checkVolume (s : PatternVolumeDeltaStrategy)
  (candle : MarketData) : bool :=
  let availableData := (len (history s) - 1)%Z in
  if (availableData <? 1)%Z then false
  else Volume (mdKLine candle) >=. volumeThreshold s.

(** The dynamic threshold of [checkDelta]. *)
Definition dynamicDeltaThreshold (s : PatternVolumeDeltaStrategy) : float :=
  let sumAbs :=
    fold_left (fun acc d => acc + math.Abs d) (deltaHistory s) 0 in
  let meanAbs := sumAbs / float64_of_int (len (deltaHistory s)) in
  meanAbs * deltaDynMult s.

Definition deltaDirectionOk (threshold : float) (delta : Delta)
  (patternDirection : SignalType) : bool :=
  match patternDirection with
  | SignalLongEntry => Value delta >=. threshold
  | SignalShortEntry => Value delta <=. - threshold
  | _ => false
  end.

Definition checkDelta (s : PatternVolumeDeltaStrategy) (delta : Delta)
  (patternDirection : SignalType) : bool :=
  if String.eqb (deltaThreshMode s) "dynamic" then
    if (len (deltaHistory s) <? 10)%Z then false
    else deltaDirectionOk (dynamicDeltaThreshold s) delta patternDirection
  else deltaDirectionOk (deltaThreshAbs s) delta patternDirection.

Definition checkTrend (s : PatternVolumeDeltaStrategy)
  (candle : MarketData) (patternDirection : SignalType) : bool :=
  let ema30 := EMA30 (mdIndicators candle) in
  if ema30 ==. 0 then false
  else match patternDirection with
       | SignalLongEntry => Close (mdKLine candle) >. ema30
       | SignalShortEntry => Close (mdKLine candle) <. ema30
       | _ => false
       end.

(** [x = append(x, v); if len(x) > cap { x = x[1:] }]. *)
Definition appendBounded {A : Type} (cap : Z) (l : list A) (v : A) : list A :=
  let l' := l ++ [v] in
  if (len l' >? cap)%Z then drop 1 l' else l'.

(** The head of [Analyze]: both histories take the new entry. *)
Definition appendHistories (s : PatternVolumeDeltaStrategy)
  (data : MarketData) (delta : Delta) : PatternVolumeDeltaStrategy :=
  let s := set_history s (appendBounded 200 (history s) data) in
  set_deltaHistory s (appendBounded 100 (deltaHistory s) (Value delta)).

(** [Analyze]: the new state of the strategy and the signal returned. *)
Definition Analyze (s : PatternVolumeDeltaStrategy) (data : MarketData)
  (delta : Delta) : PatternVolumeDeltaStrategy * SignalType :=
  let s := appendHistories s data delta in
  if (len (history s) <? 2)%Z then (s, SignalNone) else
  let current := index (history s) (len (history s) - 1) in
  let previous := index (history s) (len (history s) - 2) in
  let pattern := detectPatterns s current previous in
  if isNone pattern
  then (set_lastFilterFailure s PatternFailure, SignalNone) else
  if negb (checkVolume s current)
  then (set_lastFilterFailure s
          (VolumeFailure (Volume (mdKLine current))), SignalNone) else
  if negb (checkDelta s delta (Direction pattern))
  then (set_lastFilterFailure s
          (DeltaFailure (Value delta) (Direction pattern)), SignalNone) else
  if useTrendFilter s && negb (checkTrend s current (Direction pattern))
  then (set_lastFilterFailure s
          (TrendFailure (Close (mdKLine current))
             (EMA30 (mdIndicators current)) (Direction pattern)),
        SignalNone) else
  (set_lastFilterFailure s NoFailure, Direction pattern).

Definition GetCurrentPattern (s : PatternVolumeDeltaStrategy) : Pattern :=
  if (len (history s) <? 2)%Z then patternNone
  else detectPatterns s (index (history s) (len (history s) - 1))
         (index (history s) (len (history s) - 2)).

End strategy.

(** ** The indicator calculator ([package indicators]) *)

Module indicators.
Import models.
Local Open Scope float_scope.

Record Calculator := mkCalculator {
  periods : Z
}.

Definition NewCalculator (periods : Z) : Calculator := mkCalculator periods.

(** [getValueAt]: the value at [index], 0 outside of the slice (a nil
    slice is the empty list). *)
Definition getValueAt (slice : list float) (index : Z) : float :=
  if (index <? 0)%Z || (index >=? strategy.len slice)%Z then 0
  else nth (Z.to_nat index) slice 0.

(** The zero value of [models.Indicators], what [make] fills a slice
    with. *)
Definition zeroIndicators : Indicators := mkIndicators 0 0 0 0 0 0 0 0 0.

(** The indices [0 .. n-1] of a slice of length [n]. *)
Definition indices (n : nat) : list Z := map Z.of_nat (seq 0 n).

Section Talib.

(** [talib.Ema], [talib.Macd] and [talib.Rsi] of the library
    [github.com/markcheno/go-talib]: the calculator is embedded for any
    functions in their place. *)
Variable Ema : list float -> Z -> list float.
Variable Macd :
  list float -> Z -> Z -> Z -> list float * list float * list float.
Variable Rsi : list float -> Z -> list float.

(** [CalculateIndicators].  The slices [highs], [lows] and [volumes] the
    source fills as well are read by nothing. *)
Definition CalculateIndicators (c : Calculator) (klines : list KLine)
  : list Indicators :=
  if (strategy.len klines <? 30)%Z then []
  else
    let closes := map Close klines in
    let ema8 := Ema closes 8 in
    let ema30 := Ema closes 30 in
    let ema55 :=
      if (strategy.len klines >=? 55)%Z then Ema closes 55 else [] in
    let ema144 :=
      if (strategy.len klines >=? 144)%Z then Ema closes 144 else [] in
    let ema169 :=
      if (strategy.len klines >=? 169)%Z then Ema closes 169 else [] in
    let '(macd, macdSignal, macdHistogram) :=
      if (strategy.len klines >=? 26)%Z then Macd closes 12 26 9
      else ([], [], []) in
    let rsi :=
      if (strategy.len klines >=? 14)%Z then Rsi closes 14 else [] in
    let minStartIdx := 29%Z in
    map (fun i =>
           if (i >=? minStartIdx)%Z then
             {| EMA8 := getValueAt ema8 i;
                EMA30 := getValueAt ema30 i;
                EMA55 := getValueAt ema55 i;
                EMA144 := getValueAt ema144 i;
                EMA169 := getValueAt ema169 i;
                MACD := getValueAt macd i;
                MACDSignal := getValueAt macdSignal i;
                MACDHistogram := getValueAt macdHistogram i;
                RSI := getValueAt rsi i |}
           else zeroIndicators)
      (indices (length klines)).

End Talib.

Definition IsBullishTrend (data : MarketData) : bool :=
  let ind := mdIndicators data in
  (EMA8 ind >. EMA30 ind) && (EMA30 ind >. EMA55 ind)
  && (EMA55 ind >. EMA144 ind) && (EMA144 ind >. EMA169 ind)
  && (Close (mdKLine data) >. EMA8 ind)
  && (Close (mdKLine data) >. EMA30 ind)
  && (MACDHistogram ind >. 0).

Definition IsBearishTrend (data : MarketData) : bool :=
  let ind := mdIndicators data in
  (EMA8 ind <. EMA30 ind) && (EMA30 ind <. EMA55 ind)
  && (EMA55 ind <. EMA144 ind) && (EMA144 ind <. EMA169 ind)
  && (Close (mdKLine data) <. EMA8 ind)
  && (Close (mdKLine data) <. EMA30 ind)
  && (MACDHistogram ind <. 0).

Definition GetTrendDirection (data : MarketData) : TrendDirection :=
  if IsBullishTrend data then TrendBullish
  else if IsBearishTrend data then TrendBearish
  else TrendNeutral.

End indicators.

(** ** The EMA + MACD strategy ([ema_macd.go] of [package strategy]) *)

Module ema_macd.
Import models.
Local Open Scope float_scope.

Record EMA_MACD_Strategy := mkEMA_MACD_Strategy {
  calculator : indicators.Calculator;
  history : list MarketData
}.

Definition NewEMA_MACD_Strategy : EMA_MACD_Strategy :=
  mkEMA_MACD_Strategy (indicators.NewCalculator 200) [].

(** [abs] of this file: [-x] below zero, [x] otherwise. *)
Definition abs (x : float) : float := if x <. 0 then - x else x.

Definition isLongEntrySignal (current previous : MarketData) : bool :=
  let ema8Cross :=
    (EMA8 (mdIndicators current) >. EMA30 (mdIndicators current))
    && (EMA8 (mdIndicators previous) <=. EMA30 (mdIndicators previous)) in
  let macdCross :=
    (MACD (mdIndicators current) >. MACDSignal (mdIndicators current))
    && (MACD (mdIndicators previous) <=. MACDSignal (mdIndicators previous)) in
  let priceAboveEMA8 :=
    Close (mdKLine current) >. EMA8 (mdIndicators current) in
  let rsiValid := RSI (mdIndicators current) >. 50 in
  ema8Cross && macdCross && priceAboveEMA8 && rsiValid.

Definition isShortEntrySignal (current previous : MarketData) : bool :=
  let ema8Cross :=
    (EMA8 (mdIndicators current) <. EMA30 (mdIndicators current))
    && (EMA8 (mdIndicators previous) >=. EMA30 (mdIndicators previous)) in
  let macdCross :=
    (MACD (mdIndicators current) <. MACDSignal (mdIndicators current))
    && (MACD (mdIndicators previous) >=. MACDSignal (mdIndicators previous)) in
  let priceBelowEMA8 :=
    Close (mdKLine current) <. EMA8 (mdIndicators current) in
  let rsiValid := RSI (mdIndicators current) <. 50 in
  ema8Cross && macdCross && priceBelowEMA8 && rsiValid.

Definition isExitSignal (current previous : MarketData) : bool :=
  let priceCrossEMA30 :=
    ((Close (mdKLine current) <. EMA30 (mdIndicators current))
     && (Close (mdKLine previous) >=. EMA30 (mdIndicators previous)))
    || ((Close (mdKLine current) >. EMA30 (mdIndicators current))
        && (Close (mdKLine previous) <=. EMA30 (mdIndicators previous))) in
  let macdHistogramDecreasing :=
    MACDHistogram (mdIndicators current)
    <. MACDHistogram (mdIndicators previous) in
  let priceDeviation :=
    abs ((Close (mdKLine current) - EMA8 (mdIndicators current))
         / EMA8 (mdIndicators current)) >. 0.015 in
  priceCrossEMA30 || macdHistogramDecreasing || priceDeviation.

(** [Analyze]: the new state of the strategy and the signal returned. *)
Definition Analyze (s : EMA_MACD_Strategy) (data : MarketData)
  : EMA_MACD_Strategy * SignalType :=
  let s :=
    mkEMA_MACD_Strategy (calculator s)
      (strategy.appendBounded 200 (history s) data) in
  if (strategy.len (history s) <? 2)%Z then (s, SignalNone)
  else
    let current :=
      strategy.index (history s) (strategy.len (history s) - 1) in
    let previous :=
      strategy.index (history s) (strategy.len (history s) - 2) in
    let trend := indicators.GetTrendDirection current in
    let entry :=
      match trend with
      | TrendBullish =>
          if isLongEntrySignal current previous
          then Some SignalLongEntry else None
      | TrendBearish =>
          if isShortEntrySignal current previous
          then Some SignalShortEntry else None
      | TrendNeutral => None
      end in
    match entry with
    | Some signal => (s, signal)
    | None =>
        if isExitSignal current previous then
          match trend with
          | TrendBullish => (s, SignalLongExit)
          | TrendBearish => (s, SignalShortExit)
          | TrendNeutral => (s, SignalNone)
          end
        else (s, SignalNone)
    end.

Definition GetCurrentTrend (s : EMA_MACD_Strategy) : TrendDirection :=
  if (strategy.len (history s) =? 0)%Z then TrendNeutral
  else indicators.GetTrendDirection
         (strategy.index (history s) (strategy.len (history s) - 1)).

End ema_macd.

(* ===================================================================== *)
(** * Part IV.  Order book-keeping ([package trading])                    *)
(* ===================================================================== *)

Module trading.
Import models.
Local Open Scope float_scope.

Inductive OrderStatus :=
| OrderStatusOpen
| OrderStatusFilled
| OrderStatusCanceled
| OrderStatusClosed.

(** The manager only ever builds [LONG] and [SHORT] orders; the
    [default] arm of [calculatePnL] has no counterpart here. *)
Inductive OrderType :=
| OrderTypeLong
| OrderTypeShort.

Definition isOpen (st : OrderStatus) : bool :=
  match st with OrderStatusOpen => true | _ => false end.

Definition isClosed (st : OrderStatus) : bool :=
  match st with OrderStatusClosed => true | _ => false end.

Record LocalOrder := mkLocalOrder {
  ID : string;
  Symbol : string;
  orderType : OrderType;
  EntryPrice : float;
  ExitPrice : float;
  Quantity : float;
  Status : OrderStatus;
  StopLoss : float;
  TakeProfit : float;
  TrailingStopLoss : float;
  TrailingEnabled : bool;
  TrailingPct : float;
  MaxHoldBars : Z;
  BarsHeld : Z;
  HighestPrice : float;
  LowestPrice : float;
  PnL : float;
  PnLPercent : float;
  TradingFee : float;
  FundingFee : float
}.

Definition set_ID (o : LocalOrder) (v : string) : LocalOrder :=
  mkLocalOrder v (Symbol o) (orderType o) (EntryPrice o) (ExitPrice o)
    (Quantity o) (Status o) (StopLoss o) (TakeProfit o) (TrailingStopLoss o)
    (TrailingEnabled o) (TrailingPct o) (MaxHoldBars o) (BarsHeld o)
    (HighestPrice o) (LowestPrice o) (PnL o) (PnLPercent o) (TradingFee o)
    (FundingFee o).

Definition set_BarsHeld (o : LocalOrder) (v : Z) : LocalOrder :=
  mkLocalOrder (ID o) (Symbol o) (orderType o) (EntryPrice o) (ExitPrice o)
    (Quantity o) (Status o) (StopLoss o) (TakeProfit o) (TrailingStopLoss o)
    (TrailingEnabled o) (TrailingPct o) (MaxHoldBars o) v
    (HighestPrice o) (LowestPrice o) (PnL o) (PnLPercent o) (TradingFee o)
    (FundingFee o).

Definition set_HighestPrice (o : LocalOrder) (v : float) : LocalOrder :=
  mkLocalOrder (ID o) (Symbol o) (orderType o) (EntryPrice o) (ExitPrice o)
    (Quantity o) (Status o) (StopLoss o) (TakeProfit o) (TrailingStopLoss o)
    (TrailingEnabled o) (TrailingPct o) (MaxHoldBars o) (BarsHeld o)
    v (LowestPrice o) (PnL o) (PnLPercent o) (TradingFee o)
    (FundingFee o).

Definition set_LowestPrice (o : LocalOrder) (v : float) : LocalOrder :=
  mkLocalOrder (ID o) (Symbol o) (orderType o) (EntryPrice o) (ExitPrice o)
    (Quantity o) (Status o) (StopLoss o) (TakeProfit o) (TrailingStopLoss o)
    (TrailingEnabled o) (TrailingPct o) (MaxHoldBars o) (BarsHeld o)
    (HighestPrice o) v (PnL o) (PnLPercent o) (TradingFee o)
    (FundingFee o).

Definition set_TrailingEnabled (o : LocalOrder) (v : bool) : LocalOrder :=
  mkLocalOrder (ID o) (Symbol o) (orderType o) (EntryPrice o) (ExitPrice o)
    (Quantity o) (Status o) (StopLoss o) (TakeProfit o) (TrailingStopLoss o)
    v (TrailingPct o) (MaxHoldBars o) (BarsHeld o)
    (HighestPrice o) (LowestPrice o) (PnL o) (PnLPercent o) (TradingFee o)
    (FundingFee o).

Definition set_TrailingStopLoss (o : LocalOrder) (v : float) : LocalOrder :=
  mkLocalOrder (ID o) (Symbol o) (orderType o) (EntryPrice o) (ExitPrice o)
    (Quantity o) (Status o) (StopLoss o) (TakeProfit o) v
    (TrailingEnabled o) (TrailingPct o) (MaxHoldBars o) (BarsHeld o)
    (HighestPrice o) (LowestPrice o) (PnL o) (PnLPercent o) (TradingFee o)
    (FundingFee o).

Definition set_PnL (o : LocalOrder) (v : float) : LocalOrder :=
  mkLocalOrder (ID o) (Symbol o) (orderType o) (EntryPrice o) (ExitPrice o)
    (Quantity o) (Status o) (StopLoss o) (TakeProfit o) (TrailingStopLoss o)
    (TrailingEnabled o) (TrailingPct o) (MaxHoldBars o) (BarsHeld o)
    (HighestPrice o) (LowestPrice o) v (PnLPercent o) (TradingFee o)
    (FundingFee o).

Definition set_PnLPercent (o : LocalOrder) (v : float) : LocalOrder :=
  mkLocalOrder (ID o) (Symbol o) (orderType o) (EntryPrice o) (ExitPrice o)
    (Quantity o) (Status o) (StopLoss o) (TakeProfit o) (TrailingStopLoss o)
    (TrailingEnabled o) (TrailingPct o) (MaxHoldBars o) (BarsHeld o)
    (HighestPrice o) (LowestPrice o) (PnL o) v (TradingFee o)
    (FundingFee o).

(** The four assignments at the head of [CloseOrder]:
    [ExitPrice], [Status = CLOSED], [TradingFee], [FundingFee]. *)
Definition set_exit (o : LocalOrder) (exitPrice tradingFee fundingFee : float)
  : LocalOrder :=
  mkLocalOrder (ID o) (Symbol o) (orderType o) (EntryPrice o) exitPrice
    (Quantity o) OrderStatusClosed (StopLoss o) (TakeProfit o)
    (TrailingStopLoss o) (TrailingEnabled o) (TrailingPct o) (MaxHoldBars o)
    (BarsHeld o) (HighestPrice o) (LowestPrice o) (PnL o) (PnLPercent o)
    tradingFee fundingFee.

(** [orders] maps an ID to its order; every order is reachable under one
    key only, so the pointer the source keeps there is embedded as the
    order itself, written back after each mutation.  [openOrders] is the
    content of the slice of open IDs. *)
Record OrderManager := mkOrderManager {
  orders : gmap string LocalOrder;
  openOrders : list string;
  totalPnL : float
}.

Definition NewOrderManager : OrderManager :=
  mkOrderManager ∅ [] 0.

(** The struct literal of [OpenLong] and [OpenShort]. *)
Definition newOrder (t : OrderType) (orderID symbol : string)
  (entryPrice quantity stopLoss takeProfit : float) : LocalOrder :=
  {| ID := orderID;
     Symbol := symbol;
     orderType := t;
     EntryPrice := entryPrice;
     ExitPrice := 0;
     Quantity := quantity;
     Status := OrderStatusOpen;
     StopLoss := stopLoss;
     TakeProfit := takeProfit;
     TrailingStopLoss := stopLoss;
     TrailingEnabled := false;
     TrailingPct := 0.002;
     MaxHoldBars := 12;
     BarsHeld := 0;
     HighestPrice := entryPrice;
     LowestPrice := entryPrice;
     PnL := 0;
     PnLPercent := 0;
     TradingFee := 0;
     FundingFee := 0 |}.

(** [OpenLong].  [orderID] is what [generateOrderID] returned, a text made
    from the clock: it is an input of the embedding. *)
Definition OpenLong (om : OrderManager) (orderID symbol : string)
  (entryPrice quantity stopLoss takeProfit : float) : OrderManager * string :=
  let order :=
    newOrder OrderTypeLong orderID symbol entryPrice quantity stopLoss
      takeProfit in
  (mkOrderManager (<[orderID := order]> (orders om))
     (openOrders om ++ [orderID]) (totalPnL om), orderID).

Definition OpenShort (om : OrderManager) (orderID symbol : string)
  (entryPrice quantity stopLoss takeProfit : float) : OrderManager * string :=
  let order :=
    newOrder OrderTypeShort orderID symbol entryPrice quantity stopLoss
      takeProfit in
  (mkOrderManager (<[orderID := order]> (orders om))
     (openOrders om ++ [orderID]) (totalPnL om), orderID).

Definition calculatePnL (order : LocalOrder) : float :=
  let pricePnL :=
    match orderType order with
    | OrderTypeLong => (ExitPrice order - EntryPrice order) * Quantity order
    | OrderTypeShort => (EntryPrice order - ExitPrice order) * Quantity order
    end in
  pricePnL - TradingFee order - FundingFee order.

Definition calculatePnLPercent (order : LocalOrder) : float :=
  if EntryPrice order ==. 0 then 0
  else (PnL order / (EntryPrice order * Quantity order)) * 100.

(** The index of the first occurrence of [orderID]. *)
Fixpoint indexOf (l : list string) (orderID : string) : option nat :=
  match l with
  | [] => None
  | id :: l' =>
      if String.eqb id orderID then Some O
      else match indexOf l' orderID with
           | Some i => Some (S i)
           | None => None
           end
  end.

(** [removeOpenOrder]: [append(l[:i], l[i+1:]...)] at the first [i] with
    [l[i] == orderID]. *)
Definition removeOpenOrder (l : list string) (orderID : string)
  : list string :=
  match indexOf l orderID with
  | Some i => take i l ++ drop (S i) l
  | None => l
  end.

Inductive error :=
| ErrNotFound (orderID : string)
| ErrNotOpen (orderID : string).

(** [CloseOrder]: the manager after the call and the error returned. *)
Definition CloseOrder (om : OrderManager) (orderID : string)
  (exitPrice tradingFee fundingFee : float) : OrderManager * option error :=
  match orders om !! orderID with
  | None => (om, Some (ErrNotFound orderID))
  | Some order =>
      if negb (isOpen (Status order)) then (om, Some (ErrNotOpen orderID))
      else
        let order := set_exit order exitPrice tradingFee fundingFee in
        let order := set_PnL order (calculatePnL order) in
        let order := set_PnLPercent order (calculatePnLPercent order) in
        (mkOrderManager (<[orderID := order]> (orders om))
           (removeOpenOrder (openOrders om) orderID)
           (totalPnL om + PnL order), None)
  end.

(** One pass of the body of the loop of [CheckStopLossTakeProfit] over an
    open order, up to the exit test: the counter, the price extremes, the
    activation of the trailing stop and its update. *)
Definition updateOrder (currentPrice : float) (order : LocalOrder)
  : LocalOrder :=
  let order := set_BarsHeld order (int64 (BarsHeld order + 1)) in
  let order :=
    if currentPrice >. HighestPrice order
    then set_HighestPrice order currentPrice else order in
  let order :=
    if currentPrice <. LowestPrice order
    then set_LowestPrice order currentPrice else order in
  let order :=
    if negb (TrailingEnabled order) then
      let profitPct :=
        match orderType order with
        | OrderTypeLong =>
            (currentPrice - EntryPrice order) / EntryPrice order
        | OrderTypeShort =>
            (EntryPrice order - currentPrice) / EntryPrice order
        end in
      let tpPct :=
        match orderType order with
        | OrderTypeLong =>
            (TakeProfit order - EntryPrice order) / EntryPrice order
        | OrderTypeShort =>
            (EntryPrice order - TakeProfit order) / EntryPrice order
        end in
      if profitPct >=. tpPct * 0.5 then
        let order := set_TrailingEnabled order true in
        match orderType order with
        | OrderTypeLong =>
            set_TrailingStopLoss order
              (currentPrice * (1 - TrailingPct order))
        | OrderTypeShort =>
            set_TrailingStopLoss order
              (currentPrice * (1 + TrailingPct order))
        end
      else order
    else order in
  if TrailingEnabled order then
    match orderType order with
    | OrderTypeLong =>
        let newTrailingStop := currentPrice * (1 - TrailingPct order) in
        if newTrailingStop >. TrailingStopLoss order
        then set_TrailingStopLoss order newTrailingStop else order
    | OrderTypeShort =>
        let newTrailingStop := currentPrice * (1 + TrailingPct order) in
        if newTrailingStop <. TrailingStopLoss order
        then set_TrailingStopLoss order newTrailingStop else order
    end
  else order.

(** The arm of the exit test that sets [shouldClose]. *)
Inductive ExitBranch :=
| ExitTakeProfit
| ExitTrailingStop
| ExitStopLoss
| ExitTimeout.

Definition exitBranch (order : LocalOrder) (currentPrice : float)
  : option ExitBranch :=
  match orderType order with
  | OrderTypeLong =>
      if currentPrice >=. TakeProfit order then Some ExitTakeProfit
      else if TrailingEnabled order
              && (currentPrice <=. TrailingStopLoss order)
      then Some ExitTrailingStop
      else if currentPrice <=. StopLoss order then Some ExitStopLoss
      else if (BarsHeld order >=? MaxHoldBars order)%Z then Some ExitTimeout
      else None
  | OrderTypeShort =>
      if currentPrice <=. TakeProfit order then Some ExitTakeProfit
      else if TrailingEnabled order
              && (currentPrice >=. TrailingStopLoss order)
      then Some ExitTrailingStop
      else if currentPrice >=. StopLoss order then Some ExitStopLoss
      else if (BarsHeld order >=? MaxHoldBars order)%Z then Some ExitTimeout
      else None
  end.

Definition shouldClose (order : LocalOrder) (currentPrice : float) : bool :=
  match exitBranch order currentPrice with
  | Some _ => true
  | None => false
  end.

Definition set_orders (om : OrderManager) (m : gmap string LocalOrder)
  : OrderManager :=
  mkOrderManager m (openOrders om) (totalPnL om).

(** What [removeOpenOrder] does to the array under the slice.  [backing]
    is the array, [n] the length of the slice at the call and [i] the index
    removed: the elements after [i] move one place down, the last place of
    the slice keeps its old content. *)
Definition spliceBacking (backing : list string) (n i : nat) : list string :=
  take i backing ++ drop (S i) (take n backing) ++ drop (n - 1) backing.

(** The state of the loop of [CheckStopLossTakeProfit].  The [range]
    statement reads [om.openOrders] once: the loop visits the places
    [0 .. n-1] of the array under that slice, [n] its length at entry,
    while [CloseOrder] rearranges the same array through
    [removeOpenOrder].  [ls_backing] holds these [n] places. *)
Record LoopState := mkLoopState {
  ls_om : OrderManager;
  ls_backing : list string;
  ls_closedOrders : list string
}.

(** One iteration, at index [i]; [None] is the panic of reading a field
    through the nil pointer [om.orders[orderID]] gives for an unknown ID. *)
Definition checkStep (currentPrice : float) (st : LoopState) (i : nat)
  : option LoopState :=
  match ls_backing st !! i with
  | None => None
  | Some orderID =>
      match orders (ls_om st) !! orderID with
      | None => None
      | Some order =>
          if negb (isOpen (Status order)) then Some st
          else
            let order := updateOrder currentPrice order in
            let om := set_orders (ls_om st)
                        (<[orderID := order]> (orders (ls_om st))) in
            if shouldClose order currentPrice then
              let backing :=
                match indexOf (openOrders om) orderID with
                | Some j =>
                    spliceBacking (ls_backing st) (length (openOrders om)) j
                | None => ls_backing st
                end in
              let om := fst (CloseOrder om orderID currentPrice 0 0) in
              Some (mkLoopState om backing (ls_closedOrders st ++ [orderID]))
            else Some (mkLoopState om (ls_backing st) (ls_closedOrders st))
      end
  end.

Fixpoint checkLoop (currentPrice : float) (st : LoopState)
  (idxs : list nat) : option LoopState :=
  match idxs with
  | [] => Some st
  | i :: idxs' =>
      match checkStep currentPrice st i with
      | None => None
      | Some st' => checkLoop currentPrice st' idxs'
      end
  end.

(** [CheckStopLossTakeProfit]: the manager after the call and the IDs
    returned, or [None] when the call panics. *)
Definition CheckStopLossTakeProfit (om : OrderManager) (currentPrice : float)
  : option (OrderManager * list string) :=
  match checkLoop currentPrice (mkLoopState om (openOrders om) [])
          (seq 0 (length (openOrders om))) with
  | None => None
  | Some st => Some (ls_om st, ls_closedOrders st)
  end.

Definition GetOrder (om : OrderManager) (orderID : string)
  : option LocalOrder :=
  orders om !! orderID.

(** The first occurrence of [oldID] becomes [newID]. *)
Fixpoint renameFirst (l : list string) (oldID newID : string) : list string :=
  match l with
  | [] => []
  | id :: l' =>
      if String.eqb id oldID then newID :: l'
      else id :: renameFirst l' oldID newID
  end.

Definition UpdateOrderID (om : OrderManager) (oldID newID : string)
  : OrderManager :=
  match orders om !! oldID with
  | None => om
  | Some order =>
      let order := set_ID order newID in
      mkOrderManager (delete oldID (<[newID := order]> (orders om)))
        (renameFirst (openOrders om) oldID newID) (totalPnL om)
  end.

(** [calculateDelta] of the trading system.  Of the system's state only
    [deltaHistory] is touched; [historicalKlines] is not read. *)
Definition calculateDelta (deltaHistory : list Delta) (currentKline : KLine)
  (historicalKlines : list KLine) : list Delta * Delta :=
  let body := Close currentKline - Open currentKline in
  let totalRange := High currentKline - Low currentKline in
  let '(buyVolume, sellVolume) :=
    if totalRange >. 0 then
      let upperPortion := (Close currentKline - Low currentKline) / totalRange in
      if body >. 0
      then (Volume currentKline * (0.5 + upperPortion * 0.3),
            Volume currentKline * (0.5 - upperPortion * 0.3))
      else (Volume currentKline * (0.5 - upperPortion * 0.3),
            Volume currentKline * (0.5 + upperPortion * 0.3))
    else (Volume currentKline * 0.5, Volume currentKline * 0.5) in
  let delta := mkDelta (buyVolume - sellVolume) buyVolume sellVolume in
  (strategy.appendBounded 100 deltaHistory delta, delta).

(** [GetOpenOrders]: the orders the open IDs name, those found with status
    [OPEN], in the order of the list. *)
Definition GetOpenOrders (om : OrderManager) : list LocalOrder :=
  fold_left
    (fun openOrders orderID =>
       match orders om !! orderID with
       | Some order =>
           if isOpen (Status order) then openOrders ++ [order]
           else openOrders
       | None => openOrders
       end)
    (openOrders om) [].

(** [for _, order := range om.orders]: Go visits the keys of a map in an
    order it does not fix.  [visit] is the order of one such loop: the
    keys of the map, each once. *)
Definition rangeOf (om : OrderManager) (visit : list string) : Prop :=
  visit ≡ₚ (map_to_list (orders om)).*1.

(** [GetClosedOrders], for a loop over the map in the order [visit]. *)
Definition GetClosedOrders (om : OrderManager) (visit : list string)
  : list LocalOrder :=
  fold_left
    (fun closedOrders orderID =>
       match orders om !! orderID with
       | Some order =>
           if isClosed (Status order) then closedOrders ++ [order]
           else closedOrders
       | None => closedOrders
       end)
    visit [].

Definition GetTotalPnL (om : OrderManager) : float := totalPnL om.

(** ** The trading system: configuration and statistics *)

(** [Config], without the fields of the monitor and of the notifier
    ([MaxTradingSymbols], [TelegramBotToken], [TelegramChatID]).  Its
    fields carry the prefix [cfg]: [Symbol] is a field of [LocalOrder]. *)
Record Config := mkConfig {
  cfgSymbol : string;
  cfgInterval : string;
  cfgQuantity : float;
  cfgStopLossPct : float;
  cfgTakeProfitPct : float;
  cfgLeverage : Z;
  cfgMaxPosPct : float
}.

(** [TradingSystem], without the API client and the notifier. *)
Record TradingSystem := mkTradingSystem {
  tsStrategy : strategy.PatternVolumeDeltaStrategy;
  orderManager : OrderManager;
  calculator : indicators.Calculator;
  symbol : string;
  interval : string;
  quantity : float;
  stopLossPct : float;
  takeProfitPct : float;
  leverage : Z;
  maxPosPct : float;
  deltaHistory : list Delta
}.

Definition NewTradingSystem (config : Config) : TradingSystem :=
  let leverage :=
    if (cfgLeverage config <=? 0)%Z then 1%Z else cfgLeverage config in
  let maxPosPct :=
    if cfgMaxPosPct config <=. 0 then 0.02 else cfgMaxPosPct config in
  {| tsStrategy := strategy.NewPatternVolumeDeltaStrategy;
     orderManager := NewOrderManager;
     calculator := indicators.NewCalculator 30;
     symbol := cfgSymbol config;
     interval := cfgInterval config;
     quantity := cfgQuantity config;
     stopLossPct := cfgStopLossPct config;
     takeProfitPct := cfgTakeProfitPct config;
     leverage := leverage;
     maxPosPct := maxPosPct;
     deltaHistory := [] |}.

(** [time.Duration] counts nanoseconds. *)
Definition Second : Z := 1000000000.
Definition Minute : Z := 60 * Second.
Definition Hour : Z := 60 * Minute.

Definition getIntervalDuration (ts : TradingSystem) : Z :=
  if String.eqb (interval ts) "1m" then Minute
  else if String.eqb (interval ts) "5m" then 5 * Minute
  else if String.eqb (interval ts) "15m" then 15 * Minute
  else if String.eqb (interval ts) "1h" then Hour
  else if String.eqb (interval ts) "4h" then 4 * Hour
  else if String.eqb (interval ts) "1d" then 24 * Hour
  else 5 * Minute.

Definition getIntervalSeconds (ts : TradingSystem) : Z :=
  if String.eqb (interval ts) "1m" then 60
  else if String.eqb (interval ts) "5m" then 300
  else if String.eqb (interval ts) "15m" then 900
  else if String.eqb (interval ts) "1h" then 3600
  else if String.eqb (interval ts) "4h" then 14400
  else if String.eqb (interval ts) "1d" then 86400
  else 300.

(** Go's [strings.HasSuffix]. *)
Definition HasSuffix (s suffix : string) : bool :=
  (String.length suffix <=? String.length s)%nat
  && String.eqb
       (String.substring (String.length s - String.length suffix)
          (String.length suffix) s)
       suffix.

Definition getFuturesSymbol (ts : TradingSystem) : string :=
  if HasSuffix (symbol ts) "_PERP" then symbol ts
  else (symbol ts ++ "_PERP")%string.

Record PerformanceStats := mkPerformanceStats {
  TotalOrders : Z;
  ClosedOrders : Z;
  OpenOrders : Z;
  TotalPnL : float;
  WinRate : float;
  AverageWin : float;
  AverageLoss : float
}.

Definition calculateWinRate (orders : list LocalOrder) : float :=
  if (strategy.len orders =? 0)%Z then 0
  else
    let winCount :=
      fold_left
        (fun winCount order =>
           if PnL order >. 0 then int64 (winCount + 1) else winCount)
        orders 0%Z in
    float64_of_int winCount / float64_of_int (strategy.len orders) * 100.

Definition calculateAverageWin (orders : list LocalOrder) : float :=
  let winOrders :=
    fold_left
      (fun winOrders order =>
         if PnL order >. 0 then winOrders ++ [order] else winOrders)
      orders [] in
  if (strategy.len winOrders =? 0)%Z then 0
  else
    let totalWin :=
      fold_left (fun totalWin order => totalWin + PnL order) winOrders 0 in
    totalWin / float64_of_int (strategy.len winOrders).

Definition calculateAverageLoss (orders : list LocalOrder) : float :=
  let lossOrders :=
    fold_left
      (fun lossOrders order =>
         if PnL order <. 0 then lossOrders ++ [order] else lossOrders)
      orders [] in
  if (strategy.len lossOrders =? 0)%Z then 0
  else
    let totalLoss :=
      fold_left (fun totalLoss order => totalLoss + PnL order) lossOrders 0 in
    totalLoss / float64_of_int (strategy.len lossOrders).

(** [GetPerformance], [visit] being the order in which [GetClosedOrders]
    goes through the map. *)
Definition GetPerformance (ts : TradingSystem) (visit : list string)
  : PerformanceStats :=
  let closedOrders := GetClosedOrders (orderManager ts) visit in
  let openOrders := GetOpenOrders (orderManager ts) in
  let totalPnL := GetTotalPnL (orderManager ts) in
  {| TotalOrders :=
       int64 (strategy.len closedOrders + strategy.len openOrders);
     ClosedOrders := strategy.len closedOrders;
     OpenOrders := strategy.len openOrders;
     TotalPnL := totalPnL;
     WinRate := calculateWinRate closedOrders;
     AverageWin := calculateAverageWin closedOrders;
     AverageLoss := calculateAverageLoss closedOrders |}.

End trading.

(* ===================================================================== *)
(** * Part V.  Vocabulary of the specification                            *)
(* ===================================================================== *)

Module spec.
Import models strategy.
Local Open Scope float_scope.

(** The bars before the current one: all of the history but its last
    entry. *)
Definition priorBars (s : PatternVolumeDeltaStrategy) : list MarketData :=
  take (length (history s) - 1) (history s).

(** The last [k] entries of a list. *)
Definition lastN {A : Type} (k : nat) (l : list A) : list A :=
  drop (length l - k) l.

(** The sum of the volumes, added up from the oldest bar on. *)
Definition sumVolumes (bars : list MarketData) : float :=
  fold_left (fun acc b => acc + Volume (mdKLine b)) bars 0.

(** The volume window: the [min(V_LOOKBACK, available)] bars right before
    the current one. *)
Definition volumeWindow (s : PatternVolumeDeltaStrategy) : list MarketData :=
  lastN (Nat.min (Z.to_nat (vLookback s)) (length (priorBars s)))
    (priorBars s).

(** Average volume of the window times [V_MULT]. *)
Definition volumeBound (s : PatternVolumeDeltaStrategy) : float :=
  sumVolumes (volumeWindow s)
  / float64_of_int (Z.of_nat (length (volumeWindow s)))
  * vMult s.

(** The mean of the absolute values of the samples, added up from the
    oldest on, times [D_MULT]. *)
Definition meanAbsBound (samples : list float) (mult : float) : float :=
  fold_left (fun acc d => acc + math.Abs d) samples 0
  / float64_of_int (Z.of_nat (length samples))
  * mult.

(** The highest high of some bars. *)
Definition highestHigh (bars : list MarketData) : float :=
  fold_right (fun b m => if High (mdKLine b) >. m then High (mdKLine b) else m)
    neg_infinity bars.

(** The upward breakout in the words of the specification: the close is
    strictly above the highest high of the [bLookback] bars before the
    current one, and the volume is not zero. *)
Definition breakoutBars (s : PatternVolumeDeltaStrategy) : list MarketData :=
  lastN (Z.to_nat (bLookback s)) (priorBars s).

Definition breakoutLong (s : PatternVolumeDeltaStrategy)
  (current : MarketData) : bool :=
  (Close (mdKLine current) >. highestHigh (breakoutBars s))
  && negb (Volume (mdKLine current) ==. 0).

(** A bar as the data model wants it:
    [High >= max(open, close) >= min(open, close) >= Low]. *)
Definition validBar (k : KLine) : bool :=
  (Low k <=. Open k) && (Open k <=. High k)
  && (Low k <=. Close k) && (Close k <=. High k).

(** The directions a detector may answer. *)
Definition entryOrNone (d : SignalType) : Prop :=
  d = SignalNone \/ d = SignalLongEntry \/ d = SignalShortEntry.

End spec.

(** The vocabulary of the position lifecycle. *)
Module lifecycle.
Import models trading.
Local Open Scope float_scope.

(** [a] is [b] or strictly below [b]: from [a] to [b] a price does not
    fall.  For numbers this is [a <= b]; a NaN is related to itself only. *)
Definition noHigher (a b : float) : Prop := a = b \/ (a <. b) = true.

(** One price update after the other: [CheckStopLossTakeProfit] for each
    price in turn; [None] when one of the calls panics. *)
Fixpoint priceUpdates (om : OrderManager) (prices : list float)
  : option OrderManager :=
  match prices with
  | [] => Some om
  | p :: ps =>
      match CheckStopLossTakeProfit om p with
      | None => None
      | Some (om', _) => priceUpdates om' ps
      end
  end.

(** From [order] to [order'] the trailing stop has only tightened: the
    side is the same and, if the trailing stop was enabled, it still is and
    its price has not fallen (long) or not risen (short). *)
Definition ratchets (order order' : LocalOrder) : Prop :=
  orderType order' = orderType order /\
  (TrailingEnabled order = true ->
     TrailingEnabled order' = true /\
     match orderType order with
     | OrderTypeLong =>
         noHigher (TrailingStopLoss order) (TrailingStopLoss order')
     | OrderTypeShort =>
         noHigher (TrailingStopLoss order') (TrailingStopLoss order)
     end).

(** An order as the manager keeps them: the trailing distance is the
    0.2 % of [OpenLong] and [OpenShort], and a trailing stop that is
    enabled is a number. *)
Definition soundTrailing (order : LocalOrder) : Prop :=
  TrailingPct order = 0.002 /\
  (TrailingEnabled order = true ->
   F64.IsNaN (TrailingStopLoss order) = false).

Definition allSound (om : OrderManager) : Prop :=
  forall orderID order,
    orders om !! orderID = Some order -> soundTrailing order.

(** The calls a client of the manager can make. *)
Inductive Op :=
| OpOpenLong (orderID symbol : string)
    (entryPrice quantity stopLoss takeProfit : float)
| OpOpenShort (orderID symbol : string)
    (entryPrice quantity stopLoss takeProfit : float)
| OpCloseOrder (orderID : string) (exitPrice tradingFee fundingFee : float)
| OpUpdateOrderID (oldID newID : string)
| OpCheck (currentPrice : float).

Definition applyOp (om : OrderManager) (op : Op) : option OrderManager :=
  match op with
  | OpOpenLong orderID symbol entryPrice quantity stopLoss takeProfit =>
      Some (fst (OpenLong om orderID symbol entryPrice quantity stopLoss
                   takeProfit))
  | OpOpenShort orderID symbol entryPrice quantity stopLoss takeProfit =>
      Some (fst (OpenShort om orderID symbol entryPrice quantity stopLoss
                   takeProfit))
  | OpCloseOrder orderID exitPrice tradingFee fundingFee =>
      Some (fst (CloseOrder om orderID exitPrice tradingFee fundingFee))
  | OpUpdateOrderID oldID newID => Some (UpdateOrderID om oldID newID)
  | OpCheck currentPrice =>
      match CheckStopLossTakeProfit om currentPrice with
      | None => None
      | Some (om', _) => Some om'
      end
  end.

Fixpoint run (om : OrderManager) (ops : list Op) : option OrderManager :=
  match ops with
  | [] => Some om
  | op :: ops' =>
      match applyOp om op with
      | None => None
      | Some om' => run om' ops'
      end
  end.

(** The ID a call brings in is new: what [generateOrderID] returned is not
    a key of the map yet, and neither is the new ID of an [UpdateOrderID]
    that finds its old ID. *)
Definition freshOp (om : OrderManager) (op : Op) : Prop :=
  match op with
  | OpOpenLong orderID _ _ _ _ _ => orders om !! orderID = None
  | OpOpenShort orderID _ _ _ _ _ => orders om !! orderID = None
  | OpUpdateOrderID oldID newID =>
      is_Some (orders om !! oldID) -> orders om !! newID = None
  | _ => True
  end.

Fixpoint freshRun (om : OrderManager) (ops : list Op) : Prop :=
  match ops with
  | [] => True
  | op :: ops' =>
      freshOp om op /\
      match applyOp om op with
      | None => True
      | Some om' => freshRun om' ops'
      end
  end.

Definition pnlOf (om : OrderManager) (orderID : string) : float :=
  match orders om !! orderID with
  | Some order => PnL order
  | None => 0
  end.

(** The PnL of the orders [ids], added up from the left. *)
Definition sumPnL (om : OrderManager) (ids : list string) : float :=
  fold_left (fun acc orderID => acc + pnlOf om orderID) ids 0.

Definition hasStatus (om : OrderManager) (st : OrderStatus)
  (orderID : string) : Prop :=
  exists order, orders om !! orderID = Some order /\ Status order = st.

(** The books agree: the list of open IDs has no repetition and holds just
    the IDs of the orders that are open, and the total PnL is the sum of
    the PnL of the closed orders, each counted once (added up in the
    sequence [closedSeq], the sequence in which they were closed). *)
Record Consistent (om : OrderManager) : Prop := mkConsistent {
  open_NoDup : NoDup (openOrders om);
  open_exact :
    forall orderID,
      orderID ∈ openOrders om <-> hasStatus om OrderStatusOpen orderID;
  total_is_sum :
    exists closedSeq,
      NoDup closedSeq /\
      (forall orderID,
         orderID ∈ closedSeq <-> hasStatus om OrderStatusClosed orderID) /\
      totalPnL om = sumPnL om closedSeq
}.

(** What holds between two iterations: the books agree, the array has its
    [n0] places, each of them names an order of the map, and the slice of
    open IDs is the head of the array. *)
Definition LoopInv (n0 : nat) (st : LoopState) : Prop :=
  Consistent (ls_om st) /\
  length (ls_backing st) = n0 /\
  (forall x, x ∈ ls_backing st -> is_Some (orders (ls_om st) !! x)) /\
  openOrders (ls_om st)
  = take (length (openOrders (ls_om st))) (ls_backing st).

(** ** Vocabulary of the further properties *)

(** The loop body of [CheckStopLossTakeProfit] on one open order: the
    update, then the exit test and, when it says so, [CloseOrder] at the
    price with no fees. *)
Definition visitOrder (p : float) (om : OrderManager) (orderID : string)
  (order : LocalOrder) : OrderManager :=
  let om1 := set_orders om (<[orderID := updateOrder p order]> (orders om)) in
  if shouldClose (updateOrder p order) p
  then fst (CloseOrder om1 orderID p 0 0) else om1.

(** What the loop of [CheckStopLossTakeProfit] has reported so far, [om0]
    being the manager at the call: the IDs in [closedOrders] are those of
    the orders it closed, at the price [p] and with no fees; they are gone
    from the open list and nothing else is; an order that was not open is
    as it was; the total PnL has grown by the PnL of the closed orders. *)
Definition Reported (om0 : OrderManager) (p : float) (st : LoopState) : Prop :=
  NoDup (ls_closedOrders st) /\
  openOrders (ls_om st)
  = filter (fun x => x ∉ ls_closedOrders st) (openOrders om0) /\
  (forall orderID,
     orderID ∈ ls_closedOrders st ->
     hasStatus om0 OrderStatusOpen orderID /\
     exists order,
       orders (ls_om st) !! orderID = Some order /\
       Status order = OrderStatusClosed /\ ExitPrice order = p /\
       TradingFee order = 0 /\ FundingFee order = 0 /\
       PnL order = calculatePnL order) /\
  (forall orderID order,
     orders om0 !! orderID = Some order ->
     Status order <> OrderStatusOpen ->
     orders (ls_om st) !! orderID = Some order) /\
  (forall orderID,
     hasStatus (ls_om st) OrderStatusOpen orderID ->
     hasStatus om0 OrderStatusOpen orderID) /\
  totalPnL (ls_om st)
  = fold_left (fun acc orderID => acc + pnlOf (ls_om st) orderID)
      (ls_closedOrders st) (totalPnL om0).

(** An order as the manager keeps it with respect to the holding time: the
    limit is the 12 bars of [OpenLong] and [OpenShort], the status is
    [OPEN] or [CLOSED], and the counter of an open order is below the
    limit. *)
Definition withinHold (order : LocalOrder) : Prop :=
  MaxHoldBars order = 12%Z /\
  (Status order = OrderStatusOpen \/ Status order = OrderStatusClosed) /\
  (Status order = OrderStatusOpen -> (0 <= BarsHeld order < 12)%Z).

Definition allWithinHold (om : OrderManager) : Prop :=
  forall orderID order,
    orders om !! orderID = Some order -> withinHold order.

(** Every order is kept under its own ID. *)
Definition keyedByID (om : OrderManager) : Prop :=
  forall orderID order, orders om !! orderID = Some order -> ID order = orderID.

(** The order [orderID] names, when the map holds one whose status
    [keep] accepts. *)
Definition select (om : OrderManager) (keep : OrderStatus -> bool)
  (orderID : string) : option LocalOrder :=
  match orders om !! orderID with
  | Some order => if keep (Status order) then Some order else None
  | None => None
  end.

End lifecycle.

(** Concrete snapshots and states the examples below run the code on. *)
Module fixtures.
Import models strategy.
Local Open Scope float_scope.

(** A snapshot from its open, high, low, close, volume and 30-period EMA. *)
Definition bar (o h l c v ema : float) : MarketData :=
  mkMarketData (mkKLine o h l c v 0) (mkIndicators 0 ema 0 0 0 0 0 0 0).

Definition sample (v : float) : Delta := mkDelta v 0 0.

(** [Analyze] called on each input in turn. *)
Definition feed (s : PatternVolumeDeltaStrategy)
  (inputs : list (MarketData * Delta))
  : PatternVolumeDeltaStrategy * SignalType :=
  fold_left (fun st x => Analyze (fst st) (fst x) (snd x)) inputs
    (s, SignalNone).

(** A quiet bar, a rising full-body bar, and the same with less volume. *)
Definition quiet : MarketData * Delta := (bar 10 10.5 9.5 10 1 10, sample 1).
Definition rising : MarketData * Delta := (bar 10 11 10 11 2 10.5, sample 5).
Definition risingThin : MarketData * Delta :=
  (bar 10 11 10 11 1.25 10.5, sample 5).

(** The strategy after nine quiet bars. *)
Definition nineBars : PatternVolumeDeltaStrategy :=
  fst (feed NewPatternVolumeDeltaStrategy (repeat quiet 9)).

(** Five bars between 8 and 10, then a bar that closes at 11. *)
Definition rangeBar : MarketData * Delta := (bar 9 10 8 9 1 9, sample 1).
Definition breakoutBar : MarketData * Delta :=
  (bar 10.5 12 10.4 11 5 10, sample 5).
Definition afterBreakout : PatternVolumeDeltaStrategy :=
  fst (feed NewPatternVolumeDeltaStrategy (repeat rangeBar 5 ++ [breakoutBar])).

(** Three long positions entered at 100 with stop-loss 99.75; the first
    two take profit at 100.6, the third at 200. *)
Definition threeLongs : trading.OrderManager :=
  let om := fst (trading.OpenLong trading.NewOrderManager "a" "BTC"
                   100 1 99.75 100.6) in
  let om := fst (trading.OpenLong om "b" "BTC" 100 1 99.75 100.6) in
  fst (trading.OpenLong om "c" "BTC" 100 1 99.75 200).

(** A manager holding one such position, and the same after a price
    update at 100.4, which enables the trailing stop. *)
Definition oneLong : trading.OrderManager :=
  fst (trading.OpenLong trading.NewOrderManager "a" "BTC" 100 1 99.75 100.6).

Definition oneLongTrailing : trading.OrderManager :=
  match trading.CheckStopLossTakeProfit oneLong 100.4 with
  | Some (om, _) => om
  | None => oneLong
  end.

(** A long position entered at 100, stop-loss 0.25 %, take-profit 0.6 %. *)
Definition longAt100 : trading.LocalOrder :=
  trading.newOrder trading.OrderTypeLong "a" "BTC" 100 1 99.75 100.6.

End fixtures.

(* ===================================================================== *)
(** * Part VI.  Facts about binary64 comparisons                          *)
(* ===================================================================== *)

Section FloatOrder.
Import F64.

Lemma lex3_Lt (a1 a2 a3 b1 b2 b3 : Z) :
  lex3 (a1, a2, a3) (b1, b2, b3) = Lt <->
  (a1 < b1 \/ (a1 = b1 /\ (a2 < b2 \/ (a2 = b2 /\ a3 < b3))))%Z.
Proof.
  unfold lex3.
  destruct (Z.compare_spec a1 b1); destruct (Z.compare_spec a2 b2);
    destruct (Z.compare_spec a3 b3); split; intros;
    try discriminate; try lia; auto.
Qed.

Lemma lex3_Eq (a1 a2 a3 b1 b2 b3 : Z) :
  lex3 (a1, a2, a3) (b1, b2, b3) = Eq <-> (a1 = b1 /\ a2 = b2 /\ a3 = b3)%Z.
Proof.
  unfold lex3.
  destruct (Z.compare_spec a1 b1); destruct (Z.compare_spec a2 b2);
    destruct (Z.compare_spec a3 b3); split; intros;
    try discriminate; try lia; auto.
Qed.

Lemma lex3_Gt (a1 a2 a3 b1 b2 b3 : Z) :
  lex3 (a1, a2, a3) (b1, b2, b3) = Gt <->
  (b1 < a1 \/ (a1 = b1 /\ (b2 < a2 \/ (a2 = b2 /\ b3 < a3))))%Z.
Proof.
  unfold lex3.
  destruct (Z.compare_spec a1 b1); destruct (Z.compare_spec a2 b2);
    destruct (Z.compare_spec a3 b3); split; intros;
    try discriminate; try lia; auto.
Qed.

(** [SFcompare] is the lexicographic comparison of the keys. *)
Lemma SFcompare_key (f1 f2 : spec_float) :
  SFcompare f1 f2 =
  match key f1, key f2 with
  | Some a, Some b => Some (lex3 a b)
  | _, _ => None
  end.
Proof.
  destruct f1 as [s1|s1| |s1 m1 e1], f2 as [s2|s2| |s2 m2 e2];
    try destruct s1; try destruct s2; simpl; try reflexivity.
  rewrite Z.compare_opp, (Z.compare_antisym e1 e2).
  destruct (e1 ?= e2)%Z; reflexivity.
Qed.

Lemma ltb_key (x y : float) :
  PrimFloat.ltb x y =
  match fkey x, fkey y with
  | Some a, Some b => match lex3 a b with Lt => true | _ => false end
  | _, _ => false
  end.
Proof.
  rewrite FloatAxioms.ltb_spec. unfold SFltb, fkey. rewrite SFcompare_key.
  destruct (key (Prim2SF x)), (key (Prim2SF y)); reflexivity.
Qed.

Lemma leb_key (x y : float) :
  PrimFloat.leb x y =
  match fkey x, fkey y with
  | Some a, Some b => match lex3 a b with Gt => false | _ => true end
  | _, _ => false
  end.
Proof.
  rewrite FloatAxioms.leb_spec. unfold SFleb, fkey. rewrite SFcompare_key.
  destruct (key (Prim2SF x)), (key (Prim2SF y)); reflexivity.
Qed.

Lemma eqb_key (x y : float) :
  PrimFloat.eqb x y =
  match fkey x, fkey y with
  | Some a, Some b => match lex3 a b with Eq => true | _ => false end
  | _, _ => false
  end.
Proof.
  rewrite FloatAxioms.eqb_spec. unfold SFeqb, fkey. rewrite SFcompare_key.
  destruct (key (Prim2SF x)), (key (Prim2SF y)); reflexivity.
Qed.

End FloatOrder.

(** Goals made of comparisons of floats, decided through the keys. *)
Ltac fkeys :=
  unfold F64.gt, F64.ge, F64.lt, F64.le, F64.eq, F64.IsNaN in *;
  rewrite ?ltb_key, ?leb_key, ?eqb_key in *;
  repeat match goal with
    | H : context [F64.fkey ?x] |- _ =>
        destruct (F64.fkey x) as [[[? ?] ?]|]
    | |- context [F64.fkey ?x] =>
        destruct (F64.fkey x) as [[[? ?] ?]|]
    end;
  repeat match goal with
    | H : context [F64.lex3 ?a ?b] |- _ =>
        let c := fresh "c" in
        destruct (F64.lex3 a b) eqn:c;
        [ apply lex3_Eq in c | apply lex3_Lt in c | apply lex3_Gt in c ]
    | |- context [F64.lex3 ?a ?b] =>
        let c := fresh "c" in
        destruct (F64.lex3 a b) eqn:c;
        [ apply lex3_Eq in c | apply lex3_Lt in c | apply lex3_Gt in c ]
    end;
  simpl in *; try discriminate; try reflexivity; try lia.

Lemma f64_lt_le (x y : float) : (x <. y) = true -> (x <=. y) = true.
Proof. intros. fkeys. Qed.

Lemma f64_le_not_gt (x y : float) : (x <=. y) = true -> (x >. y) = false.
Proof. intros. fkeys. Qed.

Lemma f64_lt_trans (x y z : float) :
  (x <. y) = true -> (y <. z) = true -> (x <. z) = true.
Proof. intros. fkeys. Qed.

Lemma f64_le_trans (x y z : float) :
  (x <=. y) = true -> (y <=. z) = true -> (x <=. z) = true.
Proof. intros. fkeys. Qed.

Lemma f64_le_lt_trans (x y z : float) :
  (x <=. y) = true -> (y <. z) = true -> (x <. z) = true.
Proof. intros. fkeys. Qed.

Lemma f64_le_refl (x : float) : F64.IsNaN x = false -> (x <=. x) = true.
Proof. intros. fkeys. Qed.

Lemma f64_le_antisym (x y : float) :
  (x <=. y) = true -> (y <=. x) = true -> (x ==. y) = true.
Proof. intros. fkeys. Qed.

Lemma f64_eq_le (x y : float) : (x ==. y) = true -> (x <=. y) = true.
Proof. intros. fkeys. Qed.

Lemma f64_eq_ge (x y : float) : (x ==. y) = true -> (x >=. y) = true.
Proof. intros. fkeys. Qed.

Lemma f64_gt_not_eq (x y : float) : (x >. y) = true -> (x ==. y) = false.
Proof. intros. fkeys. Qed.

(** ** Not-a-number *)

Section NotANumber.
Import F64.
Local Open Scope float_scope.

Lemma IsNaN_false_iff (x : float) :
  IsNaN x = false <-> Prim2SF x <> S754_nan.
Proof.
  unfold IsNaN. rewrite eqb_key. unfold fkey.
  destruct (Prim2SF x) as [s|s| |s m e]; simpl.
  - split; [discriminate | reflexivity].
  - destruct s; simpl; (split; [discriminate | reflexivity]).
  - split; [discriminate | congruence].
  - assert (H : forall a, lex3 a a = Eq).
    { intros [[a b] c]. apply lex3_Eq. auto. }
    destruct s; rewrite H; simpl; (split; [discriminate | reflexivity]).
Qed.

Lemma shr_1_nonneg (mrs : shr_record) :
  (0 <= shr_m mrs)%Z -> (0 <= shr_m (shr_1 mrs))%Z.
Proof.
  destruct mrs as [m r s]. simpl.
  destruct m as [|p|p]; try destruct p; simpl; lia.
Qed.

Lemma iter_pos_nonneg (n : positive) :
  forall mrs, (0 <= shr_m mrs)%Z -> (0 <= shr_m (SpecFloat.iter_pos shr_1 n mrs))%Z.
Proof.
  induction n as [n IH|n IH|]; intros mrs H; simpl.
  - apply IH, IH, shr_1_nonneg, H.
  - apply IH, IH, H.
  - apply shr_1_nonneg, H.
Qed.

Lemma shr_fexp_nonneg (prec emax m e : Z) (l : location) :
  (0 <= m)%Z -> (0 <= shr_m (fst (shr_fexp prec emax m e l)))%Z.
Proof.
  intros H. unfold shr_fexp, shr.
  assert (H0 : (0 <= shr_m (shr_record_of_loc m l))%Z)
    by (destruct l as [|[]]; exact H).
  destruct (fexp prec emax (Zdigits2 m + e) - e)%Z; simpl;
    [exact H0 | apply iter_pos_nonneg; exact H0 | exact H0].
Qed.

Lemma round_nearest_even_nonneg (m : Z) (l : location) :
  (0 <= m)%Z -> (0 <= round_nearest_even m l)%Z.
Proof.
  intros H. destruct l as [|[]]; simpl; try lia.
  destruct (Z.even m); lia.
Qed.

(** Rounding a non-negative mantissa never gives NaN. *)
Lemma binary_round_aux_not_nan (prec emax : Z) (sx : bool) (mx ex : Z)
  (lx : location) :
  (0 <= mx)%Z -> binary_round_aux prec emax sx mx ex lx <> S754_nan.
Proof.
  intros H. unfold binary_round_aux.
  pose proof (shr_fexp_nonneg prec emax mx ex lx H) as H1.
  destruct (shr_fexp prec emax mx ex lx) as [mrs' e']. simpl in H1.
  pose proof (shr_fexp_nonneg prec emax _ e' loc_Exact
                (round_nearest_even_nonneg _ (loc_of_shr_record mrs') H1))
    as H2.
  destruct (shr_fexp prec emax _ e' loc_Exact) as [mrs'' e'']. simpl in H2.
  destruct (shr_m mrs'') as [|p|p]; [discriminate | | lia].
  destruct (e'' <=? emax - prec)%Z; discriminate.
Qed.

(** The product of a number and a finite constant is a number. *)
Lemma mul_finite_not_nan (x c : float) (s : bool) (m : positive) (e : Z) :
  Prim2SF c = S754_finite s m e ->
  IsNaN x = false -> IsNaN (x * c) = false.
Proof.
  intros Hc Hx. apply IsNaN_false_iff in Hx. apply IsNaN_false_iff.
  rewrite mul_spec, Hc. unfold SF64mul.
  destruct (Prim2SF x) as [sx|sx| |sx mx ex]; simpl;
    [discriminate | discriminate | congruence |].
  apply binary_round_aux_not_nan. lia.
Qed.

Lemma sub_nan_l (y : float) : nan - y = nan.
Proof.
  rewrite <- (SF2Prim_Prim2SF (nan - y)), sub_spec.
  change (Prim2SF nan) with S754_nan. reflexivity.
Qed.

Lemma sub_nan_r (x : float) : x - nan = nan.
Proof.
  rewrite <- (SF2Prim_Prim2SF (x - nan)), sub_spec.
  change (Prim2SF nan) with S754_nan.
  destruct (Prim2SF x); reflexivity.
Qed.

Lemma div_nan_l (y : float) : nan / y = nan.
Proof.
  rewrite <- (SF2Prim_Prim2SF (nan / y)), div_spec.
  change (Prim2SF nan) with S754_nan. reflexivity.
Qed.

Lemma IsNaN_true (x : float) : IsNaN x = true -> x = nan.
Proof.
  intros H. destruct (Prim2SF x) eqn:E.
  - assert (IsNaN x = false) by (apply IsNaN_false_iff; congruence).
    congruence.
  - assert (IsNaN x = false) by (apply IsNaN_false_iff; congruence).
    congruence.
  - rewrite <- (SF2Prim_Prim2SF x), E. reflexivity.
  - assert (IsNaN x = false) by (apply IsNaN_false_iff; congruence).
    congruence.
Qed.

Lemma ge_nan_l (x : float) : (nan >=. x) = false.
Proof.
  unfold ge. rewrite leb_key. change (fkey nan) with (@None (Z * Z * Z)).
  destruct (fkey x); reflexivity.
Qed.

Lemma gt_number_l (x y : float) : (x >. y) = true -> IsNaN x = false.
Proof. intros. fkeys. Qed.

Lemma lt_number_l (x y : float) : (x <. y) = true -> IsNaN x = false.
Proof. intros. fkeys. Qed.

End NotANumber.

(* ===================================================================== *)
(** * Part VII.  The signal fusion engine                                 *)
(* ===================================================================== *)

Section FusionOrder.
Import models strategy spec fixtures.
Local Open Scope float_scope.

Lemma isNone_true (p : Pattern) : isNone p = true <-> Direction p = SignalNone.
Proof. unfold isNone. destruct (Direction p); simpl; split; congruence. Qed.

Lemma isNone_false (p : Pattern) :
  isNone p = false <-> Direction p <> SignalNone.
Proof. unfold isNone. destruct (Direction p); simpl; split; congruence. Qed.

(** Every detector answers none, long-entry or short-entry. *)
Lemma detectPatterns_entryOrNone (s : PatternVolumeDeltaStrategy)
  (current previous : MarketData) :
  entryOrNone (Direction (detectPatterns s current previous)).
Proof.
  unfold detectPatterns, detectEngulfing, detectHammer, detectInsideBar,
    detectBreakout, detectMomentumCandle, entryOrNone, patternNone.
  destruct (breakoutLoop _ _ _ _ _) as [high low].
  repeat match goal with
    | |- context [if ?c then _ else _] => destruct c; simpl
    end; auto.
Qed.

Lemma appendHistories_history (s : PatternVolumeDeltaStrategy)
  (data : MarketData) (delta : Delta) :
  history (appendHistories s data delta) = appendBounded 200 (history s) data.
Proof. reflexivity. Qed.

Lemma appendHistories_deltaHistory (s : PatternVolumeDeltaStrategy)
  (data : MarketData) (delta : Delta) :
  deltaHistory (appendHistories s data delta)
  = appendBounded 100 (deltaHistory s) (Value delta).
Proof. reflexivity. Qed.

Lemma len_app_one {A : Type} (l : list A) (v : A) :
  len (l ++ [v]) = (len l + 1)%Z.
Proof. unfold len. rewrite length_app. simpl. lia. Qed.

Lemma appendBounded_length {A : Type} (cap : Z) (l : list A) (v : A) :
  length (appendBounded cap l v) =
  if (len l + 1 >? cap)%Z then length l else S (length l).
Proof.
  unfold appendBounded. rewrite len_app_one.
  destruct (len l + 1 >? cap)%Z.
  - rewrite length_drop, length_app. simpl. lia.
  - rewrite length_app. simpl. lia.
Qed.

Lemma appendBounded_last {A : Type} (cap : Z) (l : list A) (v d : A) :
  (1 <= cap)%Z ->
  nth (length (appendBounded cap l v) - 1) (appendBounded cap l v) d = v.
Proof.
  intros Hcap. rewrite appendBounded_length.
  unfold appendBounded. rewrite len_app_one.
  destruct (len l + 1 >? cap)%Z eqn:E.
  - apply Z.gtb_lt in E. unfold len in E.
    destruct l as [|a l]; simpl in *; [lia|].
    rewrite drop_0. rewrite Nat.sub_0_r.
    rewrite app_nth2 by lia. rewrite Nat.sub_diag. reflexivity.
  - replace (S (length l) - 1)%nat with (length l) by lia.
    rewrite app_nth2 by lia. rewrite Nat.sub_diag. reflexivity.
Qed.

(** The current bar [Analyze] works on is the snapshot it was given. *)
Lemma Analyze_current_is_data (s : PatternVolumeDeltaStrategy)
  (data : MarketData) (delta : Delta) :
  let s1 := appendHistories s data delta in
  index (history s1) (len (history s1) - 1) = data.
Proof.
  intros s1. unfold index, len.
  replace (Z.to_nat (Z.of_nat (length (history s1)) - 1))
    with (length (history s1) - 1)%nat by lia.
  unfold s1. rewrite appendHistories_history.
  apply appendBounded_last. lia.
Qed.

(** C1.  [Analyze] first appends the snapshot and the delta sample; the
    snapshot is the current bar of what follows.  With
    fewer than two snapshots after that, it answers no-signal (and leaves
    the recorded rejection alone).  Otherwise the pattern detector, the
    volume filter, the delta check and, when enabled, the trend filter are
    consulted in this order on the appended state: the first one that fails
    gives no-signal and is the one recorded as the rejection; when all pass
    the signal is the direction of the detected pattern, which is long-entry
    or short-entry, and the recorded rejection is cleared. *)
Theorem C1_Analyze_fixed_order (s : PatternVolumeDeltaStrategy)
  (data : MarketData) (delta : Delta) :
  let s1 := appendHistories s data delta in
  let current := index (history s1) (len (history s1) - 1) in
  let previous := index (history s1) (len (history s1) - 2) in
  let pattern := detectPatterns s1 current previous in
  let s' := fst (Analyze s data delta) in
  let signal := snd (Analyze s data delta) in
  history s' = history s1 /\ deltaHistory s' = deltaHistory s1 /\
  current = data /\
  ((len (history s1) < 2)%Z ->
     signal = SignalNone /\ lastFilterFailure s' = lastFilterFailure s) /\
  ((2 <= len (history s1))%Z ->
     (Direction pattern = SignalNone ->
        signal = SignalNone /\ lastFilterFailure s' = PatternFailure) /\
     (Direction pattern <> SignalNone ->
      checkVolume s1 current = false ->
        signal = SignalNone /\
        lastFilterFailure s' = VolumeFailure (Volume (mdKLine current))) /\
     (Direction pattern <> SignalNone ->
      checkVolume s1 current = true ->
      checkDelta s1 delta (Direction pattern) = false ->
        signal = SignalNone /\
        lastFilterFailure s' = DeltaFailure (Value delta) (Direction pattern)) /\
     (Direction pattern <> SignalNone ->
      checkVolume s1 current = true ->
      checkDelta s1 delta (Direction pattern) = true ->
      useTrendFilter s = true ->
      checkTrend s1 current (Direction pattern) = false ->
        signal = SignalNone /\
        lastFilterFailure s' =
          TrendFailure (Close (mdKLine current))
            (EMA30 (mdIndicators current)) (Direction pattern)) /\
     (Direction pattern <> SignalNone ->
      checkVolume s1 current = true ->
      checkDelta s1 delta (Direction pattern) = true ->
      (useTrendFilter s = true ->
       checkTrend s1 current (Direction pattern) = true) ->
        signal = Direction pattern /\
        (signal = SignalLongEntry \/ signal = SignalShortEntry) /\
        lastFilterFailure s' = NoFailure)).
Proof.
  intros s1 current previous pattern s' signal.
  assert (Hcur : current = data) by apply Analyze_current_is_data.
  assert (Htrend : useTrendFilter s1 = useTrendFilter s) by reflexivity.
  assert (Hfail : lastFilterFailure s1 = lastFilterFailure s) by reflexivity.
  assert (Hdir : Direction pattern <> SignalNone ->
                 Direction pattern = SignalLongEntry \/
                 Direction pattern = SignalShortEntry).
  { intros Hne.
    destruct (detectPatterns_entryOrNone s1 current previous) as [H'|H'];
      [fold pattern in H'; congruence | exact H']. }
  unfold s', signal, Analyze.
  fold s1. fold current. fold previous. fold pattern.
  destruct (len (history s1) <? 2)%Z eqn:Hlen.
  { apply Z.ltb_lt in Hlen. cbn [fst snd].
    split; [reflexivity|]. split; [reflexivity|]. split; [exact Hcur|].
    split; [intros _; split; [reflexivity | exact Hfail] | intros; lia]. }
  apply Z.ltb_ge in Hlen.
  destruct (isNone pattern) eqn:Hp.
  { apply isNone_true in Hp. cbn [fst snd].
    split; [reflexivity|]. split; [reflexivity|]. split; [exact Hcur|].
    split; [intros; lia|]. intros _.
    repeat split; intros; solve [reflexivity | congruence]. }
  apply isNone_false in Hp.
  destruct (checkVolume s1 current) eqn:Hv; cbn [fst snd].
  2:{ split; [reflexivity|]. split; [reflexivity|]. split; [exact Hcur|].
      split; [intros; lia|]. intros _.
      repeat split; intros; solve [reflexivity | congruence]. }
  destruct (checkDelta s1 delta (Direction pattern)) eqn:Hd; cbn [fst snd].
  2:{ split; [reflexivity|]. split; [reflexivity|]. split; [exact Hcur|].
      split; [intros; lia|]. intros _.
      repeat split; intros; solve [reflexivity | congruence]. }
  rewrite Htrend.
  destruct (useTrendFilter s) eqn:Ht; cbn [fst snd].
  - destruct (checkTrend s1 current (Direction pattern)) eqn:Hc; cbn [fst snd].
    + split; [reflexivity|]. split; [reflexivity|]. split; [exact Hcur|].
      split; [intros; lia|]. intros _.
      repeat split; intros; solve [reflexivity | congruence | auto].
    + split; [reflexivity|]. split; [reflexivity|]. split; [exact Hcur|].
      split; [intros; lia|]. intros _.
      repeat split; intros;
        try solve [reflexivity | congruence];
        match goal with H : true = true -> false = true |- _ =>
          specialize (H eq_refl); discriminate end.
  - split; [reflexivity|]. split; [reflexivity|]. split; [exact Hcur|].
    split; [intros; lia|]. intros _.
    repeat split; intros; solve [reflexivity | congruence | auto].
Qed.

(** C1 at work: after nine quiet bars a rising bar passes all four checks
    and the signal is the direction of its pattern, long-entry. *)
Lemma C1_Analyze_fixed_order_witness :
  snd (Analyze nineBars (fst rising) (snd rising))
  = Direction
      (detectPatterns (appendHistories nineBars (fst rising) (snd rising))
         (fst rising) (fst quiet)) /\
  snd (Analyze nineBars (fst rising) (snd rising)) = SignalLongEntry.
Proof.
  pose proof (C1_Analyze_fixed_order nineBars (fst rising) (snd rising)) as H.
  cbv zeta in H.
  destruct H as (_ & _ & _ & _ & H).
  assert (H2 : (2 <= len (history
                  (appendHistories nineBars (fst rising) (snd rising))))%Z)
    by (vm_compute; discriminate).
  destruct (H H2) as (_ & _ & _ & _ & Hall).
  assert (Hpat : detectPatterns
                   (appendHistories nineBars (fst rising) (snd rising))
                   (index (history (appendHistories nineBars (fst rising)
                                      (snd rising)))
                      (len (history (appendHistories nineBars (fst rising)
                                       (snd rising))) - 1))
                   (index (history (appendHistories nineBars (fst rising)
                                      (snd rising)))
                      (len (history (appendHistories nineBars (fst rising)
                                       (snd rising))) - 2))
                 = mkPattern SignalLongEntry 0.7 "Momentum Candle")
    by (vm_compute; reflexivity).
  rewrite Hpat in Hall. simpl Direction in Hall.
  destruct Hall as (Hsig & _ & _).
  - discriminate.
  - vm_compute. reflexivity.
  - vm_compute. reflexivity.
  - intros _. vm_compute. reflexivity.
  - split; [|exact Hsig].
    rewrite Hsig. vm_compute. reflexivity.
Defined.

(** Each outcome of [Analyze] occurs: rejection by the pattern detector, by
    the volume filter, by the delta check and by the trend filter, and both
    entry signals. *)
Lemma Analyze_outcomes :
  let out s x := (snd (Analyze s (fst x) (snd x)),
                  lastFilterFailure (fst (Analyze s (fst x) (snd x)))) in
  out nineBars quiet = (SignalNone, PatternFailure) /\
  out nineBars (bar 10 11 10 11 1 10.5, sample 5)
    = (SignalNone, VolumeFailure 1) /\
  out nineBars (bar 10 11 10 11 2 10.5, sample 0.5)
    = (SignalNone, DeltaFailure 0.5 SignalLongEntry) /\
  out nineBars (bar 10 11 10 11 2 11.5, sample 5)
    = (SignalNone, TrendFailure 11 11.5 SignalLongEntry) /\
  out nineBars rising = (SignalLongEntry, NoFailure) /\
  out nineBars (bar 10 10 9 9 2 9.5, sample (-5))
    = (SignalShortEntry, NoFailure).
Proof. vm_compute. repeat split; reflexivity. Qed.

End FusionOrder.

(* ===================================================================== *)
(** * Part VIII.  The volume filter                                       *)
(* ===================================================================== *)

Section VolumeFilter.
Import models strategy spec.
Local Open Scope float_scope.

Lemma int64_small (z : Z) : (- 2 ^ 63 <= z < 2 ^ 63)%Z -> int64 z = z.
Proof.
  intros H. unfold int64.
  rewrite Z.mod_small by lia. lia.
Qed.

(** The loop adds the volumes of the places [i .. len-2], oldest first. *)
Lemma volumeLoop_sum (h : list MarketData) (fuel : nat) :
  forall (i : Z) (acc : float),
    (0 <= i)%Z ->
    (len h - 1 - i <= Z.of_nat fuel)%Z ->
    volumeLoop h fuel i acc =
    fold_left (fun a b => a + Volume (mdKLine b))
      (drop (Z.to_nat i) (take (length h - 1) h)) acc.
Proof.
  induction fuel as [|fuel IH]; intros i acc Hi Hfuel; unfold len in *.
  - simpl. rewrite drop_ge; [reflexivity|]. rewrite length_take. lia.
  - simpl. unfold len.
    destruct (i <? Z.of_nat (length h) - 1)%Z eqn:E.
    + apply Z.ltb_lt in E.
      assert (Hlt : (Z.to_nat i < length h - 1)%nat) by lia.
      assert (Hlk : take (length h - 1) h !! Z.to_nat i
                    = Some (index h i)).
      { rewrite lookup_take_lt by exact Hlt.
        unfold index. rewrite nth_lookup.
        destruct (lookup_lt_is_Some_2 h (Z.to_nat i)) as [x Hx]; [lia|].
        rewrite Hx. reflexivity. }
      rewrite (drop_S _ _ _ Hlk). simpl.
      rewrite IH by (unfold len; lia).
      replace (Z.to_nat (i + 1)) with (S (Z.to_nat i)) by lia.
      reflexivity.
    + apply Z.ltb_ge in E.
      rewrite drop_ge; [reflexivity|]. rewrite length_take. lia.
Qed.

Lemma priorBars_length (s : PatternVolumeDeltaStrategy) :
  length (priorBars s) = (length (history s) - 1)%nat.
Proof. unfold priorBars. rewrite length_take. lia. Qed.

Lemma volumeWindow_length (s : PatternVolumeDeltaStrategy) :
  length (volumeWindow s) =
  Nat.min (Z.to_nat (vLookback s)) (length (priorBars s)).
Proof. unfold volumeWindow, lastN. rewrite length_drop. lia. Qed.

(** The threshold of the code is the bound of the specification. *)
Lemma volumeThreshold_bound (s : PatternVolumeDeltaStrategy) :
  (1 <= vLookback s)%Z ->
  (1 <= length (priorBars s))%nat ->
  (len (history s) < 2 ^ 62)%Z ->
  volumeThreshold s = volumeBound s.
Proof.
  intros Hv Hp Hlen.
  pose proof (priorBars_length s) as Hpl.
  unfold volumeThreshold, volumeBound.
  set (k := Nat.min (Z.to_nat (vLookback s)) (length (priorBars s))).
  assert (Hk : length (volumeWindow s) = k) by apply volumeWindow_length.
  set (lookback := if (len (history s) - 1 <? vLookback s)%Z
                   then (len (history s) - 1)%Z else vLookback s).
  assert (Hlb : lookback = Z.of_nat k).
  { unfold lookback, k, len. rewrite Hpl.
    destruct (Z.of_nat (length (history s)) - 1 <? vLookback s)%Z eqn:E;
      [apply Z.ltb_lt in E | apply Z.ltb_ge in E]; lia. }
  rewrite Hk, Hlb.
  assert (Hkle : (k <= length (history s) - 1)%nat) by (unfold k; lia).
  unfold len in *.
  rewrite (int64_small (Z.of_nat (length (history s)) - Z.of_nat k)) by lia.
  rewrite int64_small by lia.
  replace (Z.of_nat (length (history s)) - Z.of_nat k - 1 <? 0)%Z
    with false by (symmetry; apply Z.ltb_ge; lia).
  rewrite volumeLoop_sum by (unfold len; lia).
  unfold sumVolumes, volumeWindow, lastN. fold k.
  replace (Z.to_nat (Z.of_nat (length (history s)) - Z.of_nat k - 1))
    with (length (priorBars s) - k)%nat by (rewrite Hpl; lia).
  reflexivity.
Qed.

(** C7.  With no earlier bar the volume filter rejects.  Otherwise the
    window of the average holds the [min(V_LOOKBACK, available)] bars right
    before the current one (the current bar is not among them), the filter
    passes exactly when the volume of the current bar is at least the
    average over the window times [V_MULT], and in particular a volume equal
    to that bound passes. *)
Theorem C7_volume_filter (s : PatternVolumeDeltaStrategy)
  (candle : MarketData) :
  (1 <= vLookback s)%Z ->
  (len (history s) < 2 ^ 62)%Z ->
  (length (priorBars s) = 0%nat -> checkVolume s candle = false) /\
  ((1 <= length (priorBars s))%nat ->
     length (volumeWindow s)
       = Nat.min (Z.to_nat (vLookback s)) (length (priorBars s)) /\
     priorBars s ++ drop (length (history s) - 1) (history s) = history s /\
     (exists older, priorBars s = older ++ volumeWindow s) /\
     checkVolume s candle
       = (Volume (mdKLine candle) >=. volumeBound s) /\
     ((Volume (mdKLine candle) ==. volumeBound s) = true ->
        checkVolume s candle = true)).
Proof.
  intros Hv Hlen.
  pose proof (priorBars_length s) as Hpl.
  split.
  - intros H0. unfold checkVolume, len.
    replace (Z.of_nat (length (history s)) - 1 <? 1)%Z with true;
      [reflexivity|]. symmetry. apply Z.ltb_lt. lia.
  - intros H1.
    assert (Hcv : checkVolume s candle
                  = (Volume (mdKLine candle) >=. volumeBound s)).
    { unfold checkVolume, len.
      replace (Z.of_nat (length (history s)) - 1 <? 1)%Z with false
        by (symmetry; apply Z.ltb_ge; lia).
      rewrite volumeThreshold_bound by assumption. reflexivity. }
    split; [apply volumeWindow_length|].
    split; [apply take_drop|].
    split.
    { exists (take (length (priorBars s)
                    - Nat.min (Z.to_nat (vLookback s)) (length (priorBars s)))
                (priorBars s)).
      unfold volumeWindow, lastN. symmetry. apply take_drop. }
    split; [exact Hcv|].
    intros Heq. rewrite Hcv. apply f64_eq_ge. exact Heq.
Qed.

(** C7 at work: after one bar of volume 8 and with the default
    configuration, the bound is [8 * 1.25 = 10]; a bar of volume 10
    passes. *)
Lemma C7_volume_filter_witness :
  let bar v := mkMarketData (mkKLine 1 1 1 1 v 0)
                 (mkIndicators 0 0 0 0 0 0 0 0 0) in
  let s := set_history NewPatternVolumeDeltaStrategy [bar 8; bar 10] in
  volumeBound s = 10 /\ checkVolume s (bar 10) = true.
Proof.
  intros bar s.
  assert (Hv : (1 <= vLookback s)%Z) by (vm_compute; discriminate).
  assert (Hl : (len (history s) < 2 ^ 62)%Z) by (vm_compute; reflexivity).
  assert (H1 : (1 <= length (priorBars s))%nat) by (vm_compute; lia).
  destruct (C7_volume_filter s (bar 10) Hv Hl) as [_ H].
  destruct (H H1) as (_ & _ & _ & _ & Hb).
  split; [vm_compute; reflexivity | apply Hb; vm_compute; reflexivity].
Defined.

End VolumeFilter.

(* ===================================================================== *)
(** * Part IX.  The delta check                                           *)
(* ===================================================================== *)

Section DeltaCheck.
Import models strategy spec fixtures.
Local Open Scope float_scope.

Lemma dynamicDeltaThreshold_bound (s : PatternVolumeDeltaStrategy) :
  dynamicDeltaThreshold s = meanAbsBound (deltaHistory s) (deltaDynMult s).
Proof. reflexivity. Qed.

(** C6, as the code has it.  In dynamic mode [Analyze] appends the current
    delta to the delta history (dropping the oldest sample beyond 100) and
    then checks it against that history, the current sample included.  The
    check rejects every candidate while the history so extended holds fewer
    than 10 samples, that is with fewer than 9 earlier samples; from 10
    samples on the threshold is the mean of the absolute values over that
    history times [D_MULT], and the check passes exactly when the delta is
    at least the threshold for a long candidate, at most minus the threshold
    for a short one. *)
Theorem C6_dynamic_delta_check (s : PatternVolumeDeltaStrategy)
  (data : MarketData) (delta : Delta) :
  deltaThreshMode s = "dynamic"%string ->
  let s1 := appendHistories s data delta in
  let threshold := meanAbsBound (deltaHistory s1) (deltaDynMult s) in
  deltaHistory s1 = appendBounded 100 (deltaHistory s) (Value delta) /\
  ((length (deltaHistory s) <= 100)%nat ->
     length (deltaHistory s1) = Nat.min 100 (S (length (deltaHistory s)))) /\
  ((length (deltaHistory s) < 9)%nat ->
     forall d, checkDelta s1 delta d = false) /\
  ((10 <= length (deltaHistory s1))%nat ->
     checkDelta s1 delta SignalLongEntry = (Value delta >=. threshold) /\
     checkDelta s1 delta SignalShortEntry = (Value delta <=. - threshold) /\
     forall d, d <> SignalLongEntry -> d <> SignalShortEntry ->
               checkDelta s1 delta d = false).
Proof.
  intros Hmode s1 threshold.
  assert (Hm1 : deltaThreshMode s1 = "dynamic"%string) by exact Hmode.
  assert (Hlen1 : length (deltaHistory s1) =
                  if (len (deltaHistory s) + 1 >? 100)%Z
                  then length (deltaHistory s)
                  else S (length (deltaHistory s))).
  { unfold s1. rewrite appendHistories_deltaHistory.
    apply appendBounded_length. }
  split; [reflexivity|]. split; [|split].
  - intros Hle. rewrite Hlen1. unfold len.
    destruct (Z.of_nat (length (deltaHistory s)) + 1 >? 100)%Z eqn:E;
      [apply Z.gtb_lt in E | rewrite Z.gtb_ltb in E; apply Z.ltb_ge in E];
      lia.
  - intros Hlt d. unfold checkDelta. rewrite Hm1. simpl String.eqb.
    replace (len (deltaHistory s1) <? 10)%Z with true; [reflexivity|].
    symmetry. apply Z.ltb_lt. unfold len in *. rewrite Hlen1.
    destruct (Z.of_nat (length (deltaHistory s)) + 1 >? 100)%Z; lia.
  - intros Hge. unfold checkDelta. rewrite Hm1. simpl String.eqb.
    replace (len (deltaHistory s1) <? 10)%Z with false
      by (symmetry; apply Z.ltb_ge; unfold len; lia).
    rewrite dynamicDeltaThreshold_bound.
    repeat split. intros d Hl Hs. destruct d; simpl; congruence.
Qed.

(** C6 at work: after nine quiet bars the tenth sample makes the history
    ten long, and the check for a long candidate is the comparison with the
    bound. *)
Lemma C6_dynamic_delta_check_witness :
  checkDelta (appendHistories nineBars (fst rising) (snd rising))
    (snd rising) SignalLongEntry
  = (Value (snd rising) >=.
       meanAbsBound
         (deltaHistory (appendHistories nineBars (fst rising) (snd rising)))
         (deltaDynMult nineBars)).
Proof.
  assert (Hm : deltaThreshMode nineBars = "dynamic"%string)
    by (vm_compute; reflexivity).
  destruct (C6_dynamic_delta_check nineBars (fst rising) (snd rising) Hm)
    as (_ & _ & _ & H).
  apply H. vm_compute. lia.
Defined.

(** C6 as stated fails: with nine earlier samples, fewer than ten, the
    check lets a long candidate through and [Analyze] emits long-entry. *)
Lemma C6_nine_prior_samples_pass :
  length (deltaHistory nineBars) = 9%nat /\
  deltaThreshMode nineBars = "dynamic"%string /\
  checkDelta (appendHistories nineBars (fst rising) (snd rising))
    (snd rising) SignalLongEntry = true /\
  snd (Analyze nineBars (fst rising) (snd rising)) = SignalLongEntry.
Proof. vm_compute. repeat split; reflexivity. Qed.

End DeltaCheck.

(* ===================================================================== *)
(** * Part X.  Repeated calls of [Analyze]                                *)
(* ===================================================================== *)

Section RepeatedCalls.
Import models strategy spec fixtures.
Local Open Scope float_scope.

(** C8 as stated fails: called a second time with the same snapshot and
    delta, [Analyze] appends both again (ten snapshots and samples become
    eleven) and the signal changes from long-entry to no-signal, the
    repeated bar having raised the average volume. *)
Lemma C8_second_call_differs :
  let r1 := Analyze nineBars (fst risingThin) (snd risingThin) in
  let r2 := Analyze (fst r1) (fst risingThin) (snd risingThin) in
  length (history (fst r1)) = 10%nat /\ length (history (fst r2)) = 11%nat /\
  length (deltaHistory (fst r1)) = 10%nat /\
  length (deltaHistory (fst r2)) = 11%nat /\
  snd r1 = SignalLongEntry /\ snd r2 = SignalNone.
Proof. vm_compute. repeat split; reflexivity. Qed.

Lemma Analyze_history (s : PatternVolumeDeltaStrategy) (data : MarketData)
  (delta : Delta) :
  history (fst (Analyze s data delta)) = appendBounded 200 (history s) data.
Proof.
  unfold Analyze.
  repeat match goal with
    | |- context [if ?c then _ else _] => destruct c
    end; reflexivity.
Qed.

Lemma Analyze_deltaHistory (s : PatternVolumeDeltaStrategy)
  (data : MarketData) (delta : Delta) :
  deltaHistory (fst (Analyze s data delta))
  = appendBounded 100 (deltaHistory s) (Value delta).
Proof.
  unfold Analyze.
  repeat match goal with
    | |- context [if ?c then _ else _] => destruct c
    end; reflexivity.
Qed.

(** C8, as the code has it.  Every call of [Analyze], a repeated one
    included, appends the snapshot to the snapshot history and the delta
    value to the delta history, dropping the oldest entry once 200
    snapshots or 100 samples are exceeded.  Below these capacities each
    history grows by one entry, so the call does change it. *)
Theorem C8_Analyze_always_appends (s : PatternVolumeDeltaStrategy)
  (data : MarketData) (delta : Delta) :
  let s' := fst (Analyze s data delta) in
  history s' = appendBounded 200 (history s) data /\
  deltaHistory s' = appendBounded 100 (deltaHistory s) (Value delta) /\
  ((length (history s) < 200)%nat ->
     history s' = history s ++ [data] /\ history s' <> history s) /\
  ((length (deltaHistory s) < 100)%nat ->
     deltaHistory s' = deltaHistory s ++ [Value delta] /\
     deltaHistory s' <> deltaHistory s) /\
  ((200 <= length (history s))%nat ->
     history s' = drop 1 (history s) ++ [data]) /\
  ((100 <= length (deltaHistory s))%nat ->
     deltaHistory s' = drop 1 (deltaHistory s) ++ [Value delta]).
Proof.
  intros s'. unfold s'.
  rewrite Analyze_history, Analyze_deltaHistory.
  assert (Hgrow : forall (A : Type) (l : list A) (v : A), l ++ [v] <> l).
  { intros A l v H. apply (f_equal (@length A)) in H.
    rewrite length_app in H. simpl in H. lia. }
  assert (Hdrop : forall (A : Type) (l : list A) (v : A),
             (1 <= length l)%nat -> drop 1 (l ++ [v]) = drop 1 l ++ [v]).
  { intros A l v H. destruct l; simpl in *; [lia|]. rewrite !drop_0.
    reflexivity. }
  split; [reflexivity|]. split; [reflexivity|].
  unfold appendBounded. rewrite !len_app_one. unfold len.
  split; [|split; [|split]].
  - intros H.
    replace (Z.of_nat (length (history s)) + 1 >? 200)%Z with false
      by (symmetry; rewrite Z.gtb_ltb; apply Z.ltb_ge; lia).
    split; [reflexivity | apply Hgrow].
  - intros H.
    replace (Z.of_nat (length (deltaHistory s)) + 1 >? 100)%Z with false
      by (symmetry; rewrite Z.gtb_ltb; apply Z.ltb_ge; lia).
    split; [reflexivity | apply Hgrow].
  - intros H.
    replace (Z.of_nat (length (history s)) + 1 >? 200)%Z with true
      by (symmetry; apply Z.gtb_lt; lia).
    apply Hdrop; lia.
  - intros H.
    replace (Z.of_nat (length (deltaHistory s)) + 1 >? 100)%Z with true
      by (symmetry; apply Z.gtb_lt; lia).
    apply Hdrop; lia.
Qed.

End RepeatedCalls.

(* ===================================================================== *)
(** * Part XI.  Breakout and zero-range bars                              *)
(* ===================================================================== *)

Section Breakout.
Import models strategy spec fixtures.
Local Open Scope float_scope.

(** [a] then [b] is a step up, or no step. *)
Lemma up_trans (a b c : float) :
  (a = b \/ (a <. b) = true) -> (b = c \/ (b <. c) = true) ->
  (a = c \/ (a <. c) = true).
Proof.
  intros [->|H1] [->|H2]; auto. right. exact (f64_lt_trans _ _ _ H1 H2).
Qed.

(** The running high of the loop never falls below the value it starts
    from, and the running low never rises above its own. *)
Lemma breakoutLoop_bounds (h : list MarketData) (lo : Z) (fuel : nat) :
  forall (i : Z) (hl : float * float),
    (fst hl = fst (breakoutLoop h lo fuel i hl)
     \/ (fst hl <. fst (breakoutLoop h lo fuel i hl)) = true) /\
    (snd (breakoutLoop h lo fuel i hl) = snd hl
     \/ (snd (breakoutLoop h lo fuel i hl) <. snd hl) = true).
Proof.
  induction fuel as [|fuel IH]; intros i [high low]; simpl.
  - auto.
  - destruct ((i >=? lo)%Z && (i >=? 0)%Z); [|auto].
    match goal with
    | |- context [breakoutLoop h lo fuel ?j ?p] =>
        destruct (IH j p) as [IHh IHl]
    end.
    simpl in IHh, IHl. split.
    + eapply up_trans; [|exact IHh].
      destruct (High (mdKLine (index h i)) >. high) eqn:E; auto.
    + destruct IHl as [IHl|IHl].
      * rewrite IHl.
        destruct (Low (mdKLine (index h i)) <. low) eqn:E; auto.
      * destruct (Low (mdKLine (index h i)) <. low) eqn:E; auto.
        right. exact (f64_lt_trans _ _ _ IHl E).
Qed.

(** A close inside the bar's own range is never beyond what the loop
    returns: [detectBreakout] answers none on every bar whose close lies
    between its low and its high. *)
Lemma detectBreakout_inside_range (s : PatternVolumeDeltaStrategy)
  (current : MarketData) :
  (Low (mdKLine current) <=. Close (mdKLine current)) = true ->
  (Close (mdKLine current) <=. High (mdKLine current)) = true ->
  detectBreakout s current = patternNone.
Proof.
  intros Hlow Hhigh. unfold detectBreakout.
  destruct (len (history s) <? int64 (bLookback s + 1))%Z; [reflexivity|].
  match goal with
  | |- context [breakoutLoop ?h ?lo ?f ?i ?p] =>
      destruct (breakoutLoop_bounds h lo f i p) as [Bh Bl];
      destruct (breakoutLoop h lo f i p) as [high low]
  end.
  simpl in Bh, Bl.
  assert (H1 : (Close (mdKLine current) >. high) = false).
  { destruct Bh as [<-|Bh]; [apply f64_le_not_gt; exact Hhigh|].
    clear Bl Hlow. fkeys. }
  assert (H2 : (Close (mdKLine current) <. low) = false).
  { destruct Bl as [->|Bl]; [clear Bh Hhigh H1; fkeys|].
    clear Bh Hhigh H1. fkeys. }
  rewrite H1, H2. reflexivity.
Qed.

(** C5 fails on the code.  Five bars with highs at 10 are followed by a bar
    that closes at 11 on a volume of 5: the close is strictly above the
    highest high of the five bars before it and the volume is not zero, yet
    [detectBreakout] answers none, because its running high starts from the
    high of the current bar itself (12). *)
Theorem C5_breakout_failing_input :
  history afterBreakout = repeat (fst rangeBar) 5 ++ [fst breakoutBar] /\
  bLookback afterBreakout = 5%Z /\
  length (priorBars afterBreakout) = 5%nat /\
  highestHigh (breakoutBars afterBreakout) = 10 /\
  Close (mdKLine (fst breakoutBar)) = 11 /\
  breakoutLong afterBreakout (fst breakoutBar) = true /\
  detectBreakout afterBreakout (fst breakoutBar) = patternNone /\
  Direction (GetCurrentPattern afterBreakout) = SignalNone.
Proof. vm_compute. repeat split; reflexivity. Qed.

End Breakout.

Section ZeroRange.
Import models strategy spec fixtures trading.
Local Open Scope float_scope.

(** The difference of two equal floats is a zero, or NaN (for infinities). *)
Lemma sub_eq_class (x y : float) :
  (x ==. y) = true ->
  Prim2SF (x - y) = S754_nan \/ exists sg, Prim2SF (x - y) = S754_zero sg.
Proof.
  unfold F64.eq. rewrite FloatAxioms.eqb_spec, sub_spec.
  unfold SFeqb, SF64sub.
  destruct (Prim2SF x) as [s1|s1| |s1 m1 e1], (Prim2SF y) as [s2|s2| |s2 m2 e2];
    simpl; try discriminate;
    try (destruct s1, s2; simpl; try discriminate; eauto; fail).
  destruct s1, s2; simpl; try discriminate;
    destruct (Z.compare_spec e1 e2); try discriminate; subst;
    intros H;
    (assert (m1 = m2) by
       (apply Pos.compare_eq; fold (Pos.compare m1 m2);
        destruct (Pos.compare_cont Eq m1 m2) eqn:E; simpl in H;
        try discriminate; exact E || reflexivity));
    subst; rewrite Z.sub_diag; simpl; eauto.
Qed.

Lemma sub_eq_zero_or_nan (x y : float) :
  (x ==. y) = true -> (x - y ==. 0) = true \/ x - y = nan.
Proof.
  intros H. destruct (sub_eq_class x y H) as [E|[sg E]].
  - right. rewrite <- (SF2Prim_Prim2SF (x - y)), E. reflexivity.
  - left. unfold F64.eq. rewrite FloatAxioms.eqb_spec, E.
    destruct sg; reflexivity.
Qed.

Lemma mul_nan_l (y : float) : nan * y = nan.
Proof.
  rewrite <- (SF2Prim_Prim2SF (nan * y)), mul_spec.
  change (Prim2SF nan) with S754_nan. reflexivity.
Qed.

Lemma fkey_nan : F64.fkey nan = None.
Proof. reflexivity. Qed.

Lemma lt_nan_r (x : float) : (x <. nan) = false.
Proof.
  unfold F64.lt. rewrite ltb_key, fkey_nan.
  destruct (F64.fkey x); reflexivity.
Qed.

Lemma le_nan_l (x : float) : (nan <=. x) = false.
Proof. unfold F64.le. rewrite leb_key, fkey_nan. reflexivity. Qed.

Lemma gt_nan_l (x : float) : (nan >. x) = false.
Proof. apply lt_nan_r. Qed.

Lemma gt_zero_not_eq (x : float) : (x ==. 0) = true -> (x >. 0) = false.
Proof. intros. fkeys. Qed.

Lemma validBar_spec (k : KLine) :
  validBar k = true <->
  (Low k <=. Open k) = true /\ (Open k <=. High k) = true /\
  (Low k <=. Close k) = true /\ (Close k <=. High k) = true.
Proof.
  unfold validBar. rewrite !andb_true_iff. tauto.
Qed.

(** On a zero-range bar open and close coincide with high and low, so the
    candle has no colour. *)
Lemma zero_range_no_colour (k : KLine) :
  validBar k = true -> (High k ==. Low k) = true ->
  (Close k >. Open k) = false /\ (Close k <. Open k) = false.
Proof.
  intros Hv Hz. apply validBar_spec in Hv.
  destruct Hv as (H1 & H2 & H3 & H4).
  split; fkeys.
Qed.

Lemma detectHammer_zero_range (s : PatternVolumeDeltaStrategy)
  (candle : MarketData) :
  (High (mdKLine candle) ==. Low (mdKLine candle)) = true ->
  detectHammer s candle = patternNone.
Proof.
  intros Hz. unfold detectHammer.
  destruct (sub_eq_zero_or_nan _ _ Hz) as [E|E]; rewrite E.
  - reflexivity.
  - replace (nan ==. 0) with false by reflexivity.
    rewrite mul_nan_l, lt_nan_r. reflexivity.
Qed.

Lemma detectMomentumCandle_zero_range (s : PatternVolumeDeltaStrategy)
  (candle : MarketData) :
  (High (mdKLine candle) ==. Low (mdKLine candle)) = true ->
  detectMomentumCandle s candle = patternNone.
Proof.
  intros Hz. unfold detectMomentumCandle.
  destruct (sub_eq_zero_or_nan _ _ Hz) as [E|E]; rewrite E.
  - reflexivity.
  - replace (nan ==. 0) with false by reflexivity.
    rewrite mul_nan_l. unfold F64.ge. fold (F64.le nan
      (math.Abs (Close (mdKLine candle) - Open (mdKLine candle)))).
    rewrite le_nan_l. reflexivity.
Qed.

Lemma detectEngulfing_no_colour (s : PatternVolumeDeltaStrategy)
  (current previous : MarketData) :
  (Close (mdKLine current) >. Open (mdKLine current)) = false ->
  (Close (mdKLine current) <. Open (mdKLine current)) = false ->
  detectEngulfing s current previous = patternNone.
Proof.
  intros H1 H2. unfold detectEngulfing. rewrite H1, H2. reflexivity.
Qed.

Lemma calculateDelta_zero_range (deltaHistory : list Delta)
  (k : KLine) (historicalKlines : list KLine) :
  (High k ==. Low k) = true ->
  snd (calculateDelta deltaHistory k historicalKlines)
  = mkDelta (Volume k * 0.5 - Volume k * 0.5) (Volume k * 0.5)
      (Volume k * 0.5).
Proof.
  intros Hz. unfold calculateDelta.
  replace (High k - Low k >. 0) with false; [reflexivity|].
  symmetry. destruct (sub_eq_zero_or_nan _ _ Hz) as [E|E].
  - apply gt_zero_not_eq. exact E.
  - rewrite E. reflexivity.
Qed.

(** C9.  On a valid bar (open and close within low and high) whose high
    equals its low, pattern detection answers direction none.  The hammer
    and the momentum detector answer none: the range they compute is zero
    whenever it is a number, which is what their guard tests, so they return
    at the guard before any other arithmetic on the range (with both prices
    infinite the range is not a number and no pattern test succeeds).  The
    delta estimator does not take the branch that divides by the range and
    gives half of the volume to each side. *)
Theorem C9_zero_range_bars (s : PatternVolumeDeltaStrategy)
  (current previous : MarketData) (deltaHistory : list Delta)
  (historicalKlines : list KLine) :
  validBar (mdKLine current) = true ->
  (High (mdKLine current) ==. Low (mdKLine current)) = true ->
  Direction (detectPatterns s current previous) = SignalNone /\
  (F64.IsNaN (High (mdKLine current) - Low (mdKLine current)) = false ->
   (High (mdKLine current) - Low (mdKLine current) ==. 0) = true) /\
  detectHammer s current = patternNone /\
  detectMomentumCandle s current = patternNone /\
  ((High (mdKLine current) - Low (mdKLine current) >. 0) = false) /\
  snd (calculateDelta deltaHistory (mdKLine current) historicalKlines)
  = mkDelta (Volume (mdKLine current) * 0.5 - Volume (mdKLine current) * 0.5)
      (Volume (mdKLine current) * 0.5) (Volume (mdKLine current) * 0.5).
Proof.
  intros Hv Hz.
  pose proof (zero_range_no_colour _ Hv Hz) as [Hc1 Hc2].
  pose proof (detectHammer_zero_range s current Hz) as Hh.
  pose proof (detectMomentumCandle_zero_range s current Hz) as Hm.
  apply validBar_spec in Hv. destruct Hv as (H1 & H2 & H3 & H4).
  split; [|split; [|split; [exact Hh|split; [exact Hm|split]]]].
  2:{ intros Hnum. destruct (sub_eq_zero_or_nan _ _ Hz) as [E|E];
        [exact E | rewrite E in Hnum; discriminate]. }
  - unfold detectPatterns.
    rewrite (detectEngulfing_no_colour s current previous Hc1 Hc2), Hh, Hm.
    rewrite (detectBreakout_inside_range s current H3 H4).
    unfold detectInsideBar.
    destruct ((High (mdKLine current) <. High (mdKLine previous))
              && (Low (mdKLine current) >. Low (mdKLine previous)));
      reflexivity.
  - destruct (sub_eq_zero_or_nan _ _ Hz) as [E|E].
    + apply gt_zero_not_eq. exact E.
    + rewrite E. reflexivity.
  - apply calculateDelta_zero_range. exact Hz.
Qed.

(** C9 at work on the bar with open = high = low = close = 10. *)
Lemma C9_zero_range_bars_witness :
  Direction (detectPatterns nineBars (bar 10 10 10 10 3 10) (fst quiet))
  = SignalNone.
Proof.
  apply (C9_zero_range_bars nineBars (bar 10 10 10 10 3 10) (fst quiet)
           [] []); vm_compute; reflexivity.
Defined.

End ZeroRange.

(* ===================================================================== *)
(** * Part XII.  Closing an order                                         *)
(* ===================================================================== *)

Section Closing.
Import models trading.
Local Open Scope float_scope.

Lemma removeOpenOrder_cons (x : string) (l : list string) (orderID : string) :
  removeOpenOrder (x :: l) orderID =
  if String.eqb x orderID then l else x :: removeOpenOrder l orderID.
Proof.
  unfold removeOpenOrder. simpl.
  destruct (String.eqb x orderID); [reflexivity|].
  destruct (indexOf l orderID); reflexivity.
Qed.

Lemma removeOpenOrder_nil (orderID : string) : removeOpenOrder [] orderID = [].
Proof. reflexivity. Qed.

Lemma removeOpenOrder_elem (l : list string) (orderID x : string) :
  x ∈ removeOpenOrder l orderID -> x ∈ l.
Proof.
  induction l as [|y l IH]; [rewrite removeOpenOrder_nil; auto|].
  rewrite removeOpenOrder_cons.
  destruct (String.eqb y orderID).
  - intros H. apply elem_of_cons. auto.
  - rewrite !elem_of_cons. intros [->|H]; auto.
Qed.

Lemma removeOpenOrder_other (l : list string) (orderID x : string) :
  x <> orderID -> x ∈ l -> x ∈ removeOpenOrder l orderID.
Proof.
  intros Hne. induction l as [|y l IH]; [auto|].
  rewrite removeOpenOrder_cons.
  destruct (String.eqb_spec y orderID) as [->|Hy].
  - rewrite elem_of_cons. intros [->|H]; [congruence | exact H].
  - rewrite !elem_of_cons. intros [->|H]; auto.
Qed.

Lemma removeOpenOrder_NoDup (l : list string) (orderID : string) :
  NoDup l -> NoDup (removeOpenOrder l orderID) /\
             orderID ∉ removeOpenOrder l orderID.
Proof.
  induction l as [|y l IH]; intros Hnd.
  - rewrite removeOpenOrder_nil. split; [constructor | apply not_elem_of_nil].
  - apply NoDup_cons in Hnd. destruct Hnd as [Hy Hnd].
    rewrite removeOpenOrder_cons.
    destruct (String.eqb_spec y orderID) as [->|Hne].
    + split; assumption.
    + destruct (IH Hnd) as [IH1 IH2]. split.
      * apply NoDup_cons. split; [|exact IH1].
        intros H. apply Hy. eapply removeOpenOrder_elem. exact H.
      * rewrite elem_of_cons. intros [E|E]; [congruence | auto].
Qed.

(** C4 as stated fails: an order opened at entry price 0 and closed at 1
    has a PnL of 1, and its percentage is 0, not the quotient (which is
    infinite). *)
Lemma C4_zero_entry_price :
  let om := fst (OpenLong NewOrderManager "a" "BTC" 0 1 0 0) in
  let om' := fst (CloseOrder om "a" 1 0 0) in
  snd (CloseOrder om "a" 1 0 0) = None /\
  (PnL <$> (orders om' !! "a"%string)) = Some 1 /\
  (PnLPercent <$> (orders om' !! "a"%string)) = Some 0 /\
  1 / (0 * 1) * 100 = infinity.
Proof. vm_compute. repeat split; reflexivity. Qed.

(** C4, as the code has it.  A [CloseOrder] on an open order succeeds.  The
    order then is closed and carries the exit price and the fees; its PnL is
    [(exit - entry) * quantity] for a long order and
    [(entry - exit) * quantity] for a short one, minus the trading fee, minus
    the funding fee; its percentage is [PnL / (entry * quantity) * 100]
    unless the entry price is zero, when it is 0.  The first occurrence of
    the ID leaves the list of open IDs (so the ID is gone from a list
    without repetitions, and every other ID stays), and the total PnL of the
    manager grows by the PnL of the order. *)
Theorem C4_CloseOrder_realized_pnl (om : OrderManager) (orderID : string)
  (exitPrice tradingFee fundingFee : float) (order : LocalOrder) :
  orders om !! orderID = Some order ->
  Status order = OrderStatusOpen ->
  let om' := fst (CloseOrder om orderID exitPrice tradingFee fundingFee) in
  snd (CloseOrder om orderID exitPrice tradingFee fundingFee) = None /\
  exists closed,
    orders om' !! orderID = Some closed /\
    Status closed = OrderStatusClosed /\
    ExitPrice closed = exitPrice /\
    TradingFee closed = tradingFee /\ FundingFee closed = fundingFee /\
    PnL closed =
      match orderType order with
      | OrderTypeLong => (exitPrice - EntryPrice order) * Quantity order
      | OrderTypeShort => (EntryPrice order - exitPrice) * Quantity order
      end - tradingFee - fundingFee /\
    PnLPercent closed =
      (if EntryPrice order ==. 0 then 0
       else PnL closed / (EntryPrice order * Quantity order) * 100) /\
    openOrders om' = removeOpenOrder (openOrders om) orderID /\
    (NoDup (openOrders om) -> orderID ∉ openOrders om') /\
    (forall id, id <> orderID -> id ∈ openOrders om' <-> id ∈ openOrders om) /\
    (forall id, id <> orderID -> orders om' !! id = orders om !! id) /\
    totalPnL om' = totalPnL om + PnL closed.
Proof.
  intros Hlk Hst om'. unfold om', CloseOrder. rewrite Hlk, Hst. simpl.
  split; [reflexivity|].
  eexists. split; [apply lookup_insert_eq|].
  simpl. repeat split; try reflexivity.
  - intros Hnd. apply removeOpenOrder_NoDup. exact Hnd.
  - eapply removeOpenOrder_elem.
  - apply removeOpenOrder_other. assumption.
  - intros id Hne. apply lookup_insert_ne. congruence.
Qed.

(** C4 at work: a short order sold at 100 and bought back at 90, quantity 2
    and fees 1 and 0.5, realizes 18.5. *)
Lemma C4_CloseOrder_realized_pnl_witness :
  let om := fst (OpenShort NewOrderManager "s" "BTC" 100 2 101 95) in
  (PnL <$> (orders (fst (CloseOrder om "s" 90 1 0.5)) !! "s"%string))
  = Some 18.5.
Proof.
  intros om.
  assert (Hlk : orders om !! "s"%string
                = Some (newOrder OrderTypeShort "s" "BTC" 100 2 101 95))
    by (vm_compute; reflexivity).
  destruct (C4_CloseOrder_realized_pnl om "s" 90 1 0.5 _ Hlk eq_refl)
    as (_ & closed & Hc & _ & _ & _ & _ & Hp & _).
  rewrite Hc. simpl. rewrite Hp. vm_compute. reflexivity.
Defined.

End Closing.

(* ===================================================================== *)
(** * Part XIII.  The exit test                                           *)
(* ===================================================================== *)

Section ExitTest.
Import models trading lifecycle fixtures.
Local Open Scope float_scope.

(** The exit test of a long position, arm by arm: an arm is taken exactly
    when its own condition holds and no earlier arm was taken. *)
Lemma exitBranch_long_priority (order : LocalOrder) (p : float) :
  orderType order = OrderTypeLong ->
  let tp := p >=. TakeProfit order in
  let ts := TrailingEnabled order && (p <=. TrailingStopLoss order) in
  let sl := p <=. StopLoss order in
  let timeout := (BarsHeld order >=? MaxHoldBars order)%Z in
  (exitBranch order p = Some ExitTakeProfit <-> tp = true) /\
  (exitBranch order p = Some ExitTrailingStop <-> tp = false /\ ts = true) /\
  (exitBranch order p = Some ExitStopLoss <->
     tp = false /\ ts = false /\ sl = true) /\
  (exitBranch order p = Some ExitTimeout <->
     tp = false /\ ts = false /\ sl = false /\ timeout = true) /\
  (exitBranch order p = None <->
     tp = false /\ ts = false /\ sl = false /\ timeout = false) /\
  shouldClose order p = tp || ts || sl || timeout.
Proof.
  intros Ht tp ts sl timeout. unfold shouldClose, exitBranch. rewrite Ht.
  fold tp. fold ts. fold sl. fold timeout.
  destruct tp, ts, sl, timeout; simpl;
    repeat split; intros; try discriminate; try reflexivity;
    repeat match goal with H : _ /\ _ |- _ => destruct H end;
    try discriminate.
Qed.

(** The same for a short position, with the comparisons mirrored. *)
Lemma exitBranch_short_priority (order : LocalOrder) (p : float) :
  orderType order = OrderTypeShort ->
  let tp := p <=. TakeProfit order in
  let ts := TrailingEnabled order && (p >=. TrailingStopLoss order) in
  let sl := p >=. StopLoss order in
  let timeout := (BarsHeld order >=? MaxHoldBars order)%Z in
  (exitBranch order p = Some ExitTakeProfit <-> tp = true) /\
  (exitBranch order p = Some ExitTrailingStop <-> tp = false /\ ts = true) /\
  (exitBranch order p = Some ExitStopLoss <->
     tp = false /\ ts = false /\ sl = true) /\
  (exitBranch order p = Some ExitTimeout <->
     tp = false /\ ts = false /\ sl = false /\ timeout = true) /\
  (exitBranch order p = None <->
     tp = false /\ ts = false /\ sl = false /\ timeout = false) /\
  shouldClose order p = tp || ts || sl || timeout.
Proof.
  intros Ht tp ts sl timeout. unfold shouldClose, exitBranch. rewrite Ht.
  fold tp. fold ts. fold sl. fold timeout.
  destruct tp, ts, sl, timeout; simpl;
    repeat split; intros; try discriminate; try reflexivity;
    repeat match goal with H : _ /\ _ |- _ => destruct H end;
    try discriminate.
Qed.

(** What [updateOrder] leaves alone. *)
Lemma updateOrder_fixed (p : float) (order : LocalOrder) :
  let order' := updateOrder p order in
  ID order' = ID order /\ Symbol order' = Symbol order /\
  orderType order' = orderType order /\
  EntryPrice order' = EntryPrice order /\
  ExitPrice order' = ExitPrice order /\
  Quantity order' = Quantity order /\ Status order' = Status order /\
  StopLoss order' = StopLoss order /\ TakeProfit order' = TakeProfit order /\
  TrailingPct order' = TrailingPct order /\
  MaxHoldBars order' = MaxHoldBars order /\
  BarsHeld order' = int64 (BarsHeld order + 1) /\
  PnL order' = PnL order /\ PnLPercent order' = PnLPercent order /\
  TradingFee order' = TradingFee order /\ FundingFee order' = FundingFee order.
Proof.
  unfold updateOrder.
  repeat match goal with
    | |- context [if ?c then _ else _] => destruct c; simpl
    | |- context [match orderType ?o with _ => _ end] =>
        destruct (orderType o); simpl
    end; repeat split; reflexivity.
Qed.

Lemma f64_lt_not_ge (x y : float) : (x <. y) = true -> (x >=. y) = false.
Proof. intros. fkeys. Qed.

(** The fixture of the specification: a long position entered at 100 with
    the stop-loss at 99.75 and the take-profit at 100.6.  On any price
    update the take-profit arm is taken exactly at prices [>= 100.6]; the
    static stop-loss test is [price <= 99.75], and at such a price the
    position is closed, never by the take-profit or the timeout arm. *)
Lemma longAt100_thresholds (p : float) :
  let order := updateOrder p longAt100 in
  TakeProfit order = 100.6 /\ StopLoss order = 99.75 /\
  (exitBranch order p = Some ExitTakeProfit <-> (p >=. 100.6) = true) /\
  (exitBranch order p = Some ExitStopLoss <->
     (p >=. 100.6) = false /\
     TrailingEnabled order && (p <=. TrailingStopLoss order) = false /\
     (p <=. 99.75) = true) /\
  ((p <=. 99.75) = true ->
     shouldClose order p = true /\
     (exitBranch order p = Some ExitTrailingStop \/
      exitBranch order p = Some ExitStopLoss)).
Proof.
  intros order.
  destruct (updateOrder_fixed p longAt100)
    as (_ & _ & Ht & _ & _ & _ & _ & Hsl & Htp & _).
  fold order in Ht, Hsl, Htp.
  change (orderType longAt100) with OrderTypeLong in Ht.
  change (StopLoss longAt100) with 99.75 in Hsl.
  change (TakeProfit longAt100) with 100.6 in Htp.
  destruct (exitBranch_long_priority order p Ht)
    as (H1 & H2 & H3 & H4 & H5 & H6).
  rewrite Hsl, Htp in *.
  split; [reflexivity|]. split; [reflexivity|].
  split; [exact H1|]. split; [exact H3|].
  intros Hle.
  assert (Htp' : (p >=. 100.6) = false).
  { apply f64_lt_not_ge. apply (f64_le_lt_trans _ 99.75); [exact Hle | reflexivity]. }
  rewrite H6, Htp', Hle.
  destruct (TrailingEnabled order && (p <=. TrailingStopLoss order)) eqn:E.
  - split; [reflexivity|]. left. apply H2. auto.
  - split; [reflexivity|]. right. apply H3. auto.
Qed.

(** The counter.  While a position is held its counter is below
    [MaxHoldBars]; on the next update the timeout arm is taken exactly when
    no price condition holds and the counter reaches [MaxHoldBars], and a
    position that stays open keeps its counter below [MaxHoldBars]. *)
Lemma timeout_exactly_at_MaxHoldBars (order : LocalOrder) (p : float) :
  (0 <= BarsHeld order < MaxHoldBars order)%Z ->
  (MaxHoldBars order < 2 ^ 62)%Z ->
  let order' := updateOrder p order in
  BarsHeld order' = (BarsHeld order + 1)%Z /\
  (exitBranch order' p = Some ExitTimeout ->
     BarsHeld order' = MaxHoldBars order') /\
  (exitBranch order' p = None ->
     (0 <= BarsHeld order' < MaxHoldBars order')%Z) /\
  (BarsHeld order' = MaxHoldBars order' -> shouldClose order' p = true).
Proof.
  intros Hb Hm order'.
  destruct (updateOrder_fixed p order)
    as (_ & _ & Ht & _ & _ & _ & _ & _ & _ & _ & Hmax & Hbars & _).
  fold order' in Ht, Hmax, Hbars.
  rewrite int64_small in Hbars by lia.
  split; [exact Hbars|].
  unfold shouldClose, exitBranch. rewrite Hmax, Hbars.
  destruct (orderType order');
    repeat match goal with
      | |- context [if ?c then _ else _] =>
          let E := fresh "E" in destruct c eqn:E
      end;
    repeat split; intros; try discriminate; try reflexivity; try lia.
Qed.

(** A manager with a single open position (the reference configuration):
    a price update runs the loop body on it once, and closes it at the
    price when the exit test says so. *)
Lemma CheckStopLossTakeProfit_single (om : OrderManager) (orderID : string)
  (order : LocalOrder) (p : float) :
  openOrders om = [orderID] ->
  orders om !! orderID = Some order ->
  Status order = OrderStatusOpen ->
  let order' := updateOrder p order in
  let om1 := set_orders om (<[orderID := order']> (orders om)) in
  CheckStopLossTakeProfit om p =
  if shouldClose order' p
  then Some (fst (CloseOrder om1 orderID p 0 0), [orderID])
  else Some (om1, []).
Proof.
  intros Hl Hlk Hst order' om1.
  unfold CheckStopLossTakeProfit. rewrite Hl. simpl.
  unfold checkStep. simpl. rewrite Hl. simpl. rewrite Hlk, Hst. simpl.
  fold order'. fold om1.
  destruct (shouldClose order' p); reflexivity.
Qed.

(** C2 fails on the code.  With three open long positions [a], [b], [c],
    a price update at 100.6 closes [a] by its take-profit.  [CloseOrder]
    moves [b] and [c] one place down in the array the loop is reading, so
    the loop goes on with [c], twice: [b] is not looked at in this update
    (it is still the order as it was opened, counter 0) and stays open
    although the price has reached its take-profit and the exit test would
    close it, and the counter of [c] is 2 after one update. *)
Theorem C2_position_skipped :
  let r := CheckStopLossTakeProfit threeLongs 100.6 in
  let orderAfter (orderID : string) :=
    match r with
    | Some (om', _) => orders om' !! orderID
    | None => None
    end in
  openOrders threeLongs = ["a"; "b"; "c"]%string /\
  (snd <$> r) = Some ["a"%string] /\
  ((fun x => openOrders (fst x)) <$> r) = Some ["b"; "c"]%string /\
  (Status <$> orderAfter "a"%string) = Some OrderStatusClosed /\
  orderAfter "b"%string
    = Some (newOrder OrderTypeLong "b" "BTC" 100 1 99.75 100.6) /\
  exitBranch
    (updateOrder 100.6 (newOrder OrderTypeLong "b" "BTC" 100 1 99.75 100.6))
    100.6 = Some ExitTakeProfit /\
  (Status <$> orderAfter "c"%string) = Some OrderStatusOpen /\
  (BarsHeld <$> orderAfter "c"%string) = Some 2%Z.
Proof. vm_compute. repeat split; reflexivity. Qed.

End ExitTest.

(* ===================================================================== *)
(** * Part XIV.  The trailing stop                                        *)
(* ===================================================================== *)

Section TrailingStop.
Import models trading lifecycle fixtures.
Local Open Scope float_scope.

Lemma noHigher_refl (a : float) : noHigher a a.
Proof. left. reflexivity. Qed.

Lemma noHigher_trans (a b c : float) :
  noHigher a b -> noHigher b c -> noHigher a c.
Proof. apply up_trans. Qed.

Lemma noHigher_le (a b : float) :
  noHigher a b -> F64.IsNaN a = false -> (a <=. b) = true.
Proof.
  intros [<-|H] Hn; [apply f64_le_refl; exact Hn | apply f64_lt_le; exact H].
Qed.

Lemma noHigher_le_r (a b : float) :
  noHigher a b -> F64.IsNaN b = false -> (a <=. b) = true.
Proof.
  intros [->|H] Hn; [apply f64_le_refl; exact Hn | apply f64_lt_le; exact H].
Qed.

Lemma f64_lt_irrefl (x : float) : (x <. x) = false.
Proof. fkeys. Qed.

Lemma f64_gt_irrefl (x : float) : (x >. x) = false.
Proof. fkeys. Qed.

Lemma ratchets_refl (o : LocalOrder) : ratchets o o.
Proof.
  split; [reflexivity|]. intros H. split; [exact H|].
  destruct (orderType o); apply noHigher_refl.
Qed.

Lemma ratchets_trans (o1 o2 o3 : LocalOrder) :
  ratchets o1 o2 -> ratchets o2 o3 -> ratchets o1 o3.
Proof.
  intros [T12 H12] [T23 H23]. split; [congruence|].
  intros E1. destruct (H12 E1) as [E2 N12]. destruct (H23 E2) as [E3 N23].
  split; [exact E3|]. rewrite T12 in N23.
  destruct (orderType o1); eapply noHigher_trans; eassumption.
Qed.

(** With the trailing stop enabled, the loop body only moves it in the
    position's favour. *)
Lemma updateOrder_ratchets (p : float) (order : LocalOrder) :
  ratchets order (updateOrder p order).
Proof.
  destruct (updateOrder_fixed p order) as (_ & _ & Ht & _).
  split; [exact Ht|]. intros He.
  unfold updateOrder.
  set (o1 := set_BarsHeld order (int64 (BarsHeld order + 1))).
  set (o2 := if p >. HighestPrice o1 then set_HighestPrice o1 p else o1).
  set (o3 := if p <. LowestPrice o2 then set_LowestPrice o2 p else o2).
  assert (H3 : TrailingEnabled o3 = true /\
               TrailingStopLoss o3 = TrailingStopLoss order /\
               orderType o3 = orderType order /\
               TrailingPct o3 = TrailingPct order).
  { unfold o3, o2, o1.
    destruct (p >. HighestPrice _); destruct (p <. LowestPrice _);
      simpl; auto. }
  destruct H3 as (E3 & S3 & T3 & P3).
  rewrite E3. simpl. rewrite E3, T3.
  destruct (orderType order); simpl.
  - destruct (p * (1 - TrailingPct o3) >. TrailingStopLoss o3) eqn:E;
      simpl; rewrite ?E3.
    + split; [reflexivity|]. right. rewrite <- S3. exact E.
    + split; [reflexivity|]. left. symmetry. exact S3.
  - destruct (p * (1 + TrailingPct o3) <. TrailingStopLoss o3) eqn:E;
      simpl; rewrite ?E3.
    + split; [reflexivity|]. right. rewrite <- S3. exact E.
    + split; [reflexivity|]. left. exact S3.
Qed.

(** How the trailing stop gets enabled: on the update at which the profit
    fraction reaches half of the take-profit fraction, and then it is
    seeded at [price * (1 - TrailingPct)] for a long position,
    [price * (1 + TrailingPct)] for a short one. *)
Lemma updateOrder_enables (p : float) (order : LocalOrder) :
  TrailingEnabled order = false ->
  let order' := updateOrder p order in
  match orderType order with
  | OrderTypeLong =>
      TrailingEnabled order'
        = ((p - EntryPrice order) / EntryPrice order
           >=. (TakeProfit order - EntryPrice order) / EntryPrice order * 0.5)
      /\ (TrailingEnabled order' = true ->
          TrailingStopLoss order' = p * (1 - TrailingPct order))
  | OrderTypeShort =>
      TrailingEnabled order'
        = ((EntryPrice order - p) / EntryPrice order
           >=. (EntryPrice order - TakeProfit order) / EntryPrice order * 0.5)
      /\ (TrailingEnabled order' = true ->
          TrailingStopLoss order' = p * (1 + TrailingPct order))
  end.
Proof.
  intros He order'. unfold order', updateOrder.
  set (o1 := set_BarsHeld order (int64 (BarsHeld order + 1))).
  set (o2 := if p >. HighestPrice o1 then set_HighestPrice o1 p else o1).
  set (o3 := if p <. LowestPrice o2 then set_LowestPrice o2 p else o2).
  assert (H3 : TrailingEnabled o3 = false /\
               orderType o3 = orderType order /\
               TrailingPct o3 = TrailingPct order /\
               EntryPrice o3 = EntryPrice order /\
               TakeProfit o3 = TakeProfit order).
  { unfold o3, o2, o1.
    destruct (p >. HighestPrice _); destruct (p <. LowestPrice _);
      simpl; auto. }
  destruct H3 as (E3 & T3 & P3 & N3 & K3).
  rewrite E3. simpl. rewrite T3, N3, K3, P3.
  destruct (orderType order); simpl.
  - destruct (_ >=. _) eqn:E; simpl; rewrite ?T3, ?E3; simpl.
    + rewrite ?P3, f64_gt_irrefl. simpl. split; [reflexivity|]. intros _. reflexivity.
    + split; [reflexivity|]. discriminate.
  - destruct (_ >=. _) eqn:E; simpl; rewrite ?T3, ?E3; simpl.
    + rewrite ?P3, f64_lt_irrefl. simpl. split; [reflexivity|]. intros _. reflexivity.
    + split; [reflexivity|]. discriminate.
Qed.

(** Closing an order does not touch a trailing stop. *)
Lemma CloseOrder_ratchets (om : OrderManager) (orderID : string)
  (exitPrice tradingFee fundingFee : float) (x : string) (o : LocalOrder) :
  orders om !! x = Some o ->
  exists o',
    orders (fst (CloseOrder om orderID exitPrice tradingFee fundingFee)) !! x
      = Some o' /\ ratchets o o'.
Proof.
  intros Hx. unfold CloseOrder.
  destruct (orders om !! orderID) as [order|] eqn:Hlk;
    [|exists o; split; [exact Hx | apply ratchets_refl]].
  destruct (isOpen (Status order)); simpl;
    [|exists o; split; [exact Hx | apply ratchets_refl]].
  destruct (decide (orderID = x)) as [->|Hne].
  - rewrite lookup_insert_eq. eexists. split; [reflexivity|].
    rewrite Hx in Hlk. injection Hlk as ->.
    split; [reflexivity|]. simpl. intros He. split; [exact He|].
    destruct (orderType order); apply noHigher_refl.
  - rewrite lookup_insert_ne by exact Hne.
    exists o. split; [exact Hx | apply ratchets_refl].
Qed.

Lemma checkStep_ratchets (p : float) (st st' : LoopState) (i : nat)
  (x : string) (o : LocalOrder) :
  checkStep p st i = Some st' ->
  orders (ls_om st) !! x = Some o ->
  exists o', orders (ls_om st') !! x = Some o' /\ ratchets o o'.
Proof.
  unfold checkStep. intros Hstep Hx.
  destruct (ls_backing st !! i) as [orderID|]; [|discriminate].
  destruct (orders (ls_om st) !! orderID) as [order|] eqn:Hlk;
    [|discriminate].
  destruct (isOpen (Status order)); simpl in Hstep.
  2:{ injection Hstep as <-. exists o. split; [exact Hx|apply ratchets_refl]. }
  set (om1 := set_orders (ls_om st)
                (<[orderID := updateOrder p order]> (orders (ls_om st))))
    in Hstep.
  assert (H1 : exists o1, orders om1 !! x = Some o1 /\ ratchets o o1).
  { unfold om1. simpl. destruct (decide (orderID = x)) as [->|Hne].
    - rewrite lookup_insert_eq. eexists. split; [reflexivity|].
      rewrite Hx in Hlk. injection Hlk as ->. apply updateOrder_ratchets.
    - rewrite lookup_insert_ne by exact Hne.
      exists o. split; [exact Hx | apply ratchets_refl]. }
  destruct H1 as (o1 & Hx1 & R1).
  destruct (shouldClose (updateOrder p order) p);
    injection Hstep as <-; simpl.
  - destruct (CloseOrder_ratchets om1 orderID p 0 0 x o1 Hx1)
      as (o2 & Hx2 & R2).
    exists o2. split; [exact Hx2 | eapply ratchets_trans; eassumption].
  - exists o1. split; assumption.
Qed.

Lemma checkLoop_ratchets (p : float) (idxs : list nat) :
  forall (st st' : LoopState) (x : string) (o : LocalOrder),
    checkLoop p st idxs = Some st' ->
    orders (ls_om st) !! x = Some o ->
    exists o', orders (ls_om st') !! x = Some o' /\ ratchets o o'.
Proof.
  induction idxs as [|i idxs IH]; intros st st' x o Hloop Hx; simpl in Hloop.
  - injection Hloop as <-. exists o. split; [exact Hx|apply ratchets_refl].
  - destruct (checkStep p st i) as [st1|] eqn:Hstep; [|discriminate].
    destruct (checkStep_ratchets p st st1 i x o Hstep Hx) as (o1 & Hx1 & R1).
    destruct (IH st1 st' x o1 Hloop Hx1) as (o2 & Hx2 & R2).
    exists o2. split; [exact Hx2 | eapply ratchets_trans; eassumption].
Qed.

Lemma CheckStopLossTakeProfit_ratchets (om om' : OrderManager) (p : float)
  (closed : list string) (x : string) (o : LocalOrder) :
  CheckStopLossTakeProfit om p = Some (om', closed) ->
  orders om !! x = Some o ->
  exists o', orders om' !! x = Some o' /\ ratchets o o'.
Proof.
  unfold CheckStopLossTakeProfit. intros H Hx.
  destruct (checkLoop p _ _) as [st|] eqn:Hloop; [|discriminate].
  injection H as <- <-.
  exact (checkLoop_ratchets p _ _ st x o Hloop Hx).
Qed.

Lemma priceUpdates_ratchets (prices : list float) :
  forall (om om' : OrderManager) (x : string) (o : LocalOrder),
    priceUpdates om prices = Some om' ->
    orders om !! x = Some o ->
    exists o', orders om' !! x = Some o' /\ ratchets o o'.
Proof.
  induction prices as [|p ps IH]; intros om om' x o Hrun Hx; simpl in Hrun.
  - injection Hrun as <-. exists o. split; [exact Hx|apply ratchets_refl].
  - destruct (CheckStopLossTakeProfit om p) as [[om1 cl]|] eqn:Hc;
      [|discriminate].
    destruct (CheckStopLossTakeProfit_ratchets om om1 p cl x o Hc Hx)
      as (o1 & Hx1 & R1).
    destruct (IH om1 om' x o1 Hrun Hx1) as (o2 & Hx2 & R2).
    exists o2. split; [exact Hx2 | eapply ratchets_trans; eassumption].
Qed.

(** ** Trailing stops of the orders a manager holds *)

Lemma soundTrailing_newOrder (t : OrderType) (orderID symbol : string)
  (entryPrice quantity stopLoss takeProfit : float) :
  soundTrailing
    (newOrder t orderID symbol entryPrice quantity stopLoss takeProfit).
Proof. split; [reflexivity | discriminate]. Qed.

Lemma mul_long_factor_number (p : float) :
  F64.IsNaN p = false -> F64.IsNaN (p * (1 - 0.002)) = false.
Proof.
  assert (H : exists s m e, Prim2SF (1 - 0.002) = S754_finite s m e)
    by (vm_compute; do 3 eexists; reflexivity).
  destruct H as (s & m & e & H).
  exact (mul_finite_not_nan p _ s m e H).
Qed.

Lemma mul_short_factor_number (p : float) :
  F64.IsNaN p = false -> F64.IsNaN (p * (1 + 0.002)) = false.
Proof.
  assert (H : exists s m e, Prim2SF (1 + 0.002) = S754_finite s m e)
    by (vm_compute; do 3 eexists; reflexivity).
  destruct H as (s & m & e & H).
  exact (mul_finite_not_nan p _ s m e H).
Qed.

Lemma updateOrder_soundTrailing (p : float) (order : LocalOrder) :
  soundTrailing order -> soundTrailing (updateOrder p order).
Proof.
  intros [Hpct Hnum].
  destruct (updateOrder_fixed p order)
    as (_ & _ & _ & _ & _ & _ & _ & _ & _ & Hpct' & _).
  split; [congruence|]. clear Hpct'.
  unfold updateOrder.
  set (o1 := set_BarsHeld order (int64 (BarsHeld order + 1))).
  set (o2 := if p >. HighestPrice o1 then set_HighestPrice o1 p else o1).
  set (o3 := if p <. LowestPrice o2 then set_LowestPrice o2 p else o2).
  assert (H3 : TrailingEnabled o3 = TrailingEnabled order /\
               TrailingStopLoss o3 = TrailingStopLoss order /\
               orderType o3 = orderType order /\
               TrailingPct o3 = 0.002 /\
               EntryPrice o3 = EntryPrice order).
  { unfold o3, o2, o1.
    destruct (p >. HighestPrice _); destruct (p <. LowestPrice _);
      simpl; auto. }
  destruct H3 as (E3 & S3 & T3 & P3 & N3).
  rewrite E3.
  destruct (TrailingEnabled order) eqn:He; simpl.
  - rewrite ?E3, ?T3, ?S3, ?P3. specialize (Hnum eq_refl).
    destruct (orderType order); simpl.
    + destruct (p * _ >. TrailingStopLoss order) eqn:E; simpl; intros _;
        [exact (gt_number_l _ _ E) | rewrite S3; exact Hnum].
    + destruct (p * _ <. TrailingStopLoss order) eqn:E; simpl; intros _;
        [exact (lt_number_l _ _ E) | rewrite S3; exact Hnum].
  - rewrite ?T3, ?N3. destruct (orderType order) eqn:Ht; simpl.
    + destruct (_ / _ >=. _) eqn:E; simpl; rewrite ?T3, ?P3; simpl.
      * rewrite f64_gt_irrefl. simpl. intros _.
        apply mul_long_factor_number.
        destruct (F64.IsNaN p) eqn:Hp; [|reflexivity].
        apply IsNaN_true in Hp. subst p.
        rewrite sub_nan_l, div_nan_l, ge_nan_l in E. discriminate.
      * rewrite !E3. discriminate.
    + destruct (_ / _ >=. _) eqn:E; simpl; rewrite ?T3, ?P3; simpl.
      * rewrite f64_lt_irrefl. simpl. intros _.
        apply mul_short_factor_number.
        destruct (F64.IsNaN p) eqn:Hp; [|reflexivity].
        apply IsNaN_true in Hp. subst p.
        rewrite sub_nan_r, div_nan_l, ge_nan_l in E. discriminate.
      * rewrite !E3. discriminate.
Qed.

Lemma allSound_insert (om : OrderManager) (orderID : string)
  (o : LocalOrder) (l : list string) (t : float) :
  allSound om -> soundTrailing o ->
  allSound (mkOrderManager (<[orderID := o]> (orders om)) l t).
Proof.
  intros Ha Ho x o'. simpl. destruct (decide (orderID = x)) as [->|Hne].
  - rewrite lookup_insert_eq. intros [= <-]. exact Ho.
  - rewrite lookup_insert_ne by exact Hne. apply Ha.
Qed.

Lemma allSound_CloseOrder (om : OrderManager) (orderID : string)
  (exitPrice tradingFee fundingFee : float) :
  allSound om ->
  allSound (fst (CloseOrder om orderID exitPrice tradingFee fundingFee)).
Proof.
  intros Ha. unfold CloseOrder.
  destruct (orders om !! orderID) as [o|] eqn:Hlk; [|exact Ha].
  destruct (isOpen (Status o)); simpl; [|exact Ha].
  apply allSound_insert; [exact Ha|]. exact (Ha _ _ Hlk).
Qed.

Lemma allSound_UpdateOrderID (om : OrderManager) (oldID newID : string) :
  allSound om -> allSound (UpdateOrderID om oldID newID).
Proof.
  intros Ha. unfold UpdateOrderID.
  destruct (orders om !! oldID) as [o|] eqn:Hlk; [|exact Ha].
  intros x o'. simpl. destruct (decide (x = oldID)) as [->|Hxo].
  - rewrite lookup_delete_eq. discriminate.
  - rewrite lookup_delete_ne by congruence.
    destruct (decide (newID = x)) as [->|Hne].
    + rewrite lookup_insert_eq. intros [= <-]. exact (Ha _ _ Hlk).
    + rewrite lookup_insert_ne by exact Hne. apply Ha.
Qed.

Lemma allSound_checkStep (p : float) (st st' : LoopState) (i : nat) :
  checkStep p st i = Some st' ->
  allSound (ls_om st) -> allSound (ls_om st').
Proof.
  unfold checkStep. intros Hstep Ha.
  destruct (ls_backing st !! i) as [orderID|]; [|discriminate].
  destruct (orders (ls_om st) !! orderID) as [order|] eqn:Hlk;
    [|discriminate].
  destruct (isOpen (Status order)); simpl in Hstep;
    [|injection Hstep as <-; exact Ha].
  assert (H1 : allSound (set_orders (ls_om st)
                 (<[orderID := updateOrder p order]> (orders (ls_om st))))).
  { apply allSound_insert; [exact Ha|].
    apply updateOrder_soundTrailing. exact (Ha _ _ Hlk). }
  destruct (shouldClose (updateOrder p order) p);
    injection Hstep as <-; simpl.
  - apply allSound_CloseOrder. exact H1.
  - exact H1.
Qed.

Lemma allSound_checkLoop (p : float) (idxs : list nat) :
  forall st st',
    checkLoop p st idxs = Some st' ->
    allSound (ls_om st) -> allSound (ls_om st').
Proof.
  induction idxs as [|i idxs IH]; intros st st' Hloop Ha; simpl in Hloop.
  - injection Hloop as <-. exact Ha.
  - destruct (checkStep p st i) as [st1|] eqn:Hstep; [|discriminate].
    exact (IH st1 st' Hloop (allSound_checkStep p st st1 i Hstep Ha)).
Qed.

Lemma allSound_applyOp (om om' : OrderManager) (op : Op) :
  applyOp om op = Some om' -> allSound om -> allSound om'.
Proof.
  intros Hop Ha. destruct op; simpl in Hop.
  - injection Hop as <-. apply allSound_insert;
      [exact Ha | apply soundTrailing_newOrder].
  - injection Hop as <-. apply allSound_insert;
      [exact Ha | apply soundTrailing_newOrder].
  - injection Hop as <-. apply allSound_CloseOrder. exact Ha.
  - injection Hop as <-. apply allSound_UpdateOrderID. exact Ha.
  - unfold CheckStopLossTakeProfit in Hop.
    destruct (checkLoop currentPrice _ _) as [st|] eqn:Hloop;
      [|discriminate].
    injection Hop as <-.
    exact (allSound_checkLoop _ _ _ _ Hloop Ha).
Qed.

(** Every order of a manager that was built through its calls has a sound
    trailing stop. *)
Lemma allSound_run (ops : list Op) :
  forall om om', run om ops = Some om' -> allSound om -> allSound om'.
Proof.
  induction ops as [|op ops IH]; intros om om' Hrun Ha; simpl in Hrun.
  - injection Hrun as <-. exact Ha.
  - destruct (applyOp om op) as [om1|] eqn:Hop; [|discriminate].
    exact (IH om1 om' Hrun (allSound_applyOp om om1 op Hop Ha)).
Qed.

Lemma allSound_NewOrderManager : allSound NewOrderManager.
Proof. intros x o H. simpl in H. rewrite lookup_empty in H. discriminate. Qed.

(** C3.  On a manager built through its calls, an order whose trailing
    stop is enabled keeps it enabled through any sequence of price updates,
    with rises and dips alike and whether or not the order gets closed on
    the way, and over the sequence the trailing-stop price of a long order
    does not decrease ([<=]) and that of a short order does not increase.
    The same holds on any manager whatever, in this form: the trailing-stop
    price stays or ends strictly higher (lower for a short order), which is
    [<=] whenever it is a number.  The trailing stop is enabled by the
    update at which the profit fraction reaches half of the take-profit
    fraction, and is seeded there at [price * (1 - TrailingPct)] for a long
    order, [price * (1 + TrailingPct)] for a short one. *)
Theorem C3_trailing_stop_only_tightens :
  (forall (ops : list Op) (om om' : OrderManager) (prices : list float)
          (orderID : string) (order : LocalOrder),
     run NewOrderManager ops = Some om ->
     priceUpdates om prices = Some om' ->
     orders om !! orderID = Some order ->
     TrailingEnabled order = true ->
     exists order',
       orders om' !! orderID = Some order' /\
       orderType order' = orderType order /\
       TrailingEnabled order' = true /\
       match orderType order with
       | OrderTypeLong =>
           (TrailingStopLoss order <=. TrailingStopLoss order') = true
       | OrderTypeShort =>
           (TrailingStopLoss order' <=. TrailingStopLoss order) = true
       end) /\
  (forall (om om' : OrderManager) (prices : list float) (orderID : string)
          (order : LocalOrder),
     priceUpdates om prices = Some om' ->
     orders om !! orderID = Some order ->
     TrailingEnabled order = true ->
     exists order',
       orders om' !! orderID = Some order' /\
       orderType order' = orderType order /\
       TrailingEnabled order' = true /\
       match orderType order with
       | OrderTypeLong =>
           noHigher (TrailingStopLoss order) (TrailingStopLoss order')
       | OrderTypeShort =>
           noHigher (TrailingStopLoss order') (TrailingStopLoss order)
       end) /\
  (forall (p : float) (order : LocalOrder),
     TrailingEnabled order = false ->
     match orderType order with
     | OrderTypeLong =>
         TrailingEnabled (updateOrder p order)
         = ((p - EntryPrice order) / EntryPrice order
            >=. (TakeProfit order - EntryPrice order) / EntryPrice order
                * 0.5)
         /\ (TrailingEnabled (updateOrder p order) = true ->
             TrailingStopLoss (updateOrder p order)
             = p * (1 - TrailingPct order))
     | OrderTypeShort =>
         TrailingEnabled (updateOrder p order)
         = ((EntryPrice order - p) / EntryPrice order
            >=. (EntryPrice order - TakeProfit order) / EntryPrice order
                * 0.5)
         /\ (TrailingEnabled (updateOrder p order) = true ->
             TrailingStopLoss (updateOrder p order)
             = p * (1 + TrailingPct order))
     end).
Proof.
  assert (General :
    forall (om om' : OrderManager) (prices : list float) (orderID : string)
           (order : LocalOrder),
      priceUpdates om prices = Some om' ->
      orders om !! orderID = Some order ->
      TrailingEnabled order = true ->
      exists order',
        orders om' !! orderID = Some order' /\
        orderType order' = orderType order /\
        TrailingEnabled order' = true /\
        match orderType order with
        | OrderTypeLong =>
            noHigher (TrailingStopLoss order) (TrailingStopLoss order')
        | OrderTypeShort =>
            noHigher (TrailingStopLoss order') (TrailingStopLoss order)
        end).
  { intros om om' prices orderID order Hrun Hlk He.
    destruct (priceUpdates_ratchets prices om om' orderID order Hrun Hlk)
      as (order' & Hlk' & Ht & Hr).
    destruct (Hr He) as [He' Hn].
    exists order'. auto. }
  split; [|split; [exact General|]].
  - intros ops om om' prices orderID order Hops Hrun Hlk He.
    destruct (General om om' prices orderID order Hrun Hlk He)
      as (order' & Hlk' & Ht & He' & Hn).
    exists order'. split; [exact Hlk'|]. split; [exact Ht|].
    split; [exact He'|].
    pose proof (allSound_run ops _ _ Hops allSound_NewOrderManager) as Ha.
    destruct (Ha _ _ Hlk) as [_ Hnum]. specialize (Hnum He).
    destruct (orderType order).
    + apply noHigher_le; assumption.
    + apply noHigher_le_r; assumption.
  - intros p order He. exact (updateOrder_enables p order He).
Qed.

(** C3 at work: the position of [oneLongTrailing] has its trailing stop at
    [100.4 * 0.998]; after a rise to 100.5 and a dip to 100.45 the trailing
    stop is still enabled and not below that. *)
Lemma C3_trailing_stop_only_tightens_witness :
  exists order order',
    orders oneLongTrailing !! "a"%string = Some order /\
    TrailingStopLoss order = 100.4 * (1 - 0.002) /\
    match priceUpdates oneLongTrailing [100.5; 100.45] with
    | Some om' => orders om' !! "a"%string
    | None => None
    end = Some order' /\
    TrailingEnabled order' = true /\
    (TrailingStopLoss order <=. TrailingStopLoss order') = true.
Proof.
  destruct (orders oneLongTrailing !! "a"%string) as [order|] eqn:Hlk;
    [|exfalso; vm_compute in Hlk; discriminate].
  assert (He : Some (TrailingEnabled order) = Some true).
  { change (Some (TrailingEnabled order))
      with (TrailingEnabled <$> Some order).
    rewrite <- Hlk. vm_compute. reflexivity. }
  assert (Hs : Some (TrailingStopLoss order) = Some (100.4 * (1 - 0.002))).
  { change (Some (TrailingStopLoss order))
      with (TrailingStopLoss <$> Some order).
    rewrite <- Hlk. vm_compute. reflexivity. }
  assert (Ht : Some (orderType order) = Some OrderTypeLong).
  { change (Some (orderType order)) with (orderType <$> Some order).
    rewrite <- Hlk. vm_compute. reflexivity. }
  injection He as He. injection Hs as Hs. injection Ht as Ht.
  destruct (priceUpdates oneLongTrailing [100.5; 100.45]) as [om'|] eqn:Hrun;
    [|exfalso; vm_compute in Hrun; discriminate].
  assert (Hops : run NewOrderManager
                   [OpOpenLong "a" "BTC" 100 1 99.75 100.6; OpCheck 100.4]
                 = Some oneLongTrailing).
  { unfold oneLongTrailing, oneLong. simpl.
    destruct (CheckStopLossTakeProfit _ 100.4) as [[om1 cl]|] eqn:E;
      [reflexivity | exfalso; vm_compute in E; discriminate]. }
  destruct (proj1 C3_trailing_stop_only_tightens _ oneLongTrailing om'
              [100.5; 100.45] "a"%string order Hops Hrun Hlk He)
    as (order' & Hlk' & _ & He' & Hm).
  rewrite Ht in Hm.
  exists order, order'.
  split; [reflexivity|]. split; [exact Hs|]. split; [exact Hlk'|].
  split; [exact He' | exact Hm].
Defined.

End TrailingStop.

(* ===================================================================== *)
(** * Part XV.  The books of the order manager                            *)
(* ===================================================================== *)

Section Books.
Import models trading lifecycle fixtures.
Local Open Scope float_scope.

(** ** Sums of PnL *)

Lemma fold_pnl_ext (om om' : OrderManager) (l : list string) :
  (forall x, x ∈ l -> pnlOf om x = pnlOf om' x) ->
  forall acc,
    fold_left (fun a x => a + pnlOf om x) l acc
    = fold_left (fun a x => a + pnlOf om' x) l acc.
Proof.
  induction l as [|y l IH]; intros H acc; simpl; [reflexivity|].
  rewrite (H y) by (apply elem_of_cons; auto).
  apply IH. intros x Hx. apply H. apply elem_of_cons. auto.
Qed.

Lemma sumPnL_ext (om om' : OrderManager) (l : list string) :
  (forall x, x ∈ l -> pnlOf om x = pnlOf om' x) ->
  sumPnL om l = sumPnL om' l.
Proof. intros H. apply fold_pnl_ext. exact H. Qed.

Lemma sumPnL_snoc (om : OrderManager) (l : list string) (x : string) :
  sumPnL om (l ++ [x]) = sumPnL om l + pnlOf om x.
Proof. unfold sumPnL. rewrite fold_left_app. reflexivity. Qed.

Lemma fold_pnl_map (om om' : OrderManager) (f : string -> string)
  (l : list string) :
  (forall x, x ∈ l -> pnlOf om' (f x) = pnlOf om x) ->
  forall acc,
    fold_left (fun a x => a + pnlOf om' x) (map f l) acc
    = fold_left (fun a x => a + pnlOf om x) l acc.
Proof.
  induction l as [|y l IH]; intros H acc; simpl; [reflexivity|].
  rewrite (H y) by (apply elem_of_cons; auto).
  apply IH. intros x Hx. apply H. apply elem_of_cons. auto.
Qed.

(** ** The list of open IDs *)

Lemma renameFirst_elem (l : list string) (oldID newID x : string) :
  NoDup l ->
  x ∈ renameFirst l oldID newID <->
  (x = newID /\ oldID ∈ l) \/ (x ∈ l /\ x <> oldID).
Proof.
  induction l as [|y l IH]; intros Hnd; simpl.
  - split; [intros H; inversion H | intros [[_ H]|[H _]]; inversion H].
  - apply NoDup_cons in Hnd. destruct Hnd as [Hy Hnd].
    destruct (String.eqb_spec y oldID) as [->|Hne].
    + rewrite !elem_of_cons. split.
      * intros [->|Hx]; [left; auto|].
        right. split; [auto|]. intros ->. contradiction.
      * intros [[-> _]|[[->|Hx] Hn]]; auto. congruence.
    + rewrite !elem_of_cons, (IH Hnd). split.
      * intros [->|[[-> Ho]|[Hx Hn]]]; auto.
      * intros [[-> [->|Ho]]|[[->|Hx] Hn]]; auto. congruence.
Qed.

Lemma renameFirst_NoDup (l : list string) (oldID newID : string) :
  NoDup l -> newID ∉ l -> NoDup (renameFirst l oldID newID).
Proof.
  induction l as [|y l IH]; intros Hnd Hnew; simpl; [constructor|].
  apply NoDup_cons in Hnd. destruct Hnd as [Hy Hnd].
  apply not_elem_of_cons in Hnew. destruct Hnew as [Hny Hnl].
  destruct (String.eqb_spec y oldID) as [->|Hne].
  - apply NoDup_cons. auto.
  - apply NoDup_cons. split; [|auto].
    rewrite (renameFirst_elem l oldID newID y Hnd).
    intros [[-> _]|[Hx _]]; [congruence | contradiction].
Qed.

(** ** Each call keeps the books *)

Lemma hasStatus_insert (om : OrderManager) (orderID : string)
  (o : LocalOrder) (st : OrderStatus) (x : string)
  (l : list string) (t : float) :
  hasStatus (mkOrderManager (<[orderID := o]> (orders om)) l t) st x <->
  (x = orderID /\ Status o = st) \/ (x <> orderID /\ hasStatus om st x).
Proof.
  unfold hasStatus. simpl. destruct (decide (orderID = x)) as [->|Hne].
  - rewrite lookup_insert_eq. split.
    + intros (o' & [= <-] & Hs). auto.
    + intros [[_ Hs]|[Hn _]]; [eauto | congruence].
  - rewrite lookup_insert_ne by exact Hne. split.
    + intros H. right. split; [congruence | exact H].
    + intros [[-> _]|[_ H]]; [congruence | exact H].
Qed.

Lemma pnlOf_insert_ne (om : OrderManager) (orderID : string) (o : LocalOrder)
  (l : list string) (t : float) (x : string) :
  x <> orderID ->
  pnlOf (mkOrderManager (<[orderID := o]> (orders om)) l t) x = pnlOf om x.
Proof.
  intros Hne. unfold pnlOf. simpl.
  rewrite lookup_insert_ne by congruence. reflexivity.
Qed.

Lemma pnlOf_insert_eq (om : OrderManager) (orderID : string) (o : LocalOrder)
  (l : list string) (t : float) :
  pnlOf (mkOrderManager (<[orderID := o]> (orders om)) l t) orderID = PnL o.
Proof. unfold pnlOf. simpl. rewrite lookup_insert_eq. reflexivity. Qed.

(** A new open order under a new key. *)
Lemma Consistent_add_open (om : OrderManager) (orderID : string)
  (o : LocalOrder) :
  Consistent om -> orders om !! orderID = None ->
  Status o = OrderStatusOpen ->
  Consistent (mkOrderManager (<[orderID := o]> (orders om))
                (openOrders om ++ [orderID]) (totalPnL om)).
Proof.
  intros [Hnd Hex (cs & Hcnd & Hcs & Hsum)] Hnew Hst.
  assert (Hnot : forall st, ~ hasStatus om st orderID).
  { intros st (o' & Ho' & _). congruence. }
  constructor; simpl.
  - apply NoDup_app. split; [exact Hnd|]. split; [|apply NoDup_singleton].
    intros x Hx Hx'. apply list_elem_of_singleton in Hx'. subst x.
    apply Hex in Hx. exact (Hnot _ Hx).
  - intros x. rewrite elem_of_app, list_elem_of_singleton, hasStatus_insert.
    rewrite Hex. split.
    + intros [H| ->]; [|auto]. right. split; [|exact H].
      intros ->. exact (Hnot _ H).
    + intros [[-> _]|[_ H]]; auto.
  - exists cs. split; [exact Hcnd|]. split.
    + intros x. rewrite hasStatus_insert, Hcs. split.
      * intros H. right. split; [|exact H]. intros ->. exact (Hnot _ H).
      * intros [[_ E]|[_ H]]; [congruence | exact H].
    + rewrite Hsum. apply sumPnL_ext. intros x Hx. symmetry.
      apply pnlOf_insert_ne. intros ->. apply Hcs in Hx. exact (Hnot _ Hx).
Qed.

(** New values in fields other than the status and the PnL. *)
Lemma Consistent_update (om : OrderManager) (orderID : string)
  (o o' : LocalOrder) :
  Consistent om -> orders om !! orderID = Some o ->
  Status o' = Status o -> PnL o' = PnL o ->
  Consistent (set_orders om (<[orderID := o']> (orders om))).
Proof.
  intros [Hnd Hex (cs & Hcnd & Hcs & Hsum)] Hlk Hst Hpnl.
  assert (Hsame : forall st x,
            hasStatus (set_orders om (<[orderID := o']> (orders om))) st x
            <-> hasStatus om st x).
  { intros st x. unfold set_orders. rewrite hasStatus_insert. split.
    - intros [[-> E]|[_ H]]; [|exact H]. exists o. split; congruence.
    - intros H. destruct (decide (x = orderID)) as [->|Hne]; [|auto].
      left. split; [reflexivity|]. destruct H as (o2 & Ho2 & Hs2).
      congruence. }
  constructor.
  - exact Hnd.
  - intros x. rewrite Hsame. apply Hex.
  - exists cs. split; [exact Hcnd|]. split.
    + intros x. rewrite Hsame. apply Hcs.
    + simpl. rewrite Hsum. apply sumPnL_ext. intros x Hx.
      unfold set_orders. destruct (decide (x = orderID)) as [->|Hne].
      * rewrite pnlOf_insert_eq. unfold pnlOf. rewrite Hlk. congruence.
      * rewrite pnlOf_insert_ne by exact Hne. reflexivity.
Qed.

Lemma isOpen_true (st : OrderStatus) :
  isOpen st = true <-> st = OrderStatusOpen.
Proof. destruct st; simpl; split; congruence. Qed.

(** [CloseOrder] on an ID that is unknown or not open: an error, and the
    manager as it was. *)
Lemma CloseOrder_error (om : OrderManager) (orderID : string)
  (exitPrice tradingFee fundingFee : float) :
  ~ hasStatus om OrderStatusOpen orderID ->
  exists e,
    CloseOrder om orderID exitPrice tradingFee fundingFee = (om, Some e).
Proof.
  intros Hno. unfold CloseOrder.
  destruct (orders om !! orderID) as [o|] eqn:Hlk; [|eauto].
  destruct (isOpen (Status o)) eqn:Ho; simpl; [|eauto].
  exfalso. apply Hno. exists o. split; [exact Hlk|].
  apply isOpen_true. exact Ho.
Qed.

Lemma Consistent_CloseOrder (om : OrderManager) (orderID : string)
  (exitPrice tradingFee fundingFee : float) :
  Consistent om ->
  Consistent (fst (CloseOrder om orderID exitPrice tradingFee fundingFee)).
Proof.
  intros Hc. unfold CloseOrder.
  destruct (orders om !! orderID) as [o|] eqn:Hlk; [|exact Hc].
  destruct (isOpen (Status o)) eqn:Ho; simpl; [|exact Hc].
  apply isOpen_true in Ho.
  destruct Hc as [Hnd Hex (cs & Hcnd & Hcs & Hsum)].
  set (c := set_PnLPercent _ _).
  assert (Hcst : Status c = OrderStatusClosed) by reflexivity.
  assert (Hopen : hasStatus om OrderStatusOpen orderID) by (exists o; auto).
  assert (Hncs : orderID ∉ cs).
  { intros H. apply Hcs in H. destruct H as (o2 & Ho2 & Hs2). congruence. }
  destruct (removeOpenOrder_NoDup (openOrders om) orderID Hnd) as [Hnd' Hout].
  constructor; simpl.
  - exact Hnd'.
  - intros x. rewrite hasStatus_insert. split.
    + intros Hx. right. split; [intros ->; contradiction|].
      apply Hex. eapply removeOpenOrder_elem. exact Hx.
    + intros [[_ E]|[Hne H]]; [congruence|].
      apply removeOpenOrder_other; [exact Hne | apply Hex; exact H].
  - exists (cs ++ [orderID]). split; [|split].
    + apply NoDup_app. split; [exact Hcnd|]. split; [|apply NoDup_singleton].
      intros x Hx Hx'. apply list_elem_of_singleton in Hx'. subst x.
      contradiction.
    + intros x. rewrite elem_of_app, list_elem_of_singleton, hasStatus_insert.
      rewrite Hcs. split.
      * intros [H| ->]; [|auto]. right. split; [|exact H].
        intros ->. destruct H as (o2 & Ho2 & Hs2). congruence.
      * intros [[-> _]|[_ H]]; auto.
    + rewrite sumPnL_snoc, pnlOf_insert_eq. f_equal.
      rewrite Hsum. apply sumPnL_ext. intros x Hx. symmetry.
      apply pnlOf_insert_ne. intros ->. contradiction.
Qed.

Lemma Consistent_UpdateOrderID (om : OrderManager) (oldID newID : string) :
  Consistent om ->
  (is_Some (orders om !! oldID) -> orders om !! newID = None) ->
  Consistent (UpdateOrderID om oldID newID).
Proof.
  intros Hc Hfresh. unfold UpdateOrderID.
  destruct (orders om !! oldID) as [o|] eqn:Hlk; [|exact Hc].
  specialize (Hfresh (ex_intro _ o eq_refl)).
  assert (Hne : newID <> oldID) by (intros ->; congruence).
  destruct Hc as [Hnd Hex (cs & Hcnd & Hcs & Hsum)].
  assert (Hdom : forall st x, hasStatus om st x -> x <> newID).
  { intros st x (o2 & Ho2 & _) ->. congruence. }
  set (om' := mkOrderManager _ _ _).
  assert (Hlk' : forall x,
            orders om' !! x =
            if decide (x = newID) then Some (set_ID o newID)
            else if decide (x = oldID) then None else orders om !! x).
  { intros x. unfold om'. simpl.
    destruct (decide (x = newID)) as [->|Hxn].
    - rewrite lookup_delete_ne by congruence. apply lookup_insert_eq.
    - destruct (decide (x = oldID)) as [->|Hxo].
      + apply lookup_delete_eq.
      + rewrite lookup_delete_ne by congruence.
        apply lookup_insert_ne. congruence. }
  assert (Hst' : forall st x,
            hasStatus om' st x <->
            (x = newID /\ Status o = st) \/
            (x <> oldID /\ hasStatus om st x)).
  { intros st x. unfold hasStatus at 1. rewrite Hlk'.
    destruct (decide (x = newID)) as [->|Hxn].
    - split.
      + intros (o2 & [= <-] & Hs). left. auto.
      + intros [[_ Hs]|[_ H]]; [eexists; split; [reflexivity | exact Hs]|].
        exfalso. exact (Hdom _ _ H eq_refl).
    - destruct (decide (x = oldID)) as [->|Hxo].
      + split; [intros (o2 & Ho2 & _); discriminate|].
        intros [[E _]|[E _]]; congruence.
      + split.
        * intros H. right. split; [exact Hxo | exact H].
        * intros [[E _]|[_ H]]; [congruence | exact H]. }
  assert (Hnl : newID ∉ openOrders om).
  { intros H. apply Hex in H. exact (Hdom _ _ H eq_refl). }
  constructor.
  - apply renameFirst_NoDup; assumption.
  - intros x. change (openOrders om')
      with (renameFirst (openOrders om) oldID newID).
    rewrite (renameFirst_elem _ _ _ _ Hnd), Hst'. split.
    + intros [[-> Ho]|[Hx Hxo]].
      * left. split; [reflexivity|]. apply Hex in Ho.
        destruct Ho as (o2 & Ho2 & Hs2). congruence.
      * right. split; [exact Hxo | apply Hex; exact Hx].
    + intros [[-> Hs]|[Hxo H]].
      * left. split; [reflexivity|]. apply Hex. exists o. auto.
      * right. split; [apply Hex; exact H | exact Hxo].
  - set (f := fun x : string => if decide (x = oldID) then newID else x).
    assert (Hncs : newID ∉ cs).
    { intros H. apply Hcs in H. exact (Hdom _ _ H eq_refl). }
    exists (map f cs). split; [|split].
    + apply NoDup_fmap_2_strong; [|exact Hcnd].
      intros x y Hx Hy. unfold f.
      destruct (decide (x = oldID)), (decide (y = oldID)); congruence.
    + intros x. rewrite Hst'. rewrite list_elem_of_In, in_map_iff. split.
      * intros (y & Hy & Hin). apply list_elem_of_In in Hin.
        unfold f in Hy. destruct (decide (y = oldID)) as [->|Hyo].
        -- subst x. left. split; [reflexivity|]. apply Hcs in Hin.
           destruct Hin as (o2 & Ho2 & Hs2). congruence.
        -- subst x. right. split; [exact Hyo | apply Hcs; exact Hin].
      * intros [[-> Hs]|[Hxo H]].
        -- exists oldID. split.
           ++ unfold f. destruct (decide (oldID = oldID)); congruence.
           ++ apply list_elem_of_In, Hcs. exists o. auto.
        -- exists x. split.
           ++ unfold f. destruct (decide (x = oldID)); congruence.
           ++ apply list_elem_of_In, Hcs. exact H.
    + change (totalPnL om') with (totalPnL om). rewrite Hsum.
      unfold sumPnL. symmetry. apply fold_pnl_map.
      intros x Hx. unfold pnlOf, f. rewrite Hlk'.
      destruct (decide (x = oldID)) as [->|Hxo].
      * destruct (decide (newID = newID)); [|congruence].
        rewrite Hlk. reflexivity.
      * destruct (decide (x = newID)) as [->|Hxn]; [contradiction|].
        destruct (decide (x = oldID)); [congruence | reflexivity].
Qed.

(** ** The loop of [CheckStopLossTakeProfit] *)

Lemma indexOf_lt (l : list string) (orderID : string) (i : nat) :
  indexOf l orderID = Some i -> (i < length l)%nat.
Proof.
  revert i. induction l as [|y l IH]; intros i; simpl; [discriminate|].
  destruct (String.eqb y orderID).
  - intros [= <-]. lia.
  - destruct (indexOf l orderID) as [j|]; [|discriminate].
    intros [= <-]. specialize (IH j eq_refl). lia.
Qed.

Lemma spliceBacking_length (backing : list string) (n i : nat) :
  (i < n)%nat -> (n <= length backing)%nat ->
  length (spliceBacking backing n i) = length backing.
Proof.
  intros Hi Hn. unfold spliceBacking.
  rewrite !length_app, length_take, !length_drop, length_take. lia.
Qed.

Lemma spliceBacking_elem (backing : list string) (n i : nat) (x : string) :
  x ∈ spliceBacking backing n i -> x ∈ backing.
Proof.
  unfold spliceBacking. rewrite !elem_of_app.
  intros [H|[H|H]].
  - exact (subseteq_take _ _ _ H).
  - apply (subseteq_take n). exact (subseteq_drop _ _ _ H).
  - exact (subseteq_drop _ _ _ H).
Qed.

(** After [removeOpenOrder] the slice is again the head of the array. *)
Lemma spliceBacking_prefix (backing : list string) (n i : nat) :
  (i < n)%nat -> (n <= length backing)%nat ->
  take (n - 1) (spliceBacking backing n i)
  = take i (take n backing) ++ drop (S i) (take n backing).
Proof.
  intros Hi Hn. unfold spliceBacking.
  rewrite app_assoc, take_app_length'.
  - rewrite take_take. replace (i `min` n)%nat with i by lia. reflexivity.
  - rewrite length_app, length_take, length_drop, length_take. lia.
Qed.

Lemma removeOpenOrder_length (l : list string) (orderID : string) :
  length (removeOpenOrder l orderID) =
  match indexOf l orderID with
  | Some _ => (length l - 1)%nat
  | None => length l
  end.
Proof.
  unfold removeOpenOrder.
  destruct (indexOf l orderID) as [i|] eqn:E; [|reflexivity].
  apply indexOf_lt in E.
  rewrite length_app, length_take, length_drop. lia.
Qed.

Lemma checkStep_LoopInv (p : float) (n0 : nat) (st : LoopState) (i : nat) :
  LoopInv n0 st -> (i < n0)%nat ->
  exists st', checkStep p st i = Some st' /\ LoopInv n0 st'.
Proof.
  intros (Hc & Hlen & Hdom & Hpre) Hi. unfold checkStep.
  destruct (lookup_lt_is_Some_2 (ls_backing st) i) as [orderID Hb]; [lia|].
  rewrite Hb.
  destruct (Hdom orderID (list_elem_of_lookup_2 _ _ _ Hb)) as [order Hlk].
  rewrite Hlk.
  destruct (isOpen (Status order)) eqn:Hopen; simpl.
  2:{ exists st. split; [reflexivity|].
      exact (conj Hc (conj Hlen (conj Hdom Hpre))). }
  destruct (updateOrder_fixed p order)
    as (_ & _ & _ & _ & _ & _ & Hst & _ & _ & _ & _ & _ & Hpnl & _).
  set (order1 := updateOrder p order) in *.
  set (om1 := set_orders (ls_om st) (<[orderID := order1]> (orders (ls_om st)))).
  assert (Hc1 : Consistent om1)
    by (eapply Consistent_update; eassumption).
  assert (Hdom1 : forall x, is_Some (orders (ls_om st) !! x) ->
                            is_Some (orders om1 !! x)).
  { intros x Hx. unfold om1. simpl.
    destruct (decide (orderID = x)) as [->|Hne].
    - rewrite lookup_insert_eq. eauto.
    - rewrite lookup_insert_ne by exact Hne. exact Hx. }
  destruct (shouldClose order1 p).
  - eexists. split; [reflexivity|]. unfold LoopInv. simpl.
    assert (Hn : (length (openOrders (ls_om st))
                  <= length (ls_backing st))%nat).
    { rewrite Hpre at 1. rewrite length_take. lia. }
    assert (Hlk1 : orders om1 !! orderID = Some order1)
      by (unfold om1; simpl; apply lookup_insert_eq).
    assert (Hopen' : openOrders (fst (CloseOrder om1 orderID p 0 0))
                     = removeOpenOrder (openOrders (ls_om st)) orderID).
    { unfold CloseOrder. rewrite Hlk1, Hst, Hopen. reflexivity. }
    split; [apply Consistent_CloseOrder; exact Hc1|].
    rewrite Hopen', removeOpenOrder_length. unfold removeOpenOrder.
    destruct (indexOf (openOrders (ls_om st)) orderID) as [j|] eqn:Ej.
    + pose proof (indexOf_lt _ _ _ Ej) as Hj.
      split; [rewrite spliceBacking_length; assumption|]. split.
      * intros x Hx. apply spliceBacking_elem in Hx.
        destruct (Hdom1 x (Hdom x Hx)) as [o1 Ho1].
        destruct (CloseOrder_ratchets om1 orderID p 0 0 x o1 Ho1)
          as (o2 & Ho2 & _).
        eauto.
      * rewrite spliceBacking_prefix by assumption.
        rewrite <- Hpre. reflexivity.
    + split; [exact Hlen|]. split; [|exact Hpre].
      intros x Hx.
      destruct (Hdom1 x (Hdom x Hx)) as [o1 Ho1].
      destruct (CloseOrder_ratchets om1 orderID p 0 0 x o1 Ho1)
        as (o2 & Ho2 & _).
      eauto.
  - eexists. split; [reflexivity|]. unfold LoopInv. simpl.
    split; [exact Hc1|]. split; [exact Hlen|].
    split; [intros x Hx; apply Hdom1, Hdom, Hx | exact Hpre].
Qed.

Lemma checkLoop_LoopInv (p : float) (n0 : nat) (idxs : list nat) :
  forall st,
    LoopInv n0 st -> Forall (fun i => (i < n0)%nat) idxs ->
    exists st', checkLoop p st idxs = Some st' /\ LoopInv n0 st'.
Proof.
  induction idxs as [|i idxs IH]; intros st Hinv Hall; simpl.
  - eauto.
  - apply Forall_cons in Hall. destruct Hall as [Hi Hall].
    destruct (checkStep_LoopInv p n0 st i Hinv Hi) as (st1 & -> & Hinv1).
    exact (IH st1 Hinv1 Hall).
Qed.

(** On books that agree a price update does not panic, and the books
    agree afterwards. *)
Lemma Consistent_CheckStopLossTakeProfit (om : OrderManager) (p : float) :
  Consistent om ->
  exists om' closed,
    CheckStopLossTakeProfit om p = Some (om', closed) /\ Consistent om'.
Proof.
  intros Hc. unfold CheckStopLossTakeProfit.
  destruct (checkLoop_LoopInv p (length (openOrders om))
              (seq 0 (length (openOrders om)))
              (mkLoopState om (openOrders om) [])) as (st & -> & Hinv).
  - unfold LoopInv. simpl. split; [exact Hc|]. split; [reflexivity|].
    split; [|symmetry; apply take_ge; lia].
    intros x Hx. apply (open_exact om Hc) in Hx.
    destruct Hx as (o & Ho & _). eauto.
  - apply Forall_seq. intros j Hj. lia.
  - exists (ls_om st), (ls_closedOrders st). split; [reflexivity|].
    exact (proj1 Hinv).
Qed.

Lemma Consistent_NewOrderManager : Consistent NewOrderManager.
Proof.
  constructor; simpl.
  - constructor.
  - intros x. split; [intros H; inversion H|].
    intros (o & Ho & _). simpl in Ho. rewrite lookup_empty in Ho.
    discriminate.
  - exists []. split; [constructor|]. split; [|reflexivity].
    intros x. split; [intros H; inversion H|].
    intros (o & Ho & _). simpl in Ho. rewrite lookup_empty in Ho.
    discriminate.
Qed.

Lemma applyOp_Consistent (om : OrderManager) (op : Op) :
  Consistent om -> freshOp om op ->
  exists om', applyOp om op = Some om' /\ Consistent om'.
Proof.
  intros Hc Hf. destruct op; simpl in *.
  - eexists. split; [reflexivity|].
    apply Consistent_add_open; [assumption | assumption | reflexivity].
  - eexists. split; [reflexivity|].
    apply Consistent_add_open; [assumption | assumption | reflexivity].
  - eexists. split; [reflexivity|]. apply Consistent_CloseOrder. exact Hc.
  - eexists. split; [reflexivity|].
    apply Consistent_UpdateOrderID; assumption.
  - destruct (Consistent_CheckStopLossTakeProfit om currentPrice Hc)
      as (om' & cl & -> & Hc').
    eauto.
Qed.

Lemma run_Consistent (ops : list Op) :
  forall om,
    Consistent om -> freshRun om ops ->
    exists om', run om ops = Some om' /\ Consistent om'.
Proof.
  induction ops as [|op ops IH]; intros om Hc Hf; simpl in *.
  - eauto.
  - destruct Hf as [Hf Hrest].
    destruct (applyOp_Consistent om op Hc Hf) as (om1 & E & Hc1).
    rewrite E in *. exact (IH om1 Hc1 Hrest).
Qed.

(** C10 as stated fails.  An [UpdateOrderID] whose new ID is already a key
    breaks the books: renaming [a] to [b] while [b] is open leaves
    [b] twice in the list of open IDs; renaming [a] to [a] drops the order
    from the map while [a] stays listed as open. *)
Lemma C10_colliding_id :
  let open2 :=
    [OpOpenLong "a" "BTC" 100 1 99 101; OpOpenLong "b" "BTC" 100 1 99 101] in
  (openOrders <$> run NewOrderManager (open2 ++ [OpUpdateOrderID "a" "b"]))
  = Some ["b"; "b"]%string /\
  (openOrders <$> run NewOrderManager (open2 ++ [OpUpdateOrderID "a" "a"]))
  = Some ["a"; "b"]%string /\
  ((fun om => orders om !! "a"%string)
     <$> run NewOrderManager (open2 ++ [OpUpdateOrderID "a" "a"]))
  = Some None.
Proof. vm_compute. repeat split; reflexivity. Qed.

(** C10, as the code has it.  Take any sequence of [OpenLong], [OpenShort],
    [CloseOrder], [UpdateOrderID] and [CheckStopLossTakeProfit] calls on a
    new manager in which every ID that comes in is new (the ID generated
    for an opened order is not a key of the map yet, and neither is the new
    ID of an [UpdateOrderID] that finds its old ID).  Then no call panics,
    and afterwards the list of open IDs has no repetition and holds exactly
    the IDs of the orders with status open, and the total PnL is the sum of
    the PnL of the orders with status closed, each counted once; and a
    [CloseOrder] on an ID that is unknown or not open returns an error and
    leaves the manager as it is. *)
Theorem C10_books_agree (ops : list Op) :
  freshRun NewOrderManager ops ->
  exists om,
    run NewOrderManager ops = Some om /\
    NoDup (openOrders om) /\
    (forall orderID,
       orderID ∈ openOrders om <-> hasStatus om OrderStatusOpen orderID) /\
    (exists closedSeq,
       NoDup closedSeq /\
       (forall orderID,
          orderID ∈ closedSeq <-> hasStatus om OrderStatusClosed orderID) /\
       totalPnL om = sumPnL om closedSeq) /\
    (forall orderID exitPrice tradingFee fundingFee,
       ~ hasStatus om OrderStatusOpen orderID ->
       exists e,
         CloseOrder om orderID exitPrice tradingFee fundingFee
         = (om, Some e)).
Proof.
  intros Hf.
  destruct (run_Consistent ops NewOrderManager Consistent_NewOrderManager Hf)
    as (om & Hrun & [H1 H2 H3]).
  exists om. split; [exact Hrun|]. split; [exact H1|]. split; [exact H2|].
  split; [exact H3|].
  intros orderID exitPrice tradingFee fundingFee Hno.
  apply CloseOrder_error. exact Hno.
Qed.

(** C10 at work on a sequence with every kind of call. *)
Lemma C10_books_agree_witness :
  exists om,
    run NewOrderManager
      [OpOpenLong "a" "BTC" 100 1 99.75 100.6;
       OpOpenShort "b" "BTC" 100 1 100.25 99.4;
       OpUpdateOrderID "a" "x";
       OpCheck 100.6;
       OpCloseOrder "b" 100.1 0.01 0.02;
       OpCloseOrder "b" 100.1 0.01 0.02] = Some om /\
    NoDup (openOrders om).
Proof.
  destruct (C10_books_agree
      [OpOpenLong "a" "BTC" 100 1 99.75 100.6;
       OpOpenShort "b" "BTC" 100 1 100.25 99.4;
       OpUpdateOrderID "a" "x";
       OpCheck 100.6;
       OpCloseOrder "b" 100.1 0.01 0.02;
       OpCloseOrder "b" 100.1 0.01 0.02]) as (om & Hrun & Hnd & _).
  - vm_compute. repeat split; reflexivity.
  - exists om. split; assumption.
Defined.

End Books.

(* ===================================================================== *)
(** * Part XVI.  What a signal of [Analyze] tells                         *)
(* ===================================================================== *)

Section FusionReport.
Import models strategy spec fixtures.
Local Open Scope float_scope.

Lemma Analyze_fixes_patterns (s : PatternVolumeDeltaStrategy)
  (data : MarketData) (delta : Delta) :
  GetCurrentPattern (fst (Analyze s data delta))
  = GetCurrentPattern (appendHistories s data delta).
Proof.
  unfold Analyze.
  repeat match goal with
    | |- context [if ?c then _ else _] => destruct c
    end; reflexivity.
Qed.

(** X1.  [processNewData] calls [Analyze] and then [GetCurrentPattern],
    and [printStatus] reads [GetLastFilterFailure].  The signal of
    [Analyze] is none, long-entry or short-entry, never an exit signal.  A
    signal other than none is the direction of the pattern
    [GetCurrentPattern] then answers, and the recorded rejection is empty.
    When the signal is none although that pattern has a direction, the
    recorded rejection is the one of this very bar: by the volume filter,
    by the delta check or by the trend filter. *)
Theorem X1_signal_is_current_pattern (s : PatternVolumeDeltaStrategy)
  (data : MarketData) (delta : Delta) :
  let s' := fst (Analyze s data delta) in
  let signal := snd (Analyze s data delta) in
  let pattern := GetCurrentPattern s' in
  entryOrNone signal /\
  (signal <> SignalNone ->
     Direction pattern = signal /\ lastFilterFailure s' = NoFailure) /\
  (signal = SignalNone -> Direction pattern <> SignalNone ->
     lastFilterFailure s' = VolumeFailure (Volume (mdKLine data)) \/
     lastFilterFailure s'
       = DeltaFailure (Value delta) (Direction pattern) \/
     lastFilterFailure s'
       = TrendFailure (Close (mdKLine data)) (EMA30 (mdIndicators data))
           (Direction pattern)).
Proof.
  intros s' signal pattern.
  unfold pattern, s'. rewrite Analyze_fixes_patterns.
  unfold signal, s', GetCurrentPattern, Analyze.
  pose proof (Analyze_current_is_data s data delta) as Hcur.
  cbv zeta in Hcur.
  set (s1 := appendHistories s data delta) in *.
  destruct (len (history s1) <? 2)%Z.
  { cbn [fst snd]. split; [left; reflexivity|].
    split; [congruence|]. intros _ H. exfalso. apply H. reflexivity. }
  rewrite Hcur.
  set (p := detectPatterns s1 data _).
  pose proof (detectPatterns_entryOrNone s1 data
                (index (history s1) (len (history s1) - 2))) as Hp.
  fold p in Hp.
  destruct (isNone p) eqn:Hn.
  { apply isNone_true in Hn. cbn [fst snd].
    split; [left; reflexivity|]. split; [congruence|]. congruence. }
  apply isNone_false in Hn.
  destruct (checkVolume s1 data); cbn [negb fst snd].
  2:{ split; [left; reflexivity|]. split; [congruence|]. auto. }
  destruct (checkDelta s1 delta (Direction p)); cbn [negb fst snd].
  2:{ split; [left; reflexivity|]. split; [congruence|]. auto. }
  destruct (useTrendFilter s1 && negb (checkTrend s1 data (Direction p)));
    cbn [fst snd].
  - split; [left; reflexivity|]. split; [congruence|]. auto.
  - split; [exact Hp|]. split; [auto|]. congruence.
Qed.

End FusionReport.

Section SlidingWindow.
Import models strategy spec fixtures.
Local Open Scope float_scope.

Lemma appendBounded_lastN {A : Type} (cap : nat) (l : list A) (v : A) :
  (length l <= cap)%nat ->
  appendBounded (Z.of_nat cap) l v = lastN cap (l ++ [v]).
Proof.
  intros H. unfold appendBounded, lastN. rewrite len_app_one.
  rewrite length_app. simpl. unfold len.
  destruct (Z.of_nat (length l) + 1 >? Z.of_nat cap)%Z eqn:E.
  - apply Z.gtb_lt in E.
    replace (length l + 1 - cap)%nat with 1%nat by lia. reflexivity.
  - rewrite Z.gtb_ltb in E. apply Z.ltb_ge in E.
    replace (length l + 1 - cap)%nat with 0%nat by lia. reflexivity.
Qed.

Lemma lastN_length {A : Type} (k : nat) (l : list A) :
  length (lastN k l) = Nat.min k (length l).
Proof. unfold lastN. rewrite length_drop. lia. Qed.

Lemma lastN_app_lastN {A : Type} (k : nat) (l r : list A) :
  lastN k (lastN k l ++ r) = lastN k (l ++ r).
Proof.
  unfold lastN. rewrite !length_app, length_drop, !drop_app, drop_drop.
  rewrite length_drop. f_equal; f_equal; lia.
Qed.

Lemma feed_fst (s : PatternVolumeDeltaStrategy) (sig sig' : SignalType)
  (inputs : list (MarketData * Delta)) :
  fst (fold_left (fun st x => Analyze (fst st) (fst x) (snd x)) inputs (s, sig))
  = fst (fold_left (fun st x => Analyze (fst st) (fst x) (snd x)) inputs
           (s, sig')).
Proof. destruct inputs; reflexivity. Qed.

Lemma feed_windows (inputs : list (MarketData * Delta)) :
  forall (s : PatternVolumeDeltaStrategy),
    (length (history s) <= 200)%nat ->
    (length (deltaHistory s) <= 100)%nat ->
    history (fst (feed s inputs))
    = lastN 200 (history s ++ map fst inputs) /\
    deltaHistory (fst (feed s inputs))
    = lastN 100 (deltaHistory s ++ map (fun x => Value (snd x)) inputs).
Proof.
  unfold feed. induction inputs as [|x inputs IH]; intros s Hh Hd.
  - simpl. rewrite !app_nil_r. unfold lastN.
    replace (length (history s) - 200)%nat with 0%nat by lia.
    replace (length (deltaHistory s) - 100)%nat with 0%nat by lia.
    split; reflexivity.
  - simpl fold_left.
    rewrite (surjective_pairing (Analyze s (fst x) (snd x))).
    rewrite (feed_fst _ _ SignalNone).
    pose proof (Analyze_history s (fst x) (snd x)) as H1.
    pose proof (Analyze_deltaHistory s (fst x) (snd x)) as H2.
    change 200%Z with (Z.of_nat 200) in H1.
    change 100%Z with (Z.of_nat 100) in H2.
    rewrite appendBounded_lastN in H1 by exact Hh.
    rewrite appendBounded_lastN in H2 by exact Hd.
    destruct (IH (fst (Analyze s (fst x) (snd x)))) as [I1 I2].
    + rewrite H1, lastN_length. lia.
    + rewrite H2, lastN_length. lia.
    + rewrite I1, I2, H1, H2, !lastN_app_lastN.
      simpl map. rewrite <- !app_assoc. split; reflexivity.
Qed.

(** X2.  The two histories [Analyze] keeps are sliding windows.  After any
    sequence of calls on a new strategy, the snapshot history is the last
    200 snapshots given, oldest first, and the delta history the last 100
    delta values; their lengths are [min(200, n)] and [min(100, n)] after
    [n] calls. *)
Theorem X2_histories_are_sliding_windows
  (inputs : list (MarketData * Delta)) :
  let s := fst (feed NewPatternVolumeDeltaStrategy inputs) in
  history s = lastN 200 (map fst inputs) /\
  deltaHistory s = lastN 100 (map (fun x => Value (snd x)) inputs) /\
  length (history s) = Nat.min 200 (length inputs) /\
  length (deltaHistory s) = Nat.min 100 (length inputs).
Proof.
  intros s.
  destruct (feed_windows inputs NewPatternVolumeDeltaStrategy) as [H1 H2];
    [simpl; lia | simpl; lia |].
  simpl app in H1, H2. fold s in H1, H2.
  rewrite H1, H2, !lastN_length, !length_map.
  repeat split; reflexivity.
Qed.

End SlidingWindow.

Section PatternReport.
Import models strategy spec fixtures.
Local Open Scope float_scope.

(** X3.  What [detectPatterns] can answer: no pattern, or one of eight
    patterns, each with its fixed direction and confidence (both hammers
    are long).  The answer has direction none only when it is the
    no-pattern value.  The inside bar is never answered: [detectInsideBar]
    recognises it with direction none, which [detectPatterns] takes for
    no detection. *)
Theorem X3_detectPatterns_reports (s : PatternVolumeDeltaStrategy)
  (current previous : MarketData) :
  let p := detectPatterns s current previous in
  In p [ patternNone;
         mkPattern SignalLongEntry 0.8 "Bullish Engulfing";
         mkPattern SignalShortEntry 0.8 "Bearish Engulfing";
         mkPattern SignalLongEntry 0.7 "Hammer";
         mkPattern SignalLongEntry 0.7 "Inverted Hammer";
         mkPattern SignalLongEntry 0.75 "Breakout";
         mkPattern SignalShortEntry 0.75 "Breakout";
         mkPattern SignalLongEntry 0.7 "Momentum Candle";
         mkPattern SignalShortEntry 0.7 "Momentum Candle" ] /\
  Name p <> "Inside Bar"%string /\
  (Direction p = SignalNone <-> p = patternNone) /\
  ((High (mdKLine current) <. High (mdKLine previous))
   && (Low (mdKLine current) >. Low (mdKLine previous)) = true ->
   detectInsideBar s current previous
   = mkPattern SignalNone 0.0 "Inside Bar").
Proof.
  intros p.
  assert (Hin : In p [ patternNone;
         mkPattern SignalLongEntry 0.8 "Bullish Engulfing";
         mkPattern SignalShortEntry 0.8 "Bearish Engulfing";
         mkPattern SignalLongEntry 0.7 "Hammer";
         mkPattern SignalLongEntry 0.7 "Inverted Hammer";
         mkPattern SignalLongEntry 0.75 "Breakout";
         mkPattern SignalShortEntry 0.75 "Breakout";
         mkPattern SignalLongEntry 0.7 "Momentum Candle";
         mkPattern SignalShortEntry 0.7 "Momentum Candle" ]).
  { unfold p, detectPatterns, detectEngulfing, detectHammer, detectInsideBar,
      detectBreakout, detectMomentumCandle.
    destruct (breakoutLoop _ _ _ _ _) as [high low].
    repeat match goal with
      | |- context [if ?c then _ else _] =>
          lazymatch c with
          | context [if _ then _ else _] => fail
          | _ => destruct c; simpl
          end
      end;
      repeat first [left; reflexivity | right]. }
  split; [exact Hin|].
  split; [|split].
  - simpl in Hin.
    repeat (destruct Hin as [Hin|Hin]; [rewrite <- Hin; discriminate|]).
    contradiction.
  - split.
    + intros Hd. simpl in Hin.
      repeat (destruct Hin as [Hin|Hin];
              [rewrite <- Hin in *; try reflexivity; discriminate|]).
      contradiction.
    + intros ->. reflexivity.
  - intros H. unfold detectInsideBar. rewrite H. reflexivity.
Qed.

End PatternReport.

Section BreakoutNever.
Import models strategy spec fixtures.
Local Open Scope float_scope.

(** X4.  [detectBreakout] starts its running high and low from the high
    and the low of the current bar.  So on every bar whose close lies
    between its own low and high, whatever the history, it answers no
    pattern, and [detectPatterns] never answers a pattern named
    [Breakout]. *)
Theorem X4_no_breakout_inside_the_own_range (s : PatternVolumeDeltaStrategy)
  (current previous : MarketData) :
  (Low (mdKLine current) <=. Close (mdKLine current)) = true ->
  (Close (mdKLine current) <=. High (mdKLine current)) = true ->
  detectBreakout s current = patternNone /\
  Name (detectPatterns s current previous) <> "Breakout"%string.
Proof.
  intros Hlow Hhigh.
  pose proof (detectBreakout_inside_range s current Hlow Hhigh) as Hb.
  split; [exact Hb|].
  unfold detectPatterns. rewrite Hb.
  unfold detectEngulfing, detectHammer, detectInsideBar, detectMomentumCandle.
  repeat match goal with
    | |- context [if ?c then _ else _] =>
        lazymatch c with
        | context [if _ then _ else _] => fail
        | _ => destruct c; simpl
        end
    end; discriminate.
Qed.

(** X4 at work: the bar that closes at 11 above five bars with highs at
    10. *)
Lemma X4_no_breakout_inside_the_own_range_witness :
  detectBreakout afterBreakout (fst breakoutBar) = patternNone.
Proof.
  refine (proj1 (X4_no_breakout_inside_the_own_range afterBreakout
                   (fst breakoutBar) (fst rangeBar) _ _)); reflexivity.
Defined.

End BreakoutNever.

Section TrendGuard.
Import models strategy spec fixtures.
Local Open Scope float_scope.

(** X5.  With the trend filter enabled (the default), a signal of
    [Analyze] is on the side of the 30-period EMA of the snapshot: a
    long-entry only with the close strictly above it, a short-entry only
    with the close strictly below it.  A snapshot whose EMA30 is zero (the
    indicators not yet computed) or not a number gives no signal. *)
Theorem X5_trend_filter_guard (s : PatternVolumeDeltaStrategy)
  (data : MarketData) (delta : Delta) :
  useTrendFilter s = true ->
  let signal := snd (Analyze s data delta) in
  let close := Close (mdKLine data) in
  let ema30 := EMA30 (mdIndicators data) in
  ((ema30 ==. 0) = true -> signal = SignalNone) /\
  (F64.IsNaN ema30 = true -> signal = SignalNone) /\
  (signal = SignalLongEntry -> (close >. ema30) = true) /\
  (signal = SignalShortEntry -> (close <. ema30) = true).
Proof.
  intros Ht signal close ema30.
  unfold signal, Analyze.
  pose proof (Analyze_current_is_data s data delta) as Hcur.
  cbv zeta in Hcur.
  set (s1 := appendHistories s data delta) in *.
  change (useTrendFilter s1) with (useTrendFilter s). rewrite Ht.
  destruct (len (history s1) <? 2)%Z.
  { cbn [fst snd]. repeat split; intros; try reflexivity; discriminate. }
  rewrite Hcur.
  set (p := detectPatterns s1 data _).
  destruct (isNone p).
  { cbn [fst snd]. repeat split; intros; try reflexivity; discriminate. }
  destruct (checkVolume s1 data); cbn [negb fst snd].
  2:{ repeat split; intros; try reflexivity; discriminate. }
  destruct (checkDelta s1 delta (Direction p)); cbn [negb fst snd].
  2:{ repeat split; intros; try reflexivity; discriminate. }
  cbn [andb].
  destruct (checkTrend s1 data (Direction p)) eqn:Hc; cbn [negb fst snd].
  2:{ repeat split; intros; try reflexivity; discriminate. }
  unfold checkTrend in Hc. fold ema30 in Hc. fold close in Hc.
  destruct (ema30 ==. 0) eqn:Hz; [discriminate|].
  split; [discriminate|].
  split.
  - intros Hn. exfalso.
    destruct (Direction p); try discriminate; clear - Hn Hc; fkeys.
  - split; intros Hs; rewrite Hs in Hc; exact Hc.
Qed.

(** X5 at work: the rising bar after nine quiet ones gives long-entry, and
    its close 11 is above its EMA30 10.5. *)
Lemma X5_trend_filter_guard_witness :
  (Close (mdKLine (fst rising)) >. EMA30 (mdIndicators (fst rising))) = true.
Proof.
  apply (X5_trend_filter_guard nineBars (fst rising) (snd rising)).
  - reflexivity.
  - vm_compute. reflexivity.
Defined.

(** X6.  [Analyze] fails closed on a missing number: a snapshot whose
    volume is NaN, or a delta sample whose value is NaN, gives no signal,
    whatever the history and the configuration. *)
Theorem X6_not_a_number_gives_no_signal (s : PatternVolumeDeltaStrategy)
  (data : MarketData) (delta : Delta) :
  F64.IsNaN (Volume (mdKLine data)) = true \/
  F64.IsNaN (Value delta) = true ->
  snd (Analyze s data delta) = SignalNone.
Proof.
  intros Hnan. unfold Analyze.
  pose proof (Analyze_current_is_data s data delta) as Hcur.
  cbv zeta in Hcur.
  set (s1 := appendHistories s data delta) in *.
  destruct (len (history s1) <? 2)%Z; [reflexivity|].
  rewrite Hcur.
  set (p := detectPatterns s1 data _).
  destruct (isNone p); [reflexivity|].
  destruct (checkVolume s1 data) eqn:Hv; cbn [negb]; [|reflexivity].
  destruct (checkDelta s1 delta (Direction p)) eqn:Hd; cbn [negb];
    [|reflexivity].
  exfalso. destruct Hnan as [Hn|Hn].
  - unfold checkVolume in Hv.
    destruct (len (history s1) - 1 <? 1)%Z; [discriminate|].
    clear - Hn Hv. fkeys.
  - unfold checkDelta, deltaDirectionOk in Hd.
    destruct (String.eqb _ _); [destruct (len _ <? 10)%Z; [discriminate|]|];
      destruct (Direction p); try discriminate; clear - Hn Hd; fkeys.
Qed.

(** X6 at work: the rising bar with a volume that is not a number. *)
Lemma X6_not_a_number_gives_no_signal_witness :
  snd (Analyze nineBars (bar 10 11 10 11 nan 10.5) (sample 5)) = SignalNone.
Proof.
  apply X6_not_a_number_gives_no_signal. left. reflexivity.
Defined.

End TrendGuard.

(* ===================================================================== *)
(** * Part XVII.  What a price update reports and keeps                   *)
(* ===================================================================== *)

Section Report.
Import models trading lifecycle fixtures.
Local Open Scope float_scope.

Lemma filter_all {A : Type} (P : A -> Prop) `{forall x, Decision (P x)}
  (l : list A) :
  Forall P l -> filter P l = l.
Proof.
  induction 1 as [|x l Hx Hl IH]; [reflexivity|].
  rewrite filter_cons, IH. destruct (decide (P x)); [reflexivity|contradiction].
Qed.

Lemma removeOpenOrder_filter (l : list string) (orderID : string) :
  NoDup l -> removeOpenOrder l orderID = filter (fun y => y <> orderID) l.
Proof.
  induction l as [|y l IH]; intros Hnd; [reflexivity|].
  apply NoDup_cons in Hnd. destruct Hnd as [Hy Hnd].
  rewrite removeOpenOrder_cons, filter_cons.
  destruct (String.eqb_spec y orderID) as [->|Hne].
  - destruct (decide (orderID <> orderID)) as [H|_]; [congruence|].
    symmetry. apply filter_all.
    apply Forall_forall. intros x Hx ->. contradiction.
  - destruct (decide (y <> orderID)) as [_|H]; [|contradiction].
    rewrite IH by exact Hnd. reflexivity.
Qed.

Lemma checkStep_Reported (om0 : OrderManager) (p : float) (n0 : nat)
  (st st' : LoopState) (i : nat) :
  LoopInv n0 st -> Reported om0 p st ->
  checkStep p st i = Some st' -> Reported om0 p st'.
Proof.
  intros (Hc & _) (Hnd & Hop & Hcl & Hfix & Hwas & Htot).
  unfold checkStep.
  destruct (ls_backing st !! i) as [orderID|]; [|discriminate].
  destruct (orders (ls_om st) !! orderID) as [order|] eqn:Hlk;
    [|discriminate].
  destruct (isOpen (Status order)) eqn:Hopen; simpl.
  2:{ intros [= <-].
      exact (conj Hnd (conj Hop (conj Hcl (conj Hfix (conj Hwas Htot))))). }
  apply isOpen_true in Hopen.
  assert (Hnow : hasStatus (ls_om st) OrderStatusOpen orderID)
    by (exists order; auto).
  assert (Hnotcl : orderID ∉ ls_closedOrders st).
  { intros H. destruct (Hcl _ H) as (_ & o & Ho & Hs & _). congruence. }
  destruct (updateOrder_fixed p order)
    as (_ & _ & _ & _ & _ & _ & Hst & _).
  set (order1 := updateOrder p order) in *.
  set (om1 := set_orders (ls_om st)
                (<[orderID := order1]> (orders (ls_om st)))).
  assert (Hother : forall x, x <> orderID ->
                     orders om1 !! x = orders (ls_om st) !! x).
  { intros x Hx. unfold om1. simpl. apply lookup_insert_ne. congruence. }
  assert (Hpnl1 : forall x, x ∈ ls_closedOrders st ->
                    pnlOf om1 x = pnlOf (ls_om st) x).
  { intros x Hx. unfold pnlOf. rewrite Hother; [reflexivity|].
    intros ->. contradiction. }
  destruct (shouldClose order1 p).
  - intros [= <-]. simpl.
    assert (Hlk1 : orders om1 !! orderID = Some order1)
      by (unfold om1; simpl; apply lookup_insert_eq).
    unfold CloseOrder. rewrite Hlk1, Hst, Hopen. simpl.
    set (c := set_PnLPercent _ _).
    assert (Htot' :
      totalPnL om1 + PnL c
      = fold_left
          (fun acc x =>
             acc + pnlOf (mkOrderManager (<[orderID := c]> (orders om1))
                            (removeOpenOrder (openOrders om1) orderID)
                            (totalPnL om1 + PnL c)) x)
          (ls_closedOrders st ++ [orderID]) (totalPnL om0)).
    { rewrite fold_left_app. cbn [fold_left].
      rewrite pnlOf_insert_eq. f_equal.
      change (totalPnL om1) with (totalPnL (ls_om st)). rewrite Htot.
      apply fold_pnl_ext. intros x Hx.
      rewrite pnlOf_insert_ne by (intros ->; contradiction).
      symmetry. apply Hpnl1. exact Hx. }
    unfold Reported. simpl.
    split; [|split; [|split; [|split; [|split]]]].
    + apply NoDup_app. split; [exact Hnd|]. split; [|apply NoDup_singleton].
      intros x Hx Hx'. apply list_elem_of_singleton in Hx'. subst x.
      contradiction.
    + rewrite removeOpenOrder_filter by apply (open_NoDup _ Hc).
      rewrite Hop, list_filter_filter. apply list_filter_iff.
      intros x. rewrite elem_of_app, list_elem_of_singleton. tauto.
    + intros x Hx. apply elem_of_app in Hx. destruct Hx as [Hx|Hx].
      * destruct (Hcl _ Hx) as (H0 & o & Ho & Hrest).
        split; [exact H0|]. exists o. split; [|exact Hrest].
        assert (x <> orderID) by (intros ->; contradiction).
        rewrite lookup_insert_ne by congruence.
        rewrite Hother by assumption. exact Ho.
      * apply list_elem_of_singleton in Hx. subst x.
        split; [apply Hwas; exact Hnow|].
        exists c. rewrite lookup_insert_eq.
        repeat split; reflexivity.
    + intros x o Ho Hs.
      assert (x <> orderID).
      { intros ->. rewrite (Hfix _ _ Ho Hs) in Hlk. congruence. }
      rewrite lookup_insert_ne by congruence.
      rewrite Hother by assumption. exact (Hfix _ _ Ho Hs).
    + intros x (o & Ho & Hs). simpl in Ho.
      destruct (decide (x = orderID)) as [->|Hne].
      * rewrite lookup_insert_eq in Ho. injection Ho as <-. discriminate.
      * rewrite lookup_insert_ne in Ho by congruence.
        rewrite Hother in Ho by assumption. apply Hwas. exists o. auto.
    + exact Htot'.
  - intros [= <-].
    assert (Htot' :
      totalPnL om1
      = fold_left (fun acc x => acc + pnlOf om1 x) (ls_closedOrders st)
          (totalPnL om0)).
    { change (totalPnL om1) with (totalPnL (ls_om st)). rewrite Htot.
      apply fold_pnl_ext. intros x Hx. symmetry. apply Hpnl1. exact Hx. }
    unfold Reported. simpl.
    split; [exact Hnd|]. split; [exact Hop|].
    split; [|split; [|split]].
    + intros x Hx. destruct (Hcl _ Hx) as (H0 & o & Ho & Hrest).
      split; [exact H0|]. exists o. split; [|exact Hrest].
      rewrite lookup_insert_ne; [exact Ho|]. intros ->. contradiction.
    + intros x o Ho Hs.
      rewrite lookup_insert_ne; [exact (Hfix _ _ Ho Hs)|].
      intros ->. rewrite (Hfix _ _ Ho Hs) in Hlk. congruence.
    + intros x (o & Ho & Hs). simpl in Ho.
      destruct (decide (x = orderID)) as [->|Hne].
      * apply Hwas. exact Hnow.
      * rewrite lookup_insert_ne in Ho by congruence.
        apply Hwas. exists o. auto.
    + exact Htot'.
Qed.

Lemma checkLoop_Reported (om0 : OrderManager) (p : float) (n0 : nat)
  (idxs : list nat) :
  forall st,
    LoopInv n0 st -> Reported om0 p st ->
    Forall (fun i => (i < n0)%nat) idxs ->
    exists st', checkLoop p st idxs = Some st' /\ Reported om0 p st'.
Proof.
  induction idxs as [|i idxs IH]; intros st Hinv Hrep Hall; simpl.
  - eauto.
  - apply Forall_cons in Hall. destruct Hall as [Hi Hall].
    destruct (checkStep_LoopInv p n0 st i Hinv Hi) as (st1 & E & Hinv1).
    rewrite E.
    exact (IH st1 Hinv1 (checkStep_Reported om0 p n0 st st1 i Hinv Hrep E)
             Hall).
Qed.

Lemma oneLong_Consistent : Consistent oneLong.
Proof.
  apply Consistent_add_open;
    [apply Consistent_NewOrderManager | reflexivity | reflexivity].
Qed.

(** X7.  What [CheckStopLossTakeProfit] returns, on books that agree.  The
    call does not panic; the IDs it returns are distinct and are those of
    the orders it closed: each was in the open list, is now closed with
    the current price as exit price, no fees and its PnL computed from
    them.  The open list afterwards is the old one without the returned
    IDs, in the old order.  An order that was not open is left as it was,
    and the total PnL has grown by the PnL of the returned orders, added
    in the order returned. *)
Theorem X7_CheckStopLossTakeProfit_reports_what_it_closed
  (om : OrderManager) (p : float) :
  Consistent om ->
  exists om' closed,
    CheckStopLossTakeProfit om p = Some (om', closed) /\
    NoDup closed /\
    openOrders om' = filter (fun x => x ∉ closed) (openOrders om) /\
    (forall orderID,
       orderID ∈ closed ->
       orderID ∈ openOrders om /\
       exists order,
         GetOrder om' orderID = Some order /\
         Status order = OrderStatusClosed /\ ExitPrice order = p /\
         TradingFee order = 0 /\ FundingFee order = 0 /\
         PnL order = calculatePnL order) /\
    (forall orderID order,
       GetOrder om orderID = Some order ->
       Status order <> OrderStatusOpen ->
       GetOrder om' orderID = Some order) /\
    totalPnL om'
    = fold_left (fun acc orderID => acc + pnlOf om' orderID) closed
        (totalPnL om).
Proof.
  intros Hc. unfold CheckStopLossTakeProfit.
  destruct (checkLoop_Reported om p (length (openOrders om))
              (seq 0 (length (openOrders om)))
              (mkLoopState om (openOrders om) []))
    as (st & -> & Hnd & Hop & Hcl & Hfix & _ & Htot).
  - unfold LoopInv. simpl. split; [exact Hc|]. split; [reflexivity|].
    split; [|symmetry; apply take_ge; lia].
    intros x Hx. apply (open_exact om Hc) in Hx.
    destruct Hx as (o & Ho & _). eauto.
  - unfold Reported. simpl.
    split; [constructor|]. split.
    { symmetry. apply filter_all. apply Forall_forall. intros x _.
      apply not_elem_of_nil. }
    split; [intros x Hx; inversion Hx|].
    split; [auto|]. split; [auto|reflexivity].
  - apply Forall_seq. intros j Hj. lia.
  - exists (ls_om st), (ls_closedOrders st).
    split; [reflexivity|]. split; [exact Hnd|]. split; [exact Hop|].
    split; [|split; [exact Hfix | exact Htot]].
    intros x Hx. destruct (Hcl _ Hx) as (H0 & Hrest).
    split; [apply (open_exact om Hc); exact H0 | exact Hrest].
Qed.

(** X7 at work: one long position and a price update at its take-profit. *)
Lemma X7_CheckStopLossTakeProfit_reports_what_it_closed_witness :
  exists om' closed,
    CheckStopLossTakeProfit oneLong 100.6 = Some (om', closed) /\
    NoDup closed.
Proof.
  destruct (X7_CheckStopLossTakeProfit_reports_what_it_closed oneLong 100.6
              oneLong_Consistent) as (om' & closed & H1 & H2 & _).
  exists om', closed. split; assumption.
Defined.

End Report.

Section HoldLimit.
Import models trading lifecycle fixtures.
Local Open Scope float_scope.

Lemma withinHold_newOrder (t : OrderType) (orderID symbol : string)
  (entryPrice quantity stopLoss takeProfit : float) :
  withinHold (newOrder t orderID symbol entryPrice quantity stopLoss
                takeProfit).
Proof. unfold withinHold. simpl. split; [reflexivity|]. split; [auto|lia]. Qed.

Lemma allWithinHold_insert (om : OrderManager) (orderID : string)
  (o : LocalOrder) (l : list string) (t : float) :
  allWithinHold om -> withinHold o ->
  allWithinHold (mkOrderManager (<[orderID := o]> (orders om)) l t).
Proof.
  intros Ha Ho x o'. simpl. destruct (decide (orderID = x)) as [->|Hne].
  - rewrite lookup_insert_eq. intros [= <-]. exact Ho.
  - rewrite lookup_insert_ne by exact Hne. apply Ha.
Qed.

Lemma allWithinHold_CloseOrder (om : OrderManager) (orderID : string)
  (exitPrice tradingFee fundingFee : float) :
  allWithinHold om ->
  allWithinHold (fst (CloseOrder om orderID exitPrice tradingFee fundingFee)).
Proof.
  intros Ha. unfold CloseOrder.
  destruct (orders om !! orderID) as [o|] eqn:Hlk; [|exact Ha].
  destruct (isOpen (Status o)); simpl; [|exact Ha].
  apply allWithinHold_insert; [exact Ha|].
  destruct (Ha _ _ Hlk) as (Hm & _ & _).
  unfold withinHold. simpl. split; [exact Hm|]. split; [auto|discriminate].
Qed.

Lemma allWithinHold_UpdateOrderID (om : OrderManager) (oldID newID : string) :
  allWithinHold om -> allWithinHold (UpdateOrderID om oldID newID).
Proof.
  intros Ha. unfold UpdateOrderID.
  destruct (orders om !! oldID) as [o|] eqn:Hlk; [|exact Ha].
  intros x o'. simpl. destruct (decide (x = oldID)) as [->|Hxo].
  - rewrite lookup_delete_eq. discriminate.
  - rewrite lookup_delete_ne by congruence.
    destruct (decide (newID = x)) as [->|Hne].
    + rewrite lookup_insert_eq. intros [= <-]. exact (Ha _ _ Hlk).
    + rewrite lookup_insert_ne by exact Hne. apply Ha.
Qed.

(** An order that stays open after the loop body has a counter below its
    limit: at the limit the exit test closes it, whatever the price. *)
Lemma updateOrder_withinHold (p : float) (order : LocalOrder) :
  withinHold order -> Status order = OrderStatusOpen ->
  shouldClose (updateOrder p order) p = false ->
  withinHold (updateOrder p order).
Proof.
  intros (Hm & Hs & Hb) Hopen Hno.
  specialize (Hb Hopen).
  destruct (timeout_exactly_at_MaxHoldBars order p) as (Hn & _ & Hin & _);
    [lia | rewrite Hm; reflexivity |].
  destruct (updateOrder_fixed p order)
    as (_ & _ & _ & _ & _ & _ & Hst & _ & _ & _ & Hmax & _).
  unfold withinHold. rewrite Hst, Hmax.
  split; [exact Hm|]. split; [exact Hs|]. intros _.
  rewrite <- Hm, <- Hmax. apply Hin.
  unfold shouldClose in Hno.
  destruct (exitBranch (updateOrder p order) p); [discriminate|reflexivity].
Qed.

Lemma allWithinHold_checkStep (p : float) (st st' : LoopState) (i : nat) :
  checkStep p st i = Some st' ->
  allWithinHold (ls_om st) -> allWithinHold (ls_om st').
Proof.
  unfold checkStep. intros Hstep Ha.
  destruct (ls_backing st !! i) as [orderID|]; [|discriminate].
  destruct (orders (ls_om st) !! orderID) as [order|] eqn:Hlk;
    [|discriminate].
  destruct (isOpen (Status order)) eqn:Hopen; simpl in Hstep;
    [|injection Hstep as <-; exact Ha].
  apply isOpen_true in Hopen.
  destruct (updateOrder_fixed p order)
    as (_ & _ & _ & _ & _ & _ & Hst & _ & _ & _ & Hmax & _).
  destruct (shouldClose (updateOrder p order) p) eqn:Hclose;
    injection Hstep as <-; simpl.
  - unfold CloseOrder. simpl. rewrite lookup_insert_eq, Hst, Hopen. simpl.
    rewrite insert_insert_eq.
    apply (allWithinHold_insert (ls_om st)); [exact Ha|].
    destruct (Ha _ _ Hlk) as (Hm & _ & _).
    unfold withinHold. simpl. rewrite Hmax.
    split; [exact Hm|]. split; [auto|discriminate].
  - apply (allWithinHold_insert (ls_om st)); [exact Ha|].
    apply updateOrder_withinHold;
      [exact (Ha _ _ Hlk) | exact Hopen | exact Hclose].
Qed.

Lemma allWithinHold_checkLoop (p : float) (idxs : list nat) :
  forall st st',
    checkLoop p st idxs = Some st' ->
    allWithinHold (ls_om st) -> allWithinHold (ls_om st').
Proof.
  induction idxs as [|i idxs IH]; intros st st' Hloop Ha; simpl in Hloop.
  - injection Hloop as <-. exact Ha.
  - destruct (checkStep p st i) as [st1|] eqn:Hstep; [|discriminate].
    exact (IH st1 st' Hloop (allWithinHold_checkStep p st st1 i Hstep Ha)).
Qed.

Lemma allWithinHold_applyOp (om om' : OrderManager) (op : Op) :
  applyOp om op = Some om' -> allWithinHold om -> allWithinHold om'.
Proof.
  intros Hop Ha. destruct op; simpl in Hop.
  - injection Hop as <-. apply allWithinHold_insert;
      [exact Ha | apply withinHold_newOrder].
  - injection Hop as <-. apply allWithinHold_insert;
      [exact Ha | apply withinHold_newOrder].
  - injection Hop as <-. apply allWithinHold_CloseOrder. exact Ha.
  - injection Hop as <-. apply allWithinHold_UpdateOrderID. exact Ha.
  - unfold CheckStopLossTakeProfit in Hop.
    destruct (checkLoop currentPrice _ _) as [st|] eqn:Hloop;
      [|discriminate].
    injection Hop as <-.
    exact (allWithinHold_checkLoop _ _ _ _ Hloop Ha).
Qed.

Lemma allWithinHold_run (ops : list Op) :
  forall om om',
    run om ops = Some om' -> allWithinHold om -> allWithinHold om'.
Proof.
  induction ops as [|op ops IH]; intros om om' Hrun Ha; simpl in Hrun.
  - injection Hrun as <-. exact Ha.
  - destruct (applyOp om op) as [om1|] eqn:Hop; [|discriminate].
    exact (IH om1 om' Hrun (allWithinHold_applyOp om om1 op Hop Ha)).
Qed.

Lemma allWithinHold_NewOrderManager : allWithinHold NewOrderManager.
Proof.
  intros x o H. simpl in H. rewrite lookup_empty in H. discriminate.
Qed.



End HoldLimit.

Section LongExit.
Import models trading lifecycle fixtures.
Local Open Scope float_scope.

(** X9.  The exit test of a long position and what a price update does
    to a manager whose only open order is that position.  The arms are
    tried in the order take-profit ([price >= TakeProfit]), trailing stop
    (only if enabled, [price <= TrailingStopLoss]), stop-loss
    ([price <= StopLoss]), timeout, and the first that holds is taken.
    The update closes the position exactly when one of the four holds: it
    then returns its ID, empties the open list, stores the price as exit
    price and [(price - entry) * quantity] (no fees) as PnL, and adds this
    PnL to the total; otherwise it returns nothing and keeps the updated
    order open. *)
Theorem X9_single_long_position_exit (om : OrderManager)
  (orderID : string) (order : LocalOrder) (p : float) :
  openOrders om = [orderID] ->
  orders om !! orderID = Some order ->
  Status order = OrderStatusOpen ->
  orderType order = OrderTypeLong ->
  let order' := updateOrder p order in
  let tp := p >=. TakeProfit order in
  let ts := TrailingEnabled order' && (p <=. TrailingStopLoss order') in
  let sl := p <=. StopLoss order in
  let timeout := (BarsHeld order' >=? MaxHoldBars order)%Z in
  (exitBranch order' p = Some ExitTakeProfit <-> tp = true) /\
  (exitBranch order' p = Some ExitTrailingStop <-> tp = false /\ ts = true) /\
  (exitBranch order' p = Some ExitStopLoss <->
     tp = false /\ ts = false /\ sl = true) /\
  (exitBranch order' p = Some ExitTimeout <->
     tp = false /\ ts = false /\ sl = false /\ timeout = true) /\
  (tp || ts || sl || timeout = true ->
     exists om' closed,
       CheckStopLossTakeProfit om p = Some (om', [orderID]) /\
       openOrders om' = [] /\
       GetOrder om' orderID = Some closed /\
       Status closed = OrderStatusClosed /\ ExitPrice closed = p /\
       PnL closed = (p - EntryPrice order) * Quantity order - 0 - 0 /\
       totalPnL om' = totalPnL om + PnL closed) /\
  (tp || ts || sl || timeout = false ->
     exists om',
       CheckStopLossTakeProfit om p = Some (om', []) /\
       openOrders om' = [orderID] /\
       GetOrder om' orderID = Some order' /\
       Status order' = OrderStatusOpen /\
       totalPnL om' = totalPnL om).
Proof.
  intros Hl Hlk Hst Ht order' tp ts sl timeout.
  destruct (updateOrder_fixed p order)
    as (_ & _ & Ht' & He & _ & Hq & Hst' & Hsl & Htp & _ & Hmax & _).
  fold order' in Ht', He, Hq, Hst', Hsl, Htp, Hmax.
  rewrite Ht in Ht'.
  destruct (exitBranch_long_priority order' p Ht')
    as (H1 & H2 & H3 & H4 & _ & H6).
  rewrite Hsl, Htp, Hmax in *.
  fold tp in H1, H2, H3, H4, H6. fold ts in H2, H3, H4, H6.
  fold sl in H3, H4, H6. fold timeout in H4, H6.
  split; [exact H1|]. split; [exact H2|]. split; [exact H3|].
  split; [exact H4|].
  pose proof (CheckStopLossTakeProfit_single om orderID order p Hl Hlk Hst)
    as Hs.
  cbv zeta in Hs. fold order' in Hs. rewrite H6 in Hs.
  split; intros Hc; rewrite Hc in Hs.
  - unfold CloseOrder in Hs. simpl in Hs.
    rewrite lookup_insert_eq, Hst', Hst in Hs. simpl in Hs.
    eexists. eexists. split; [exact Hs|]. simpl.
    rewrite Hl. unfold removeOpenOrder. simpl. rewrite String.eqb_refl.
    simpl. unfold GetOrder. simpl. rewrite lookup_insert_eq.
    split; [reflexivity|]. split; [reflexivity|].
    split; [reflexivity|]. split; [reflexivity|].
    split; [|reflexivity].
    unfold calculatePnL. simpl. rewrite Ht', He, Hq. reflexivity.
  - eexists. split; [exact Hs|]. simpl. unfold GetOrder. simpl.
    rewrite lookup_insert_eq, Hst', Hst.
    split; [exact Hl|]. split; [reflexivity|]. split; reflexivity.
Qed.

(** X9 at work: the long position entered at 100 is closed by a price
    update at its stop-loss 99.75. *)
Lemma X9_single_long_position_exit_witness :
  exists om' closed,
    CheckStopLossTakeProfit oneLong 99.75 = Some (om', ["a"%string]) /\
    GetOrder om' "a" = Some closed /\
    Status closed = OrderStatusClosed.
Proof.
  destruct (X9_single_long_position_exit oneLong "a" longAt100 99.75)
    as (_ & _ & _ & _ & H & _); try reflexivity.
  destruct H as (om' & closed & H1 & _ & H2 & H3 & _);
    [vm_compute; reflexivity|].
  exists om', closed. split; [exact H1|]. split; assumption.
Defined.

End LongExit.

Section ShortExit.
Import models trading lifecycle fixtures.
Local Open Scope float_scope.

(** X10.  The exit test of a short position, with the comparisons of the
    long side mirrored: take-profit at [price <= TakeProfit], then the
    trailing stop (only if enabled) at [price >= TrailingStopLoss], then
    the stop-loss at [price >= StopLoss], then the timeout, the first arm
    that holds being the one taken.  For a manager whose only open order
    is this short position, the price update closes it exactly when one
    of the four holds: it then returns its ID, empties the open list,
    stores the price as exit price and [(entry - price) * quantity] (no
    fees) as PnL, and adds this PnL to the total; otherwise it returns
    nothing and keeps the updated order open. *)
Theorem X10_single_short_position_exit (om : OrderManager)
  (orderID : string) (order : LocalOrder) (p : float) :
  openOrders om = [orderID] ->
  orders om !! orderID = Some order ->
  Status order = OrderStatusOpen ->
  orderType order = OrderTypeShort ->
  let order' := updateOrder p order in
  let tp := p <=. TakeProfit order in
  let ts := TrailingEnabled order' && (p >=. TrailingStopLoss order') in
  let sl := p >=. StopLoss order in
  let timeout := (BarsHeld order' >=? MaxHoldBars order)%Z in
  (exitBranch order' p = Some ExitTakeProfit <-> tp = true) /\
  (exitBranch order' p = Some ExitTrailingStop <-> tp = false /\ ts = true) /\
  (exitBranch order' p = Some ExitStopLoss <->
     tp = false /\ ts = false /\ sl = true) /\
  (exitBranch order' p = Some ExitTimeout <->
     tp = false /\ ts = false /\ sl = false /\ timeout = true) /\
  (tp || ts || sl || timeout = true ->
     exists om' closed,
       CheckStopLossTakeProfit om p = Some (om', [orderID]) /\
       openOrders om' = [] /\
       GetOrder om' orderID = Some closed /\
       Status closed = OrderStatusClosed /\ ExitPrice closed = p /\
       PnL closed = (EntryPrice order - p) * Quantity order - 0 - 0 /\
       totalPnL om' = totalPnL om + PnL closed) /\
  (tp || ts || sl || timeout = false ->
     exists om',
       CheckStopLossTakeProfit om p = Some (om', []) /\
       openOrders om' = [orderID] /\
       GetOrder om' orderID = Some order' /\
       Status order' = OrderStatusOpen /\
       totalPnL om' = totalPnL om).
Proof.
  intros Hl Hlk Hst Ht order' tp ts sl timeout.
  destruct (updateOrder_fixed p order)
    as (_ & _ & Ht' & He & _ & Hq & Hst' & Hsl & Htp & _ & Hmax & _).
  fold order' in Ht', He, Hq, Hst', Hsl, Htp, Hmax.
  rewrite Ht in Ht'.
  destruct (exitBranch_short_priority order' p Ht')
    as (H1 & H2 & H3 & H4 & _ & H6).
  rewrite Hsl, Htp, Hmax in *.
  fold tp in H1, H2, H3, H4, H6. fold ts in H2, H3, H4, H6.
  fold sl in H3, H4, H6. fold timeout in H4, H6.
  split; [exact H1|]. split; [exact H2|]. split; [exact H3|].
  split; [exact H4|].
  pose proof (CheckStopLossTakeProfit_single om orderID order p Hl Hlk Hst)
    as Hs.
  cbv zeta in Hs. fold order' in Hs. rewrite H6 in Hs.
  split; intros Hc; rewrite Hc in Hs.
  - unfold CloseOrder in Hs. simpl in Hs.
    rewrite lookup_insert_eq, Hst', Hst in Hs. simpl in Hs.
    eexists. eexists. split; [exact Hs|]. simpl.
    rewrite Hl. unfold removeOpenOrder. simpl. rewrite String.eqb_refl.
    simpl. unfold GetOrder. simpl. rewrite lookup_insert_eq.
    split; [reflexivity|]. split; [reflexivity|].
    split; [reflexivity|]. split; [reflexivity|].
    split; [|reflexivity].
    unfold calculatePnL. simpl. rewrite Ht', He, Hq. reflexivity.
  - eexists. split; [exact Hs|]. simpl. unfold GetOrder. simpl.
    rewrite lookup_insert_eq, Hst', Hst.
    split; [exact Hl|]. split; [reflexivity|]. split; reflexivity.
Qed.

(** X10 at work: a short position entered at 100 with the take-profit at
    99.4 is closed by a price update at 99.4. *)
Lemma X10_single_short_position_exit_witness :
  exists om' closed,
    CheckStopLossTakeProfit
      (fst (OpenShort NewOrderManager "s" "BTC" 100 1 100.25 99.4)) 99.4
    = Some (om', ["s"%string]) /\
    GetOrder om' "s" = Some closed /\
    Status closed = OrderStatusClosed.
Proof.
  destruct (X10_single_short_position_exit
              (fst (OpenShort NewOrderManager "s" "BTC" 100 1 100.25 99.4))
              "s" (newOrder OrderTypeShort "s" "BTC" 100 1 100.25 99.4) 99.4)
    as (_ & _ & _ & _ & H & _); try reflexivity.
  destruct H as (om' & closed & H1 & _ & H2 & H3 & _);
    [vm_compute; reflexivity|].
  exists om', closed. split; [exact H1|]. split; assumption.
Defined.

End ShortExit.

Section TwoOrders.
Import models trading lifecycle fixtures.
Local Open Scope float_scope.

Lemma checkStep_open (p : float) (st : LoopState) (i : nat)
  (orderID : string) (order : LocalOrder) :
  ls_backing st !! i = Some orderID ->
  orders (ls_om st) !! orderID = Some order ->
  Status order = OrderStatusOpen ->
  checkStep p st i =
  Some (mkLoopState (visitOrder p (ls_om st) orderID order)
          (if shouldClose (updateOrder p order) p
           then match indexOf (openOrders (ls_om st)) orderID with
                | Some j =>
                    spliceBacking (ls_backing st)
                      (length (openOrders (ls_om st))) j
                | None => ls_backing st
                end
           else ls_backing st)
          (ls_closedOrders st
           ++ if shouldClose (updateOrder p order) p then [orderID] else [])).
Proof.
  intros Hb Hlk Hs. unfold checkStep, visitOrder. rewrite Hb, Hlk, Hs. simpl.
  destruct (shouldClose (updateOrder p order) p);
    [reflexivity | rewrite app_nil_r; reflexivity].
Qed.

Lemma visitOrder_other (p : float) (om : OrderManager) (a b : string)
  (oa : LocalOrder) :
  a <> b -> orders om !! a = Some oa -> Status oa = OrderStatusOpen ->
  orders (visitOrder p om a oa) !! b = orders om !! b.
Proof.
  intros Hne Ha Hsa. unfold visitOrder. cbv zeta.
  destruct (updateOrder_fixed p oa) as (_ & _ & _ & _ & _ & _ & Hst & _).
  destruct (shouldClose (updateOrder p oa) p).
  - unfold CloseOrder. simpl. rewrite lookup_insert_eq, Hst, Hsa. simpl.
    rewrite !lookup_insert_ne by exact Hne. reflexivity.
  - simpl. rewrite lookup_insert_ne by exact Hne. reflexivity.
Qed.

(** X11.  With two open orders a price update goes through each of them
    exactly once, in the order of the open list: the manager afterwards is
    the loop body applied to the first order and then to the second one,
    and the IDs returned are those of the orders it closed, in that
    order.  (The first order moving out of the list shifts the second one
    down, and the place the loop reads next still holds the second one.) *)
Theorem X11_two_open_orders_are_each_visited_once (om : OrderManager)
  (a b : string) (oa ob : LocalOrder) (p : float) :
  openOrders om = [a; b] -> a <> b ->
  GetOrder om a = Some oa -> GetOrder om b = Some ob ->
  Status oa = OrderStatusOpen -> Status ob = OrderStatusOpen ->
  CheckStopLossTakeProfit om p
  = Some (visitOrder p (visitOrder p om a oa) b ob,
          (if shouldClose (updateOrder p oa) p then [a] else [])
          ++ (if shouldClose (updateOrder p ob) p then [b] else [])).
Proof.
  unfold GetOrder. intros Hl Hne Ha Hb Hsa Hsb.
  unfold CheckStopLossTakeProfit. rewrite Hl.
  change (seq 0 (length [a; b])) with [0; 1]%nat.
  cbn [checkLoop].
  rewrite (checkStep_open p _ 0 a oa); [|reflexivity|exact Ha|exact Hsa].
  cbn [ls_om ls_backing ls_closedOrders app].
  rewrite Hl. cbn [indexOf]. rewrite String.eqb_refl.
  rewrite (checkStep_open p _ 1 b ob).
  - reflexivity.
  - cbn [ls_backing]. destruct (shouldClose (updateOrder p oa) p); reflexivity.
  - cbn [ls_om]. rewrite visitOrder_other by assumption. exact Hb.
  - exact Hsb.
Qed.

(** X11 at work: two long positions with the take-profit at 100.6 and a
    price update at 100.6: both are closed and returned. *)
Lemma X11_two_open_orders_are_each_visited_once_witness :
  (snd <$> CheckStopLossTakeProfit
             (fst (OpenLong oneLong "b" "BTC" 100 1 99.75 100.6)) 100.6)
  = Some ["a"; "b"]%string.
Proof.
  rewrite (X11_two_open_orders_are_each_visited_once
             (fst (OpenLong oneLong "b" "BTC" 100 1 99.75 100.6)) "a" "b"
             longAt100 (newOrder OrderTypeLong "b" "BTC" 100 1 99.75 100.6)
             100.6); try reflexivity.
  discriminate.
Defined.

End TwoOrders.

(* ===================================================================== *)
(** * Part XVIII.  Opening, renaming and listing orders                   *)
(* ===================================================================== *)

Section Queries.
Import models trading lifecycle fixtures.
Local Open Scope float_scope.

Lemma renameFirst_last (l : list string) (oldID newID : string) :
  oldID ∉ l -> renameFirst (l ++ [oldID]) oldID newID = l ++ [newID].
Proof.
  induction l as [|y l IH]; intros Hn; simpl.
  - rewrite String.eqb_refl. reflexivity.
  - apply not_elem_of_cons in Hn. destruct Hn as [Hy Hn].
    destruct (String.eqb_spec y oldID) as [->|_]; [congruence|].
    rewrite IH by exact Hn. reflexivity.
Qed.

Lemma open_then_rename (t : OrderType) (om : OrderManager)
  (localID apiID symbol : string)
  (entryPrice quantity stopLoss takeProfit : float) :
  Consistent om ->
  orders om !! localID = None -> orders om !! apiID = None ->
  localID <> apiID ->
  let om' :=
    UpdateOrderID
      (mkOrderManager
         (<[localID := newOrder t localID symbol entryPrice quantity stopLoss
                         takeProfit]> (orders om))
         (openOrders om ++ [localID]) (totalPnL om))
      localID apiID in
  GetOrder om' apiID
  = Some (newOrder t apiID symbol entryPrice quantity stopLoss takeProfit) /\
  GetOrder om' localID = None /\
  openOrders om' = openOrders om ++ [apiID] /\
  totalPnL om' = totalPnL om /\
  (forall x, x <> apiID -> x <> localID -> GetOrder om' x = GetOrder om x) /\
  Consistent om'.
Proof.
  intros Hc Hl Ha Hne om'.
  assert (Hnotin : localID ∉ openOrders om).
  { intros H. apply (open_exact om Hc) in H. destruct H as (o & Ho & _).
    congruence. }
  assert (Hc1 : Consistent
                  (mkOrderManager
                     (<[localID := newOrder t localID symbol entryPrice
                                     quantity stopLoss takeProfit]>
                        (orders om))
                     (openOrders om ++ [localID]) (totalPnL om)))
    by (apply Consistent_add_open; [exact Hc | exact Hl | reflexivity]).
  assert (Hc' : Consistent om').
  { apply Consistent_UpdateOrderID; [exact Hc1|]. intros _. simpl.
    rewrite lookup_insert_ne by exact Hne. exact Ha. }
  unfold om', UpdateOrderID, GetOrder in *. simpl in *.
  rewrite lookup_insert_eq in *. simpl in *.
  split.
  { rewrite lookup_delete_ne by exact Hne. rewrite lookup_insert_eq.
    reflexivity. }
  split; [apply lookup_delete_eq|].
  split; [apply renameFirst_last; exact Hnotin|].
  split; [reflexivity|].
  split; [|exact Hc'].
  intros x Hx1 Hx2.
  rewrite lookup_delete_ne by congruence.
  rewrite lookup_insert_ne by congruence.
  rewrite lookup_insert_ne by congruence. reflexivity.
Qed.

(** X12.  What [handleLongEntry] and [handleShortEntry] do to the books:
    [OpenLong] (or [OpenShort]) under the local ID, then
    [UpdateOrderID] to the ID the exchange answered.  When both IDs are
    new and differ, the order is afterwards found under the exchange ID,
    with that ID in its [ID] field and otherwise as it was opened (status
    open, trailing stop disabled and set to the stop-loss, counter 0);
    nothing is found under the local ID; the exchange ID is the last entry
    of the open list; the total PnL and all other orders are as before;
    and the books agree. *)
Theorem X12_open_then_UpdateOrderID (om : OrderManager)
  (localID apiID symbol : string)
  (entryPrice quantity stopLoss takeProfit : float) :
  Consistent om ->
  orders om !! localID = None -> orders om !! apiID = None ->
  localID <> apiID ->
  let opened (t : OrderType) :=
    UpdateOrderID
      (fst (match t with
            | OrderTypeLong => OpenLong
            | OrderTypeShort => OpenShort
            end om localID symbol entryPrice quantity stopLoss takeProfit))
      localID apiID in
  forall t,
    GetOrder (opened t) apiID
    = Some (newOrder t apiID symbol entryPrice quantity stopLoss
              takeProfit) /\
    GetOrder (opened t) localID = None /\
    openOrders (opened t) = openOrders om ++ [apiID] /\
    totalPnL (opened t) = totalPnL om /\
    (forall x, x <> apiID -> x <> localID ->
               GetOrder (opened t) x = GetOrder om x) /\
    Consistent (opened t).
Proof.
  intros Hc Hl Ha Hne opened t.
  destruct t; unfold opened, OpenLong, OpenShort; cbn [fst];
    apply open_then_rename; assumption.
Qed.

(** X12 at work: a long position opened as [LOCAL_1] and renamed to [42]. *)
Lemma X12_open_then_UpdateOrderID_witness :
  GetOrder
    (UpdateOrderID (fst (OpenLong NewOrderManager "LOCAL_1" "BTC" 100 1 99.75
                           100.6)) "LOCAL_1" "42") "42"
  = Some (newOrder OrderTypeLong "42" "BTC" 100 1 99.75 100.6).
Proof.
  refine (proj1 (X12_open_then_UpdateOrderID NewOrderManager "LOCAL_1" "42"
                   "BTC" 100 1 99.75 100.6 Consistent_NewOrderManager
                   _ _ _ OrderTypeLong)).
  - reflexivity.
  - reflexivity.
  - discriminate.
Defined.

End Queries.

Section Listing.
Import models trading lifecycle fixtures.
Local Open Scope float_scope.

Lemma fold_select (om : OrderManager) (keep : OrderStatus -> bool)
  (ids : list string) :
  forall acc,
    fold_left
      (fun acc orderID =>
         match orders om !! orderID with
         | Some order => if keep (Status order) then acc ++ [order] else acc
         | None => acc
         end) ids acc
    = acc ++ omap (select om keep) ids.
Proof.
  induction ids as [|x ids IH]; intros acc; simpl.
  - rewrite app_nil_r. reflexivity.
  - rewrite IH. unfold select at 2.
    destruct (orders om !! x) as [o|]; [|reflexivity].
    destruct (keep (Status o)); [|reflexivity].
    rewrite <- app_assoc. reflexivity.
Qed.

Lemma GetOpenOrders_omap (om : OrderManager) :
  GetOpenOrders om = omap (select om isOpen) (openOrders om).
Proof. unfold GetOpenOrders. rewrite fold_select. reflexivity. Qed.

Lemma GetClosedOrders_omap (om : OrderManager) (visit : list string) :
  GetClosedOrders om visit = omap (select om isClosed) visit.
Proof. unfold GetClosedOrders. rewrite fold_select. reflexivity. Qed.

Lemma keyedByID_insert (om : OrderManager) (orderID : string)
  (o : LocalOrder) (l : list string) (t : float) :
  keyedByID om -> ID o = orderID ->
  keyedByID (mkOrderManager (<[orderID := o]> (orders om)) l t).
Proof.
  intros Ha Ho x o'. simpl. destruct (decide (orderID = x)) as [->|Hne].
  - rewrite lookup_insert_eq. intros [= <-]. exact Ho.
  - rewrite lookup_insert_ne by exact Hne. apply Ha.
Qed.

Lemma keyedByID_CloseOrder (om : OrderManager) (orderID : string)
  (exitPrice tradingFee fundingFee : float) :
  keyedByID om ->
  keyedByID (fst (CloseOrder om orderID exitPrice tradingFee fundingFee)).
Proof.
  intros Ha. unfold CloseOrder.
  destruct (orders om !! orderID) as [o|] eqn:Hlk; [|exact Ha].
  destruct (isOpen (Status o)); simpl; [|exact Ha].
  apply keyedByID_insert; [exact Ha|]. exact (Ha _ _ Hlk).
Qed.

Lemma keyedByID_UpdateOrderID (om : OrderManager) (oldID newID : string) :
  keyedByID om -> keyedByID (UpdateOrderID om oldID newID).
Proof.
  intros Ha. unfold UpdateOrderID.
  destruct (orders om !! oldID) as [o|] eqn:Hlk; [|exact Ha].
  intros x o'. simpl. destruct (decide (x = oldID)) as [->|Hxo].
  - rewrite lookup_delete_eq. discriminate.
  - rewrite lookup_delete_ne by congruence.
    destruct (decide (newID = x)) as [->|Hne].
    + rewrite lookup_insert_eq. intros [= <-]. reflexivity.
    + rewrite lookup_insert_ne by exact Hne. apply Ha.
Qed.

Lemma keyedByID_checkStep (p : float) (st st' : LoopState) (i : nat) :
  checkStep p st i = Some st' ->
  keyedByID (ls_om st) -> keyedByID (ls_om st').
Proof.
  unfold checkStep. intros Hstep Ha.
  destruct (ls_backing st !! i) as [orderID|]; [|discriminate].
  destruct (orders (ls_om st) !! orderID) as [order|] eqn:Hlk;
    [|discriminate].
  destruct (isOpen (Status order)); simpl in Hstep;
    [|injection Hstep as <-; exact Ha].
  assert (H1 : keyedByID (set_orders (ls_om st)
                 (<[orderID := updateOrder p order]> (orders (ls_om st))))).
  { apply keyedByID_insert; [exact Ha|].
    destruct (updateOrder_fixed p order) as (-> & _).
    exact (Ha _ _ Hlk). }
  destruct (shouldClose (updateOrder p order) p);
    injection Hstep as <-; simpl.
  - apply keyedByID_CloseOrder. exact H1.
  - exact H1.
Qed.

Lemma keyedByID_checkLoop (p : float) (idxs : list nat) :
  forall st st',
    checkLoop p st idxs = Some st' ->
    keyedByID (ls_om st) -> keyedByID (ls_om st').
Proof.
  induction idxs as [|i idxs IH]; intros st st' Hloop Ha; simpl in Hloop.
  - injection Hloop as <-. exact Ha.
  - destruct (checkStep p st i) as [st1|] eqn:Hstep; [|discriminate].
    exact (IH st1 st' Hloop (keyedByID_checkStep p st st1 i Hstep Ha)).
Qed.

Lemma keyedByID_applyOp (om om' : OrderManager) (op : Op) :
  applyOp om op = Some om' -> keyedByID om -> keyedByID om'.
Proof.
  intros Hop Ha. destruct op; simpl in Hop.
  - injection Hop as <-. apply keyedByID_insert; [exact Ha | reflexivity].
  - injection Hop as <-. apply keyedByID_insert; [exact Ha | reflexivity].
  - injection Hop as <-. apply keyedByID_CloseOrder. exact Ha.
  - injection Hop as <-. apply keyedByID_UpdateOrderID. exact Ha.
  - unfold CheckStopLossTakeProfit in Hop.
    destruct (checkLoop currentPrice _ _) as [st|] eqn:Hloop;
      [|discriminate].
    injection Hop as <-.
    exact (keyedByID_checkLoop _ _ _ _ Hloop Ha).
Qed.

Lemma keyedByID_run (ops : list Op) :
  forall om om', run om ops = Some om' -> keyedByID om -> keyedByID om'.
Proof.
  induction ops as [|op ops IH]; intros om om' Hrun Ha; simpl in Hrun.
  - injection Hrun as <-. exact Ha.
  - destruct (applyOp om op) as [om1|] eqn:Hop; [|discriminate].
    exact (IH om1 om' Hrun (keyedByID_applyOp om om1 op Hop Ha)).
Qed.

Lemma keyedByID_NewOrderManager : keyedByID NewOrderManager.
Proof.
  intros x o H. simpl in H. rewrite lookup_empty in H. discriminate.
Qed.

Lemma omap_open_Forall2 (om : OrderManager) (ids : list string) :
  (forall x, x ∈ ids -> hasStatus om OrderStatusOpen x) ->
  Forall2 (fun orderID order =>
             orders om !! orderID = Some order /\
             Status order = OrderStatusOpen)
    ids (omap (select om isOpen) ids).
Proof.
  induction ids as [|x ids IH]; intros H; simpl; [constructor|].
  destruct (H x) as (o & Ho & Hs); [apply elem_of_cons; auto|].
  unfold select at 1. rewrite Ho, Hs. simpl.
  constructor; [auto|]. apply IH. intros y Hy. apply H.
  apply elem_of_cons. auto.
Qed.

(** X13.  [GetOpenOrders] on a manager built from [NewOrderManager]
    through calls that bring in new IDs only: it returns one order for
    each entry of the open list, in the order of the list; each is the
    order [GetOrder] finds under that ID, carries that ID and has status
    open; and every open order of the map is among them. *)
Theorem X13_GetOpenOrders_lists_the_open_orders (ops : list Op)
  (om : OrderManager) :
  freshRun NewOrderManager ops ->
  run NewOrderManager ops = Some om ->
  ID <$> GetOpenOrders om = openOrders om /\
  Forall2 (fun orderID order =>
             GetOrder om orderID = Some order /\
             Status order = OrderStatusOpen)
    (openOrders om) (GetOpenOrders om) /\
  (forall orderID order,
     GetOrder om orderID = Some order -> Status order = OrderStatusOpen ->
     order ∈ GetOpenOrders om).
Proof.
  intros Hf Hrun.
  destruct (run_Consistent ops NewOrderManager Consistent_NewOrderManager Hf)
    as (om1 & E & Hc).
  rewrite Hrun in E. injection E as <-.
  pose proof (keyedByID_run ops _ _ Hrun keyedByID_NewOrderManager) as Hk.
  assert (H2 : Forall2 (fun orderID order =>
                          orders om !! orderID = Some order /\
                          Status order = OrderStatusOpen)
                 (openOrders om) (GetOpenOrders om)).
  { rewrite GetOpenOrders_omap. apply omap_open_Forall2.
    intros x Hx. apply (open_exact om Hc). exact Hx. }
  split; [|split; [exact H2|]].
  - clear - H2 Hk. induction H2 as [|x o l k [Ho _] _ IH]; [reflexivity|].
    rewrite fmap_cons, IH, (Hk _ _ Ho). reflexivity.
  - intros x o Ho Hs.
    assert (Hx : x ∈ openOrders om)
      by (apply (open_exact om Hc); exists o; auto).
    clear - H2 Hx Ho. unfold GetOrder in Ho.
    induction H2 as [|y o' l k [Ho' _] _ IH]; [inversion Hx|].
    apply elem_of_cons in Hx. destruct Hx as [->|Hx].
    + rewrite Ho in Ho'. injection Ho' as <-. apply elem_of_cons. auto.
    + apply elem_of_cons. right. apply IH. exact Hx.
Qed.

(** X13 at work: the manager with one long position. *)
Lemma X13_GetOpenOrders_lists_the_open_orders_witness :
  ID <$> GetOpenOrders oneLong = openOrders oneLong.
Proof.
  refine (proj1 (X13_GetOpenOrders_lists_the_open_orders
                   [OpOpenLong "a" "BTC" 100 1 99.75 100.6] oneLong _ _)).
  - simpl. split; [reflexivity | exact I].
  - reflexivity.
Defined.

End Listing.

(* ===================================================================== *)
(** * Part XIX.  The statistics of the trading system                     *)
(* ===================================================================== *)

Section Performance.
Import models trading lifecycle fixtures.
Local Open Scope float_scope.

Lemma length_omap_filter {A B : Type} (f : A -> option B) (l : list A) :
  length (omap f l) = length (filter (fun x => is_Some (f x)) l).
Proof.
  induction l as [|x l IH]; [reflexivity|].
  simpl. rewrite filter_cons.
  destruct (f x) as [y|] eqn:E.
  - destruct (decide (is_Some (Some y))) as [_|H];
      [simpl; f_equal; exact IH|].
    exfalso. apply H. eauto.
  - destruct (decide (is_Some (@None B))) as [H|_]; [|exact IH].
    destruct H as [? H]. discriminate.
Qed.

Lemma length_filter_split {A : Type} (P Q : A -> Prop)
  `{forall x, Decision (P x)} `{forall x, Decision (Q x)} (l : list A) :
  Forall (fun x => P x <-> ~ Q x) l ->
  (length (filter P l) + length (filter Q l) = length l)%nat.
Proof.
  induction 1 as [|x l Hx Hl IH]; [reflexivity|].
  rewrite !filter_cons.
  destruct (decide (P x)) as [HP|HP], (decide (Q x)) as [HQ|HQ];
    simpl; try lia; tauto.
Qed.

Lemma select_is_Some (om : OrderManager) (keep : OrderStatus -> bool)
  (x : string) :
  is_Some (select om keep x) <->
  exists o, orders om !! x = Some o /\ keep (Status o) = true.
Proof.
  unfold select. destruct (orders om !! x) as [o|].
  - destruct (keep (Status o)) eqn:E.
    + split; [intros _; eauto | intros _; eauto].
    + split; [intros [? H]; discriminate|].
      intros (o' & [= <-] & H). congruence.
  - split; [intros [? H]; discriminate | intros (o' & H & _); discriminate].
Qed.

(** X14.  [GetPerformance] counts every order once.  For the manager of a
    trading system built from [NewOrderManager] through calls that bring
    in new IDs only, and whatever the order in which Go goes through the
    map: the number of open orders reported is the length of the open
    list, the numbers of closed and of open orders add up to the number of
    orders in the map, which is the total reported, and the total PnL
    reported is the one of the manager. *)
Theorem X14_GetPerformance_counts_every_order_once (ops : list Op)
  (ts : TradingSystem) (visit : list string) :
  freshRun NewOrderManager ops ->
  run NewOrderManager ops = Some (orderManager ts) ->
  rangeOf (orderManager ts) visit ->
  let stats := GetPerformance ts visit in
  OpenOrders stats = Z.of_nat (length (openOrders (orderManager ts))) /\
  (ClosedOrders stats + OpenOrders stats
   = Z.of_nat (size (orders (orderManager ts))))%Z /\
  TotalOrders stats = int64 (Z.of_nat (size (orders (orderManager ts)))) /\
  TotalPnL stats = totalPnL (orderManager ts).
Proof.
  intros Hf Hrun Hvisit stats.
  set (om := orderManager ts) in *.
  destruct (run_Consistent ops NewOrderManager Consistent_NewOrderManager Hf)
    as (om1 & E & Hc).
  rewrite Hrun in E. injection E as <-.
  pose proof (allWithinHold_run ops _ _ Hrun allWithinHold_NewOrderManager)
    as Hh.
  set (keys := (map_to_list (orders om)).*1) in *.
  assert (Hkeys : forall x, x ∈ keys <-> is_Some (orders om !! x)).
  { intros x. unfold keys. rewrite list_elem_of_fmap. split.
    - intros ([k o] & -> & H). apply elem_of_map_to_list in H. eauto.
    - intros [o H]. exists (x, o). split; [reflexivity|].
      apply elem_of_map_to_list. exact H. }
  assert (Hopen : length (GetOpenOrders om) = length (openOrders om)).
  { rewrite GetOpenOrders_omap.
    pose proof (omap_open_Forall2 om (openOrders om)) as H2.
    symmetry. eapply Forall2_length. apply H2.
    intros x Hx. apply (open_exact om Hc). exact Hx. }
  assert (Hperm : openOrders om
                  ≡ₚ filter (fun x => is_Some (select om isOpen x)) keys).
  { apply NoDup_Permutation.
    - apply (open_NoDup om Hc).
    - apply NoDup_filter. apply NoDup_fst_map_to_list.
    - intros x. rewrite list_elem_of_filter, select_is_Some, Hkeys.
      rewrite (open_exact om Hc). unfold hasStatus. split.
      + intros (o & Ho & Hs). split; [|eauto].
        exists o. split; [exact Ho|]. rewrite Hs. reflexivity.
      + intros ((o & Ho & Hs) & _). exists o. split; [exact Ho|].
        apply isOpen_true. exact Hs. }
  assert (Hsplit :
    (length (filter (fun x => is_Some (select om isOpen x)) keys)
     + length (filter (fun x => is_Some (select om isClosed x)) keys)
     = length keys)%nat).
  { apply length_filter_split. apply Forall_forall. intros x Hx.
    apply Hkeys in Hx. destruct Hx as [o Ho].
    rewrite !select_is_Some.
    destruct (Hh _ _ Ho) as (_ & [Hs|Hs] & _).
    - split.
      + intros _ (o' & Ho' & Hc'). rewrite Ho in Ho'. injection Ho' as <-.
        rewrite Hs in Hc'. discriminate.
      + intros _. exists o. rewrite Hs. auto.
    - split.
      + intros (o' & Ho' & Hc'). rewrite Ho in Ho'. injection Ho' as <-.
        rewrite Hs in Hc'. discriminate.
      + intros H. exfalso. apply H. exists o. rewrite Hs. auto. }
  assert (Hclosed : length (GetClosedOrders om visit)
                    = length (filter (fun x => is_Some (select om isClosed x))
                                keys)).
  { rewrite GetClosedOrders_omap, length_omap_filter.
    apply Permutation_length. unfold rangeOf in Hvisit. fold keys in Hvisit.
    rewrite Hvisit. reflexivity. }
  assert (Hsize : length keys = size (orders om)).
  { unfold keys. rewrite length_fmap. apply length_map_to_list. }
  assert (Hsum : (strategy.len (GetClosedOrders om visit)
                  + strategy.len (GetOpenOrders om)
                  = Z.of_nat (size (orders om)))%Z).
  { unfold strategy.len. rewrite Hclosed, Hopen.
    rewrite (Permutation_length Hperm). lia. }
  unfold stats, GetPerformance. fold om. cbn [OpenOrders ClosedOrders
    TotalOrders TotalPnL].
  split; [unfold strategy.len; rewrite Hopen; reflexivity|].
  split; [exact Hsum|].
  split; [rewrite Hsum; reflexivity | reflexivity].
Qed.

(** X14 at work: a trading system whose manager holds one long position. *)
Lemma X14_GetPerformance_counts_every_order_once_witness :
  OpenOrders
    (GetPerformance
       (mkTradingSystem strategy.NewPatternVolumeDeltaStrategy oneLong
          (indicators.NewCalculator 30) "BTC" "1m" 0 0.25 0.6 1 0.02 [])
       ["a"%string])
  = 1%Z.
Proof.
  refine (proj1 (X14_GetPerformance_counts_every_order_once
                   [OpOpenLong "a" "BTC" 100 1 99.75 100.6]
                   (mkTradingSystem strategy.NewPatternVolumeDeltaStrategy
                      oneLong (indicators.NewCalculator 30) "BTC" "1m" 0 0.25
                      0.6 1 0.02 [])
                   ["a"%string] _ _ _)).
  - simpl. split; [reflexivity | exact I].
  - reflexivity.
  - unfold rangeOf. vm_compute. reflexivity.
Defined.

Lemma winCount_Permutation (l1 l2 : list LocalOrder) :
  l1 ≡ₚ l2 ->
  forall c : Z,
    fold_left
      (fun winCount order =>
         if PnL order >. 0 then int64 (winCount + 1) else winCount) l1 c
    = fold_left
        (fun winCount order =>
           if PnL order >. 0 then int64 (winCount + 1) else winCount) l2 c.
Proof.
  induction 1 as [|x l1 l2 _ IH|x y l|l1 l2 l3 _ IH1 _ IH2]; intros c; simpl.
  - reflexivity.
  - apply IH.
  - destruct (PnL x >. 0), (PnL y >. 0); reflexivity.
  - rewrite IH1. apply IH2.
Qed.

Lemma calculateWinRate_Permutation (l1 l2 : list LocalOrder) :
  l1 ≡ₚ l2 -> calculateWinRate l1 = calculateWinRate l2.
Proof.
  intros H. unfold calculateWinRate, strategy.len.
  rewrite (Permutation_length H), (winCount_Permutation l1 l2 H).
  reflexivity.
Qed.



End Performance.

Section Statistics.
Import models trading.
Local Open Scope float_scope.

Lemma fold_keep {A : Type} (keep : A -> bool) (l : list A) :
  forall acc,
    fold_left (fun acc x => if keep x then acc ++ [x] else acc) l acc
    = acc ++ filter (fun x => keep x = true) l.
Proof.
  induction l as [|x l IH]; intros acc; simpl.
  - rewrite app_nil_r. reflexivity.
  - rewrite IH, filter_cons.
    destruct (keep x); simpl.
    + destruct (decide (true = true)) as [_|H]; [|congruence].
      rewrite <- app_assoc. reflexivity.
    + destruct (decide (false = true)) as [H|_]; [discriminate|].
      reflexivity.
Qed.

Lemma calculateAverageWin_filter (orders : list LocalOrder) :
  calculateAverageWin orders =
  let winOrders := filter (fun o => (PnL o >. 0) = true) orders in
  if (strategy.len winOrders =? 0)%Z then 0
  else fold_left (fun totalWin order => totalWin + PnL order) winOrders 0
       / float64_of_int (strategy.len winOrders).
Proof.
  unfold calculateAverageWin.
  rewrite (fold_keep (fun o => PnL o >. 0) orders []). reflexivity.
Qed.

Lemma calculateAverageLoss_filter (orders : list LocalOrder) :
  calculateAverageLoss orders =
  let lossOrders := filter (fun o => (PnL o <. 0) = true) orders in
  if (strategy.len lossOrders =? 0)%Z then 0
  else fold_left (fun totalLoss order => totalLoss + PnL order) lossOrders 0
       / float64_of_int (strategy.len lossOrders).
Proof.
  unfold calculateAverageLoss.
  rewrite (fold_keep (fun o => PnL o <. 0) orders []). reflexivity.
Qed.

(** X16.  The averages of the statistics and their empty cases.  With no
    order at all the win rate, the average win and the average loss are 0,
    and so is the average win without a winning order and the average loss
    without a losing one: none of them divides by a zero count.  An order
    that is not a winner (PnL not above 0) does not change the average
    win, wherever it stands in the list, and an order that is not a loser
    does not change the average loss; an order with a PnL of exactly 0, or
    one that is not a number, is neither. *)
Theorem X16_averages_ignore_the_other_orders (before after : list LocalOrder)
  (order : LocalOrder) :
  calculateWinRate [] = 0 /\
  calculateAverageWin [] = 0 /\ calculateAverageLoss [] = 0 /\
  ((PnL order >. 0) = false ->
     calculateAverageWin (before ++ order :: after)
     = calculateAverageWin (before ++ after)) /\
  ((PnL order <. 0) = false ->
     calculateAverageLoss (before ++ order :: after)
     = calculateAverageLoss (before ++ after)) /\
  (Forall (fun o => (PnL o >. 0) = false) before ->
     calculateAverageWin before = 0) /\
  (Forall (fun o => (PnL o <. 0) = false) before ->
     calculateAverageLoss before = 0) /\
  ((PnL order ==. 0) = true \/ F64.IsNaN (PnL order) = true ->
     (PnL order >. 0) = false /\ (PnL order <. 0) = false).
Proof.
  split; [reflexivity|]. split; [reflexivity|]. split; [reflexivity|].
  split; [|split; [|split; [|split]]].
  - intros H. rewrite !calculateAverageWin_filter. cbv zeta.
    rewrite !filter_app, filter_cons.
    destruct (decide ((PnL order >. 0) = true)); [congruence|reflexivity].
  - intros H. rewrite !calculateAverageLoss_filter. cbv zeta.
    rewrite !filter_app, filter_cons.
    destruct (decide ((PnL order <. 0) = true)); [congruence|reflexivity].
  - intros H. rewrite calculateAverageWin_filter. cbv zeta.
    replace (filter (fun o => (PnL o >. 0) = true) before)
      with (@nil LocalOrder); [reflexivity|].
    symmetry. induction H as [|x l Hx Hl IH]; [reflexivity|].
    rewrite filter_cons.
    destruct (decide ((PnL x >. 0) = true)); [congruence|exact IH].
  - intros H. rewrite calculateAverageLoss_filter. cbv zeta.
    replace (filter (fun o => (PnL o <. 0) = true) before)
      with (@nil LocalOrder); [reflexivity|].
    symmetry. induction H as [|x l Hx Hl IH]; [reflexivity|].
    rewrite filter_cons.
    destruct (decide ((PnL x <. 0) = true)); [congruence|exact IH].
  - intros [H|H]; split; fkeys.
Qed.

End Statistics.

Section Intervals.
Import models trading.

(** X17.  The two interval tables of the trading system agree: for every
    interval text, the duration of [getIntervalDuration] is the number of
    seconds of [getIntervalSeconds]; the interval is between one minute
    and one day; and a text that is none of the six known ones gives five
    minutes in both. *)
Theorem X17_interval_tables_agree (ts : TradingSystem) :
  getIntervalDuration ts = (getIntervalSeconds ts * Second)%Z /\
  (60 <= getIntervalSeconds ts <= 86400)%Z /\
  (~ In (interval ts) ["1m"; "5m"; "15m"; "1h"; "4h"; "1d"]%string ->
   getIntervalSeconds ts = 300%Z /\ getIntervalDuration ts = (5 * Minute)%Z).
Proof.
  unfold getIntervalDuration, getIntervalSeconds, Hour, Minute, Second.
  repeat match goal with
    | |- context [String.eqb ?a ?b] =>
        destruct (String.eqb_spec a b)
    end;
    (split; [reflexivity|]; split; [lia|]); intros H;
    try (split; reflexivity); exfalso; apply H; simpl; auto 10.
Qed.

Lemma substring_whole (t : string) :
  String.substring 0 (String.length t) t = t.
Proof.
  induction t as [|b t IH]; simpl; [reflexivity | rewrite IH; reflexivity].
Qed.

Lemma substring_suffix (s t : string) :
  String.substring (String.length (s ++ t) - String.length t)
    (String.length t) (s ++ t) = t.
Proof.
  induction s as [|a s IH]; simpl.
  - rewrite Nat.sub_diag. apply substring_whole.
  - assert (H : (String.length t <= String.length (s ++ t))%nat).
    { clear. induction s as [|a s IH]; [apply Nat.le_refl | simpl; lia]. }
    replace (S (String.length (s ++ t)) - String.length t)%nat
      with (S (String.length (s ++ t) - String.length t)) by lia.
    exact IH.
Qed.

Lemma HasSuffix_app (s t : string) : HasSuffix (s ++ t) t = true.
Proof.
  unfold HasSuffix. rewrite substring_suffix, String.eqb_refl.
  rewrite andb_true_r. apply Nat.leb_le.
  induction s as [|a s IH]; [apply Nat.le_refl | simpl; lia].
Qed.

(** X18.  [getFuturesSymbol] always answers a symbol that ends in
    [_PERP], and it is idempotent: a system whose symbol is already the
    answer gets the same answer.  A symbol without the suffix gets it
    appended. *)
Theorem X18_getFuturesSymbol_is_idempotent (ts ts' : TradingSystem) :
  symbol ts' = getFuturesSymbol ts ->
  HasSuffix (getFuturesSymbol ts) "_PERP" = true /\
  getFuturesSymbol ts' = getFuturesSymbol ts /\
  (HasSuffix (symbol ts) "_PERP" = false ->
   getFuturesSymbol ts = (symbol ts ++ "_PERP")%string).
Proof.
  intros Hs.
  assert (H1 : HasSuffix (getFuturesSymbol ts) "_PERP" = true).
  { unfold getFuturesSymbol.
    destruct (HasSuffix (symbol ts) "_PERP") eqn:E;
      [exact E | apply HasSuffix_app]. }
  split; [exact H1|]. split.
  - unfold getFuturesSymbol at 1. rewrite Hs, H1. reflexivity.
  - intros H. unfold getFuturesSymbol. rewrite H. reflexivity.
Qed.

(** X18 at work: the systems of the symbols [SOL_USDC_PERP] and
    [SOL_USDC] trade the same futures symbol. *)
Lemma X18_getFuturesSymbol_is_idempotent_witness :
  getFuturesSymbol
    (NewTradingSystem (mkConfig "SOL_USDC_PERP" "1m" 0 0.25 0.6 1 0.02))
  = getFuturesSymbol
      (NewTradingSystem (mkConfig "SOL_USDC" "1m" 0 0.25 0.6 1 0.02)).
Proof.
  refine (proj1 (proj2 (X18_getFuturesSymbol_is_idempotent _ _ _))).
  reflexivity.
Defined.

End Intervals.

(* ===================================================================== *)
(** * Part XX.  The indicators and the EMA + MACD strategy                *)
(* ===================================================================== *)

Section Trend.
Import models indicators.
Local Open Scope float_scope.

Lemma bullish_not_bearish (data : MarketData) :
  IsBullishTrend data = true -> IsBearishTrend data = false.
Proof.
  unfold IsBullishTrend, IsBearishTrend. cbv zeta.
  intros H. repeat (apply andb_prop in H; destruct H as [H ?]).
  assert (E : (EMA8 (mdIndicators data) <. EMA30 (mdIndicators data)) = false)
    by (clear - H; fkeys).
  rewrite E. reflexivity.
Qed.

(** X19.  A snapshot is never both in a bullish and in a bearish trend, so
    [GetTrendDirection] answers bullish exactly when [IsBullishTrend]
    holds, bearish exactly when [IsBearishTrend] holds, and neutral
    exactly when neither does; a snapshot whose EMA8 is not a number is
    neutral. *)
Theorem X19_trend_is_bullish_or_bearish_never_both (data : MarketData) :
  IsBullishTrend data && IsBearishTrend data = false /\
  (GetTrendDirection data = TrendBullish <-> IsBullishTrend data = true) /\
  (GetTrendDirection data = TrendBearish <-> IsBearishTrend data = true) /\
  (GetTrendDirection data = TrendNeutral <->
     IsBullishTrend data = false /\ IsBearishTrend data = false) /\
  (F64.IsNaN (EMA8 (mdIndicators data)) = true ->
     GetTrendDirection data = TrendNeutral).
Proof.
  pose proof (bullish_not_bearish data) as H.
  unfold GetTrendDirection.
  split; [|split; [|split; [|split]]].
  - destruct (IsBullishTrend data); [rewrite H; reflexivity | reflexivity].
  - destruct (IsBullishTrend data), (IsBearishTrend data);
      split; intros; congruence.
  - destruct (IsBullishTrend data) eqn:E.
    + rewrite (H eq_refl). split; intros; congruence.
    + destruct (IsBearishTrend data); split; intros; congruence.
  - destruct (IsBullishTrend data), (IsBearishTrend data);
      split; intros; try reflexivity; try congruence; try tauto;
      destruct H0; congruence.
  - intros Hn.
    assert (E1 : IsBullishTrend data = false).
    { unfold IsBullishTrend. cbv zeta.
      assert (E : (EMA8 (mdIndicators data) >. EMA30 (mdIndicators data))
                  = false) by (clear - Hn; fkeys).
      rewrite E. reflexivity. }
    assert (E2 : IsBearishTrend data = false).
    { unfold IsBearishTrend. cbv zeta.
      assert (E : (EMA8 (mdIndicators data) <. EMA30 (mdIndicators data))
                  = false) by (clear - Hn; fkeys).
      rewrite E. reflexivity. }
    rewrite E1, E2. reflexivity.
Qed.

End Trend.

Section WarmUp.
Import models indicators.
Local Open Scope float_scope.

Variable Ema : list float -> Z -> list float.
Variable Macd :
  list float -> Z -> Z -> Z -> list float * list float * list float.
Variable Rsi : list float -> Z -> list float.

Lemma getValueAt_nil (i : Z) : getValueAt [] i = 0.
Proof.
  unfold getValueAt.
  destruct ((i <? 0)%Z || (i >=? strategy.len [])%Z); [reflexivity|].
  destruct (Z.to_nat i); reflexivity.
Qed.

Lemma indices_lookup (n i : nat) (z : Z) :
  indices n !! i = Some z -> z = Z.of_nat i /\ (i < n)%nat.
Proof.
  unfold indices. rewrite list_lookup_fmap.
  destruct (seq 0 n !! i) as [j|] eqn:E; [|discriminate].
  apply lookup_seq in E. destruct E as [-> E]. simpl.
  intros [= <-]. split; [reflexivity | exact E].
Qed.

Lemma neutral_without_long_averages (kline : KLine) (ind : Indicators) :
  EMA144 ind = 0 -> EMA169 ind = 0 ->
  GetTrendDirection (mkMarketData kline ind) = TrendNeutral.
Proof.
  intros H1 H2. unfold GetTrendDirection, IsBullishTrend, IsBearishTrend.
  cbn [mdIndicators mdKLine]. rewrite H1, H2.
  replace (0 >. 0) with false by reflexivity.
  replace (0 <. 0) with false by reflexivity.
  rewrite !andb_false_r. reflexivity.
Qed.

(** Below 144 bars the two long averages are not computed: every entry has
    them at 0, and the trend of a snapshot made of it is neutral. *)
Lemma CalculateIndicators_short (c : Calculator) (klines : list KLine)
  (ind : Indicators) (kline : KLine) :
  (length klines < 144)%nat ->
  ind ∈ CalculateIndicators Ema Macd Rsi c klines ->
  EMA144 ind = 0 /\ EMA169 ind = 0 /\
  GetTrendDirection (mkMarketData kline ind) = TrendNeutral.
Proof.
  intros H144 Hin. unfold CalculateIndicators, strategy.len in Hin.
  destruct (Z.of_nat (length klines) <? 30)%Z; [inversion Hin|].
  destruct (if (Z.of_nat (length klines) >=? 26)%Z
            then Macd (map Close klines) 12 26 9 else ([], [], []))
    as [[macd macdSignal] macdHistogram].
  replace (Z.of_nat (length klines) >=? 144)%Z with false in Hin
    by (symmetry; rewrite Z.geb_leb; apply Z.leb_gt; lia).
  replace (Z.of_nat (length klines) >=? 169)%Z with false in Hin
    by (symmetry; rewrite Z.geb_leb; apply Z.leb_gt; lia).
  apply list_elem_of_fmap in Hin. destruct Hin as (z & -> & _).
  destruct (z >=? 29)%Z.
  - cbn [EMA144 EMA169]. rewrite !getValueAt_nil.
    split; [reflexivity|]. split; [reflexivity|].
    apply neutral_without_long_averages; reflexivity.
  - split; [reflexivity|]. split; [reflexivity|].
    apply neutral_without_long_averages; reflexivity.
Qed.

(** X20.  The warm-up of [CalculateIndicators], whatever the three
    functions of the indicator library answer.  With fewer than 30 bars it
    returns nothing.  Otherwise it returns one entry for each bar; the
    entries of the first 29 bars are all zero; from the 30th bar on the
    EMA8 and the EMA30 of an entry are the values of the library at its
    index, 0 where the library gave none; with fewer than 55 bars the
    EMA55 of every entry is 0; with fewer than 144 bars EMA144 and EMA169
    are 0 and the trend of every snapshot made of an entry is neutral. *)
Theorem X20_CalculateIndicators_warm_up (c : Calculator)
  (klines : list KLine) :
  let out := CalculateIndicators Ema Macd Rsi c klines in
  ((length klines < 30)%nat -> out = []) /\
  ((30 <= length klines)%nat ->
     length out = length klines /\
     (forall i ind, (i < 29)%nat -> out !! i = Some ind ->
                    ind = zeroIndicators) /\
     (forall i ind, (29 <= i)%nat -> out !! i = Some ind ->
        EMA8 ind = getValueAt (Ema (map Close klines) 8) (Z.of_nat i) /\
        EMA30 ind = getValueAt (Ema (map Close klines) 30) (Z.of_nat i)) /\
     ((length klines < 55)%nat -> Forall (fun ind => EMA55 ind = 0) out) /\
     ((length klines < 144)%nat ->
        forall ind kline,
          ind ∈ out ->
          EMA144 ind = 0 /\ EMA169 ind = 0 /\
          GetTrendDirection (mkMarketData kline ind) = TrendNeutral)).
Proof.
  intros out.
  split.
  - intros H. unfold out, CalculateIndicators, strategy.len.
    replace (Z.of_nat (length klines) <? 30)%Z with true
      by (symmetry; apply Z.ltb_lt; lia).
    reflexivity.
  - intros H.
    split; [|split; [|split; [|split]]].
    5:{ intros H144 ind kline Hin.
        exact (CalculateIndicators_short c klines ind kline H144 Hin). }
    all: unfold out, CalculateIndicators, strategy.len;
      replace (Z.of_nat (length klines) <? 30)%Z with false
        by (symmetry; apply Z.ltb_ge; lia);
      destruct (if (Z.of_nat (length klines) >=? 26)%Z
                then Macd (map Close klines) 12 26 9 else ([], [], []))
        as [[macd macdSignal] macdHistogram].
    + rewrite length_map. unfold indices.
      rewrite length_map, length_seq. reflexivity.
    + intros i ind Hi. rewrite list_lookup_fmap.
      destruct (indices (length klines) !! i) as [z|] eqn:E; [|discriminate].
      apply indices_lookup in E. destruct E as [-> _]. simpl.
      replace (Z.of_nat i >=? 29)%Z with false
        by (symmetry; rewrite Z.geb_leb; apply Z.leb_gt; lia).
      intros [= <-]. reflexivity.
    + intros i ind Hi. rewrite list_lookup_fmap.
      destruct (indices (length klines) !! i) as [z|] eqn:E; [|discriminate].
      apply indices_lookup in E. destruct E as [-> _]. simpl.
      replace (Z.of_nat i >=? 29)%Z with true
        by (symmetry; rewrite Z.geb_leb; apply Z.leb_le; lia).
      intros [= <-]. split; reflexivity.
    + intros H55.
      replace (Z.of_nat (length klines) >=? 55)%Z with false
        by (symmetry; rewrite Z.geb_leb; apply Z.leb_gt; lia).
      apply Forall_forall. intros ind Hin.
      apply list_elem_of_fmap in Hin. destruct Hin as (z & -> & _).
      destruct (z >=? 29)%Z; [apply getValueAt_nil | reflexivity].
Qed.

End WarmUp.

Section CrossOver.
Import models indicators.
Local Open Scope float_scope.

Lemma ema_macd_current_is_data (s : ema_macd.EMA_MACD_Strategy)
  (data : MarketData) :
  let h := strategy.appendBounded 200 (ema_macd.history s) data in
  strategy.index h (strategy.len h - 1) = data.
Proof.
  intros h. unfold strategy.index, strategy.len.
  replace (Z.to_nat (Z.of_nat (length h) - 1)) with (length h - 1)%nat by lia.
  apply appendBounded_last. lia.
Qed.

Lemma ema_macd_history (s : ema_macd.EMA_MACD_Strategy) (data : MarketData) :
  ema_macd.history (fst (ema_macd.Analyze s data))
  = strategy.appendBounded 200 (ema_macd.history s) data.
Proof.
  unfold ema_macd.Analyze. cbn [ema_macd.history].
  repeat match goal with
    | |- context [if ?c then _ else _] => destruct c
    | |- context [match GetTrendDirection ?d with _ => _ end] =>
        destruct (GetTrendDirection d)
    end; reflexivity.
Qed.

Lemma ema_macd_GetCurrentTrend (s : ema_macd.EMA_MACD_Strategy)
  (data : MarketData) :
  ema_macd.GetCurrentTrend (fst (ema_macd.Analyze s data))
  = GetTrendDirection data.
Proof.
  pose proof (ema_macd_current_is_data s data) as Hcur. cbv zeta in Hcur.
  unfold ema_macd.GetCurrentTrend. rewrite ema_macd_history.
  destruct (strategy.len _ =? 0)%Z eqn:E.
  - apply Z.eqb_eq in E. unfold strategy.len in E.
    rewrite appendBounded_length in E.
    destruct (strategy.len (ema_macd.history s) + 1 >? 200)%Z eqn:E2;
      [|lia].
    apply Z.gtb_lt in E2. unfold strategy.len in E2. lia.
  - rewrite Hcur. reflexivity.
Qed.

Lemma ema_macd_neutral_is_silent (s : ema_macd.EMA_MACD_Strategy)
  (data : MarketData) :
  GetTrendDirection data = TrendNeutral ->
  snd (ema_macd.Analyze s data) = SignalNone.
Proof.
  intros Hn.
  pose proof (ema_macd_current_is_data s data) as Hcur. cbv zeta in Hcur.
  unfold ema_macd.Analyze. cbn [ema_macd.history].
  destruct (strategy.len _ <? 2)%Z; [reflexivity|].
  rewrite Hcur, Hn. destruct (ema_macd.isExitSignal _ _); reflexivity.
Qed.

(** X21.  The signal of the EMA + MACD strategy follows the trend of the
    snapshot it is given.  [Analyze] appends the snapshot to its history
    (at most 200 entries), and [GetCurrentTrend] then answers the trend of
    that snapshot.  A long-entry or long-exit signal is given only in a
    bullish trend, a short-entry or short-exit signal only in a bearish
    one; in a neutral trend there is no signal, even when an exit
    condition holds; and the first call gives no signal. *)
Theorem X21_ema_macd_signal_follows_the_trend
  (s : ema_macd.EMA_MACD_Strategy) (data : MarketData) :
  let s' := fst (ema_macd.Analyze s data) in
  let signal := snd (ema_macd.Analyze s data) in
  ema_macd.history s'
  = strategy.appendBounded 200 (ema_macd.history s) data /\
  ema_macd.GetCurrentTrend s' = GetTrendDirection data /\
  (signal = SignalLongEntry \/ signal = SignalLongExit ->
     GetTrendDirection data = TrendBullish) /\
  (signal = SignalShortEntry \/ signal = SignalShortExit ->
     GetTrendDirection data = TrendBearish) /\
  (GetTrendDirection data = TrendNeutral -> signal = SignalNone) /\
  (ema_macd.history s = [] -> signal = SignalNone).
Proof.
  intros s' signal.
  pose proof (ema_macd_current_is_data s data) as Hcur. cbv zeta in Hcur.
  split; [apply ema_macd_history|].
  split; [apply ema_macd_GetCurrentTrend|].
  split; [|split; [|split; [apply ema_macd_neutral_is_silent|]]];
    unfold signal, ema_macd.Analyze; cbn [ema_macd.history];
    destruct (strategy.len _ <? 2)%Z eqn:Elen.
  - cbn [snd]. intros [H|H]; discriminate.
  - rewrite Hcur. destruct (GetTrendDirection data); cbn [snd];
      repeat match goal with
        | |- context [if ?c then _ else _] => destruct c; cbn [snd]
        end; intros [H|H]; try discriminate; reflexivity.
  - cbn [snd]. intros [H|H]; discriminate.
  - rewrite Hcur. destruct (GetTrendDirection data); cbn [snd];
      repeat match goal with
        | |- context [if ?c then _ else _] => destruct c; cbn [snd]
        end; intros [H|H]; try discriminate; reflexivity.
  - reflexivity.
  - intros Hnil. apply Z.ltb_ge in Elen. unfold strategy.len in Elen.
    rewrite appendBounded_length, Hnil in Elen. simpl in Elen. lia.
Qed.

End CrossOver.

Section Silent.
Import models indicators.
Local Open Scope float_scope.

Variable Ema : list float -> Z -> list float.
Variable Macd :
  list float -> Z -> Z -> Z -> list float * list float * list float.
Variable Rsi : list float -> Z -> list float.


End Silent.

Section SilentExample.
Import models indicators.
Local Open Scope float_scope.


End SilentExample.

(* ********************************************************************* *)
(** * Part XXI.  Renaming back, and filters that only loosen              *)
(* ********************************************************************* *)

Section RoundTrip.
Import models trading lifecycle fixtures.
Local Open Scope float_scope.

Lemma renameFirst_absent (l : list string) (oldID newID : string) :
  oldID ∉ l -> renameFirst l oldID newID = l.
Proof.
  induction l as [|y l IH]; intros Hn; simpl; [reflexivity|].
  apply not_elem_of_cons in Hn. destruct Hn as [Hy Hn].
  destruct (String.eqb_spec y oldID) as [->|_]; [congruence|].
  rewrite IH by exact Hn. reflexivity.
Qed.

Lemma renameFirst_back (l : list string) (a b : string) :
  b ∉ l -> renameFirst (renameFirst l a b) b a = l.
Proof.
  induction l as [|y l IH]; intros Hn; simpl; [reflexivity|].
  apply not_elem_of_cons in Hn. destruct Hn as [Hy Hn].
  destruct (String.eqb_spec y a) as [->|Hya]; simpl.
  - rewrite String.eqb_refl. reflexivity.
  - destruct (String.eqb_spec y b) as [->|_]; [congruence|].
    rewrite IH by exact Hn. reflexivity.
Qed.

(** X23.  Renaming an order and renaming it back: when the order is
    stored under its own ID and the other ID is neither a key nor in the
    list of open IDs, [UpdateOrderID] from the one to the other and back
    gives the manager it started from, map, list and total; and
    [UpdateOrderID] from an ID that is no key changes nothing. *)
Theorem X23_UpdateOrderID_round_trip (om : OrderManager) (a b : string)
  (order : LocalOrder) :
  GetOrder om a = Some order -> ID order = a ->
  GetOrder om b = None -> b ∉ openOrders om -> a <> b ->
  UpdateOrderID (UpdateOrderID om a b) b a = om /\
  UpdateOrderID om b a = om.
Proof.
  unfold GetOrder. intros Ha Hid Hb Hbl Hne.
  split.
  2:{ unfold UpdateOrderID. rewrite Hb. reflexivity. }
  unfold UpdateOrderID at 2. rewrite Ha.
  unfold UpdateOrderID. cbn [orders openOrders totalPnL].
  rewrite lookup_delete_ne by exact Hne. rewrite lookup_insert_eq.
  destruct om as [m l t]. cbn [orders openOrders totalPnL] in *.
  f_equal.
  - apply map_eq. intros k.
    destruct (decide (k = b)) as [->|Hkb].
    + rewrite lookup_delete_eq. symmetry. exact Hb.
    + rewrite lookup_delete_ne by congruence.
      destruct (decide (k = a)) as [->|Hka].
      * rewrite lookup_insert_eq, Ha. f_equal.
        destruct order. simpl in *. subst. reflexivity.
      * rewrite lookup_insert_ne by congruence.
        rewrite lookup_delete_ne by congruence.
        rewrite lookup_insert_ne by congruence. reflexivity.
  - apply renameFirst_back. exact Hbl.
Qed.

(** X23 at work on the manager with the one long position. *)
Lemma X23_UpdateOrderID_round_trip_witness :
  UpdateOrderID (UpdateOrderID oneLong "a" "42") "42" "a" = oneLong.
Proof.
  refine (proj1 (X23_UpdateOrderID_round_trip oneLong "a" "42" longAt100
                   _ _ _ _ _)).
  - reflexivity.
  - reflexivity.
  - reflexivity.
  - apply (bool_decide_unpack _). vm_compute. exact I.
  - discriminate.
Defined.

End RoundTrip.

Section Monotone.
Import models strategy spec fixtures.
Local Open Scope float_scope.

(** X24.  The three filters are monotone for a fixed history: a bar
    with at least the volume of a bar that passes [checkVolume] passes
    it; a delta at least (at most) the one that passes [checkDelta] for a
    long (short) pattern passes it; with the same EMA30, a close at least
    (at most) the one that passes [checkTrend] for a long (short) pattern
    passes it; and [checkDelta] and [checkTrend] pass no direction other
    than the two entries. *)
Theorem X24_filters_are_monotone (s : PatternVolumeDeltaStrategy)
  (candle candle' : MarketData) (delta delta' : Delta) :
  ((Volume (mdKLine candle') >=. Volume (mdKLine candle)) = true ->
   checkVolume s candle = true -> checkVolume s candle' = true) /\
  ((Value delta' >=. Value delta) = true ->
   checkDelta s delta SignalLongEntry = true ->
   checkDelta s delta' SignalLongEntry = true) /\
  ((Value delta' <=. Value delta) = true ->
   checkDelta s delta SignalShortEntry = true ->
   checkDelta s delta' SignalShortEntry = true) /\
  (EMA30 (mdIndicators candle') = EMA30 (mdIndicators candle) ->
   (Close (mdKLine candle') >=. Close (mdKLine candle)) = true ->
   checkTrend s candle SignalLongEntry = true ->
   checkTrend s candle' SignalLongEntry = true) /\
  (EMA30 (mdIndicators candle') = EMA30 (mdIndicators candle) ->
   (Close (mdKLine candle') <=. Close (mdKLine candle)) = true ->
   checkTrend s candle SignalShortEntry = true ->
   checkTrend s candle' SignalShortEntry = true) /\
  (forall direction,
     checkDelta s delta direction = true \/
     checkTrend s candle direction = true ->
     direction = SignalLongEntry \/ direction = SignalShortEntry).
Proof.
  split; [|split; [|split; [|split; [|split]]]].
  - unfold checkVolume. intros Hge.
    destruct (len (history s) - 1 <? 1)%Z; [auto|].
    generalize (volumeThreshold s). intros t H. clear - Hge H. fkeys.
  - unfold checkDelta, deltaDirectionOk. intros Hge.
    destruct (String.eqb _ _); [destruct (len _ <? 10)%Z; [auto|]|].
    + generalize (dynamicDeltaThreshold s). intros t H. clear - Hge H. fkeys.
    + generalize (deltaThreshAbs s). intros t H. clear - Hge H. fkeys.
  - unfold checkDelta, deltaDirectionOk. intros Hge.
    destruct (String.eqb _ _); [destruct (len _ <? 10)%Z; [auto|]|].
    + generalize (- dynamicDeltaThreshold s). intros t H.
      clear - Hge H. fkeys.
    + generalize (- deltaThreshAbs s). intros t H. clear - Hge H. fkeys.
  - unfold checkTrend. intros -> Hge.
    destruct (EMA30 (mdIndicators candle) ==. 0); [auto|].
    generalize (EMA30 (mdIndicators candle)). intros t H.
    clear - Hge H. fkeys.
  - unfold checkTrend. intros -> Hge.
    destruct (EMA30 (mdIndicators candle) ==. 0); [auto|].
    generalize (EMA30 (mdIndicators candle)). intros t H.
    clear - Hge H. fkeys.
  - intros direction [H|H].
    + unfold checkDelta, deltaDirectionOk in H.
      destruct direction; auto;
        destruct (String.eqb _ _); try destruct (len _ <? 10)%Z;
        discriminate.
    + unfold checkTrend in H.
      destruct direction; auto;
        destruct (EMA30 (mdIndicators candle) ==. 0); discriminate.
Qed.

(** X24 at work: after nine quiet bars the rising bar passes the volume
    filter, and so does the same bar with three times its volume. *)
Lemma X24_filters_are_monotone_witness :
  checkVolume nineBars (bar 10 11 10 11 6 10.5) = true.
Proof.
  refine (proj1 (X24_filters_are_monotone nineBars (fst rising)
                   (bar 10 11 10 11 6 10.5) (snd rising) (snd rising))
            _ _).
  - vm_compute. reflexivity.
  - vm_compute. reflexivity.
Defined.

End Monotone.
